(** * A reputation oracle: scoring engine, indexer cycle and trust client

    A shallow embedding of the JavaScript sources
    [server/scoring.js], [server/indexer.js], [server/validation.js],
    [src/agentkit/types.js], [src/agentkit/fallbacks.js],
    [src/agentkit/client.js] and [src/agentkit/config.js] and of the contract
    [contracts/TrustScore.sol], followed by the properties proved about them.

    Conventions of the embedding.
    - A finite JavaScript number is an exact rational ([Q]); [NaN] and the two
      infinities are the single value [None] of [option Q], because every use
      in the sources tests [Number.isFinite] / [Number.isInteger] first.
      Rounding of IEEE-754 doubles is not represented: arithmetic is exact.
    - Numbers that the code has already checked to be integers (counters,
      [Math.round] results, block numbers) are [Z].
    - Code that may [throw] returns an [outcome]; [await]ed calls to the
      outside world (file system, RPC, HTTP) are oracles of an environment
      record, and the state they change is passed explicitly. *)

From Stdlib Require Import ZArith QArith Qround Qminmax Lia Lqa.
From Stdlib Require Import List String Ascii Bool.
From Stdlib Require Import Sorted Permutation DecimalString DecimalN DecimalPos.
Import ListNotations.

Set Implicit Arguments.

(* ------------------------------------------------------------------ *)
(** * JavaScript values and built-ins used by the sources *)
(* ------------------------------------------------------------------ *)

Module JS.

(** Results of code that may throw. *)
Inductive outcome (E A : Type) : Type :=
| Return (a : A)
| Throw (e : E).

Arguments Return {E A} a.
Arguments Throw {E A} e.

Definition bind {E A B} (m : outcome E A) (k : A -> outcome E B) : outcome E B :=
  match m with
  | Return a => k a
  | Throw e => Throw e
  end.

(** Exceptions raised by the sources themselves. *)
Inductive exn : Type :=
| TypeError (message : string)
| RangeError (message : string)
| SyntaxError (message : string)
| Error (message : string).

(** The primitive values the modelled functions receive. *)
Inductive value : Type :=
| Undefined
| Null
| Bool (b : bool)
| Num (x : option Q)        (* [None]: NaN or an infinity *)
| Str (s : string)
| BigInt (z : Z)
| DateObj (ms : option Q).  (* a [Date]; [None]: an invalid date *)

(** [a ?? b] *)
Definition nullish (a b : value) : value :=
  match a with
  | Undefined | Null => b
  | _ => a
  end.

(** Comparison operators on finite numbers. *)
Definition Qltb (x y : Q) : bool := negb (Qle_bool y x).
Definition Qleb (x y : Q) : bool := Qle_bool x y.

(** [Number.isInteger] on a finite number. *)
Definition Number_isInteger (x : Q) : bool := Qeq_bool (inject_Z (Qfloor x)) x.

(** [Math.round]: the nearest integer, ties towards plus infinity. *)
Definition Math_round (x : Q) : Z := Qfloor (x + (1 # 2)).

(** [Math.max] and [Math.min] of two finite numbers. *)
Definition Math_max (x y : Q) : Q := Qmax x y.
Definition Math_min (x y : Q) : Q := Qmin x y.

(** ** Strings *)

Definition lower_ascii (c : ascii) : ascii :=
  let n := nat_of_ascii c in
  if (65 <=? n)%nat && (n <=? 90)%nat then ascii_of_nat (n + 32) else c.

(** [String.prototype.toLowerCase], on ASCII text. *)
Fixpoint toLowerCase (s : string) : string :=
  match s with
  | EmptyString => EmptyString
  | String c r => String (lower_ascii c) (toLowerCase r)
  end.

Definition is_space (c : ascii) : bool :=
  let n := nat_of_ascii c in
  (n =? 32)%nat || ((9 <=? n)%nat && (n <=? 13)%nat).

Fixpoint trimStart (s : string) : string :=
  match s with
  | EmptyString => EmptyString
  | String c r => if is_space c then trimStart r else s
  end.

Fixpoint trimEnd (s : string) : string :=
  match s with
  | EmptyString => EmptyString
  | String c r =>
      match trimEnd r with
      | EmptyString => if is_space c then EmptyString else String c EmptyString
      | r' => String c r'
      end
  end.

(** [String.prototype.trim], on ASCII white space. *)
Definition trim (s : string) : string := trimEnd (trimStart s).

(** [String.prototype.includes]. *)
Fixpoint includes (s token : string) : bool :=
  String.prefix token s ||
  match s with
  | EmptyString => false
  | String _ r => includes r token
  end.

(** [String.prototype.startsWith] is [String.prefix] with its arguments
    swapped; [===] on strings is [String.eqb]. *)

Section Builtins.

(** [StringToNumber] of the language (the numeric value of a string, [None]
    for NaN and the infinities) is left abstract. *)
Variable StringToNumber : string -> option Q.

(** [Number(value)]. *)
Definition Number (v : value) : option Q :=
  match v with
  | Undefined => None
  | Null => Some 0
  | Bool b => Some (if b then 1 else 0)
  | Num x => x
  | Str s => StringToNumber s
  | BigInt z => Some (inject_Z z)
  | DateObj ms => ms
  end.

End Builtins.

End JS.

Notation "x <- m ;; k" := (JS.bind m (fun x => k))
  (at level 61, m at next level, right associativity).

(* ------------------------------------------------------------------ *)
(** * server/scoring.js *)
(* ------------------------------------------------------------------ *)

Module Scoring.

Import JS.
Local Open Scope Q_scope.

Definition DAY_MS : Q := 24 * 60 * 60 * 1000.
Definition DEFAULT_MAX_SCORE : Z := 1000%Z.

(** The configuration after [normalizeConfig]. *)
Record Config : Type := {
  decayWindowDays : Z;
  recentFeedbackWeight : Q;
  olderFeedbackWeight : Q;
  confidenceThresholdFeedbackCount : Z;
  confidenceMultiplier : Q;
  negativeFlagThresholdBps : Z;
  recentNegativeWindowDays : Z;
  flaggedScoreMultiplier : Q;
  maxScore : Z
}.

Definition DEFAULT_SCORING_CONFIG : Config := {|
  decayWindowDays := 30;
  recentFeedbackWeight := 2;
  olderFeedbackWeight := 1;
  confidenceThresholdFeedbackCount := 50;
  confidenceMultiplier := 105 # 100;
  negativeFlagThresholdBps := 2000;
  recentNegativeWindowDays := 7;
  flaggedScoreMultiplier := 9 # 10;
  maxScore := DEFAULT_MAX_SCORE
|}.

(** The configuration object a caller passes in: any value in any field. *)
Record ConfigInput : Type := {
  in_decayWindowDays : value;
  in_recentFeedbackWeight : value;
  in_olderFeedbackWeight : value;
  in_confidenceThresholdFeedbackCount : value;
  in_confidenceMultiplier : value;
  in_negativeFlagThresholdBps : value;
  in_recentNegativeWindowDays : value;
  in_flaggedScoreMultiplier : value;
  in_maxScore : value
}.

(** The object [{}]. *)
Definition emptyInput : ConfigInput := {|
  in_decayWindowDays := Undefined;
  in_recentFeedbackWeight := Undefined;
  in_olderFeedbackWeight := Undefined;
  in_confidenceThresholdFeedbackCount := Undefined;
  in_confidenceMultiplier := Undefined;
  in_negativeFlagThresholdBps := Undefined;
  in_recentNegativeWindowDays := Undefined;
  in_flaggedScoreMultiplier := Undefined;
  in_maxScore := Undefined
|}.

(** A feedback entry as the engine reads it. *)
Record Feedback : Type := {
  timestamp : value;
  createdAt : value;
  time : value;
  isPositive : value;
  sentiment : value;
  rating : value
}.

Record ScoringResult : Type := {
  score : Z;
  baseScore : Z;
  confidenceAdjustedScore : Z;
  flagged : bool;
  totalFeedback : Z;
  positiveFeedback : Z;
  recentNegativeRateBps : Z;
  recentFeedbackCount : Z;
  confidenceApplied : bool
}.

(** The six local variables of the loop of [scoreFeedbackDetailed]. *)
Record Acc : Type := {
  acc_weightedPositive : Q;
  acc_weightedTotal : Q;
  acc_totalFeedback : Z;
  acc_positiveFeedback : Z;
  acc_recentFeedbackCount : Z;
  acc_recentNegativeCount : Z
}.

Definition acc0 : Acc := {|
  acc_weightedPositive := 0;
  acc_weightedTotal := 0;
  acc_totalFeedback := 0;
  acc_positiveFeedback := 0;
  acc_recentFeedbackCount := 0;
  acc_recentNegativeCount := 0
|}.

Definition clamp (value min max : Q) : Q := Math_min max (Math_max min value).

Section Builtins.

Variable StringToNumber : string -> option Q.
(** [Date.parse], [None] when the string is not a date. *)
Variable Date_parse : string -> option Q.

Definition toPositiveNumber (v : value) (fallback : Q) : Q :=
  match Number StringToNumber v with
  | Some parsed => if Qltb 0 parsed then parsed else fallback
  | None => fallback
  end.

Definition toPositiveInt (v : value) (fallback : Z) : Z :=
  match Number StringToNumber v with
  | Some parsed =>
      if Number_isInteger parsed && Qltb 0 parsed then Qfloor parsed else fallback
  | None => fallback
  end.

Definition toBps (v : value) (fallback : Z) : Z :=
  match Number StringToNumber v with
  | Some parsed =>
      if negb (Number_isInteger parsed) then fallback
      else if Qltb parsed 0 then 0%Z
      else if Qltb 10000 parsed then 10000%Z
      else Qfloor parsed
  | None => fallback
  end.

Definition normalizeConfig (input : ConfigInput) : Config := {|
  decayWindowDays :=
    toPositiveInt (in_decayWindowDays input) (decayWindowDays DEFAULT_SCORING_CONFIG);
  recentFeedbackWeight :=
    toPositiveNumber (in_recentFeedbackWeight input)
      (recentFeedbackWeight DEFAULT_SCORING_CONFIG);
  olderFeedbackWeight :=
    toPositiveNumber (in_olderFeedbackWeight input)
      (olderFeedbackWeight DEFAULT_SCORING_CONFIG);
  confidenceThresholdFeedbackCount :=
    toPositiveInt (in_confidenceThresholdFeedbackCount input)
      (confidenceThresholdFeedbackCount DEFAULT_SCORING_CONFIG);
  confidenceMultiplier :=
    toPositiveNumber (in_confidenceMultiplier input)
      (confidenceMultiplier DEFAULT_SCORING_CONFIG);
  negativeFlagThresholdBps :=
    toBps (in_negativeFlagThresholdBps input)
      (negativeFlagThresholdBps DEFAULT_SCORING_CONFIG);
  recentNegativeWindowDays :=
    toPositiveInt (in_recentNegativeWindowDays input)
      (recentNegativeWindowDays DEFAULT_SCORING_CONFIG);
  flaggedScoreMultiplier :=
    toPositiveNumber (in_flaggedScoreMultiplier input)
      (flaggedScoreMultiplier DEFAULT_SCORING_CONFIG);
  maxScore := toPositiveInt (in_maxScore input) (maxScore DEFAULT_SCORING_CONFIG)
|}.

(** A normalised configuration handed in again as a configuration object,
    as the indexer does. *)
Definition asInput (cfg : Config) : ConfigInput := {|
  in_decayWindowDays := Num (Some (inject_Z (decayWindowDays cfg)));
  in_recentFeedbackWeight := Num (Some (recentFeedbackWeight cfg));
  in_olderFeedbackWeight := Num (Some (olderFeedbackWeight cfg));
  in_confidenceThresholdFeedbackCount :=
    Num (Some (inject_Z (confidenceThresholdFeedbackCount cfg)));
  in_confidenceMultiplier := Num (Some (confidenceMultiplier cfg));
  in_negativeFlagThresholdBps := Num (Some (inject_Z (negativeFlagThresholdBps cfg)));
  in_recentNegativeWindowDays := Num (Some (inject_Z (recentNegativeWindowDays cfg)));
  in_flaggedScoreMultiplier := Num (Some (flaggedScoreMultiplier cfg));
  in_maxScore := Num (Some (inject_Z (maxScore cfg)))
|}.

Definition parseFeedbackTimestampMs (feedback : Feedback) : outcome exn Q :=
  match nullish (timestamp feedback) (nullish (createdAt feedback) (time feedback)) with
  | Undefined | Null =>
      Throw (TypeError "Feedback entry is missing timestamp/createdAt/time")
  | DateObj ms =>
      match ms with
      | Some t => Return t
      | None => Throw (TypeError "Feedback timestamp Date is invalid")
      end
  | Num x =>
      match x with
      | Some raw =>
          if Qleb raw 0 then Throw (TypeError "Feedback timestamp number is invalid")
          else Return (if Qltb raw (10 ^ 12) then raw * 1000 else raw)
      | None => Throw (TypeError "Feedback timestamp number is invalid")
      end
  | Str s =>
      match Date_parse s with
      | Some t => Return t
      | None => Throw (TypeError "Feedback timestamp string is invalid")
      end
  | Bool _ | BigInt _ => Throw (TypeError "Feedback timestamp type is unsupported")
  end.

Definition sentimentLabel (v : value) : option bool :=
  match v with
  | Str s =>
      let normalized := toLowerCase (trim s) in
      if String.eqb normalized "positive" then Some true
      else if String.eqb normalized "negative" then Some false
      else None
  | _ => None
  end.

Definition parseFeedbackSentiment (feedback : Feedback) : outcome exn bool :=
  match isPositive feedback with
  | Bool b => Return b
  | _ =>
      match sentimentLabel (sentiment feedback) with
      | Some b => Return b
      | None =>
          match rating feedback with
          | Num (Some r) => Return (Qltb 0 r)
          | _ =>
              Throw (TypeError
                "Feedback entry must include isPositive boolean (or equivalent sentiment/rating)")
          end
      end
  end.

(** One iteration of the [for ... of] loop. *)
Definition accumulate (cfg : Config) (decayCutoffMs recentNegativeCutoffMs : Q)
    (acc : Acc) (feedback : Feedback) : outcome exn Acc :=
  timestampMs <- parseFeedbackTimestampMs feedback ;;
  positive <- parseFeedbackSentiment feedback ;;
  let weight :=
    if Qleb decayCutoffMs timestampMs
    then recentFeedbackWeight cfg else olderFeedbackWeight cfg in
  let recent := Qleb recentNegativeCutoffMs timestampMs in
  Return {|
    acc_weightedPositive :=
      if positive then acc_weightedPositive acc + weight else acc_weightedPositive acc;
    acc_weightedTotal := acc_weightedTotal acc + weight;
    acc_totalFeedback := (acc_totalFeedback acc + 1)%Z;
    acc_positiveFeedback :=
      if positive then (acc_positiveFeedback acc + 1)%Z else acc_positiveFeedback acc;
    acc_recentFeedbackCount :=
      if recent then (acc_recentFeedbackCount acc + 1)%Z else acc_recentFeedbackCount acc;
    acc_recentNegativeCount :=
      if recent && negb positive
      then (acc_recentNegativeCount acc + 1)%Z else acc_recentNegativeCount acc
  |}.

Fixpoint accumulateAll (cfg : Config) (decayCutoffMs recentNegativeCutoffMs : Q)
    (acc : Acc) (feedbacks : list Feedback) : outcome exn Acc :=
  match feedbacks with
  | [] => Return acc
  | feedback :: rest =>
      acc' <- accumulate cfg decayCutoffMs recentNegativeCutoffMs acc feedback ;;
      accumulateAll cfg decayCutoffMs recentNegativeCutoffMs acc' rest
  end.

Definition zeroResult : ScoringResult := {|
  score := 0;
  baseScore := 0;
  confidenceAdjustedScore := 0;
  flagged := false;
  totalFeedback := 0;
  positiveFeedback := 0;
  recentNegativeRateBps := 0;
  recentFeedbackCount := 0;
  confidenceApplied := false
|}.

(** The part of [scoreFeedbackDetailed] after the loop. *)
Definition finish (cfg : Config) (acc : Acc) : ScoringResult :=
  if Qeq_bool (acc_weightedTotal acc) 0 then zeroResult
  else
    let baseScoreRaw :=
      (acc_weightedPositive acc / acc_weightedTotal acc) * inject_Z (maxScore cfg) in
    let confidenceApplied :=
      (confidenceThresholdFeedbackCount cfg <=? acc_totalFeedback acc)%Z in
    let confidenceAdjustedRaw :=
      if confidenceApplied then baseScoreRaw * confidenceMultiplier cfg else baseScoreRaw in
    let recentNegativeRateBps :=
      if (acc_recentFeedbackCount acc =? 0)%Z then 0%Z
      else Math_round
             ((inject_Z (acc_recentNegativeCount acc) / inject_Z (acc_recentFeedbackCount acc))
              * 10000) in
    let flagged :=
      (0 <? acc_recentFeedbackCount acc)%Z
      && (negativeFlagThresholdBps cfg <? recentNegativeRateBps)%Z in
    let penalizedRaw :=
      if flagged then confidenceAdjustedRaw * flaggedScoreMultiplier cfg
      else confidenceAdjustedRaw in
    {|
      score := Math_round (clamp penalizedRaw 0 (inject_Z (maxScore cfg)));
      baseScore := Math_round (clamp baseScoreRaw 0 (inject_Z (maxScore cfg)));
      confidenceAdjustedScore :=
        Math_round (clamp confidenceAdjustedRaw 0 (inject_Z (maxScore cfg)));
      flagged := flagged;
      totalFeedback := acc_totalFeedback acc;
      positiveFeedback := acc_positiveFeedback acc;
      recentNegativeRateBps := recentNegativeRateBps;
      recentFeedbackCount := acc_recentFeedbackCount acc;
      confidenceApplied := confidenceApplied
    |}.

(** [feedbacks] is an array by its type, so the [Array.isArray] guard never
    fires; an omitted [config] is [emptyInput], which normalises to the
    defaults. *)
Definition scoreFeedbackDetailed (feedbacks : list Feedback) (config : ConfigInput)
    (nowMs : Q) : outcome exn ScoringResult :=
  let cfg := normalizeConfig config in
  let decayCutoffMs := nowMs - inject_Z (decayWindowDays cfg) * DAY_MS in
  let recentNegativeCutoffMs := nowMs - inject_Z (recentNegativeWindowDays cfg) * DAY_MS in
  acc <- accumulateAll cfg decayCutoffMs recentNegativeCutoffMs acc0 feedbacks ;;
  Return (finish cfg acc).

Definition scoreFeedback (feedbacks : list Feedback) (config : ConfigInput)
    (nowMs : Q) : outcome exn Z :=
  details <- scoreFeedbackDetailed feedbacks config nowMs ;;
  Return (score details).

End Builtins.

End Scoring.

(* ------------------------------------------------------------------ *)
(** * Decimal text of big integers *)
(* ------------------------------------------------------------------ *)

Module BigIntText.

Import JS.

(** [BigInt.prototype.toString()]. *)
Definition toString (z : Z) : string :=
  match z with
  | Zneg p => String "-"%char (NilEmpty.string_of_uint (Pos.to_uint p))
  | _ => NilEmpty.string_of_uint (N.to_uint (Z.to_N z))
  end.

Definition digit_of (base : N) (c : ascii) : option N :=
  let n := N_of_ascii c in
  let d :=
    if (48 <=? n)%N && (n <=? 57)%N then Some (n - 48)%N
    else if (97 <=? n)%N && (n <=? 102)%N then Some (n - 87)%N
    else if (65 <=? n)%N && (n <=? 70)%N then Some (n - 55)%N
    else None in
  match d with
  | Some d => if (d <? base)%N then Some d else None
  | None => None
  end.

Fixpoint parse_digits (base acc : N) (s : string) : option N :=
  match s with
  | EmptyString => Some acc
  | String c r =>
      match digit_of base c with
      | Some d => parse_digits base (acc * base + d) r
      | None => None
      end
  end.

(** One or more digits of the base. *)
Definition parse_number (base : N) (s : string) : option Z :=
  match s with
  | EmptyString => None
  | _ => option_map Z.of_N (parse_digits base 0 s)
  end.

(** [/^\d+$/.test(s)] *)
Definition all_decimal_digits (s : string) : bool :=
  match s with
  | EmptyString => false
  | _ => match parse_digits 10 0 s with Some _ => true | None => false end
  end.

(** [StringToBigInt]: white space is trimmed, the empty string is zero, a
    decimal literal may carry a sign, and the prefixes 0x, 0o and 0b select
    another base. [None] stands for the [SyntaxError]. *)
Definition StringToBigInt (s : string) : option Z :=
  let t := trim s in
  match t with
  | EmptyString => Some 0%Z
  | String c r =>
      if Ascii.eqb c "+" then parse_number 10 r
      else if Ascii.eqb c "-" then option_map Z.opp (parse_number 10 r)
      else if Ascii.eqb c "0" then
        match r with
        | String x r' =>
            if Ascii.eqb x "x" || Ascii.eqb x "X" then parse_number 16 r'
            else if Ascii.eqb x "o" || Ascii.eqb x "O" then parse_number 8 r'
            else if Ascii.eqb x "b" || Ascii.eqb x "B" then parse_number 2 r'
            else parse_number 10 t
        | EmptyString => parse_number 10 t
        end
      else parse_number 10 t
  end.

(** [BigInt(value)]; [None] stands for the exception it throws. *)
Definition BigInt_of (v : value) : option Z :=
  match v with
  | Undefined | Null => None
  | Bool b => Some (if b then 1 else 0)%Z
  | Num (Some x) | DateObj (Some x) =>
      if Number_isInteger x then Some (Qfloor x) else None
  | Num None | DateObj None => None
  | Str s => StringToBigInt s
  | BigInt z => Some z
  end.

End BigIntText.

(* ------------------------------------------------------------------ *)
(** * server/validation.js *)
(* ------------------------------------------------------------------ *)

Module Validation.

Import JS.

Definition UINT256_MAX : Z := (2 ^ 256 - 1)%Z.

Definition parseAgentIdParam (rawAgentId : string) : outcome exn Z :=
  if (String.length rawAgentId =? 0)%nat then Throw (Error "agentId is required")
  else if negb (BigIntText.all_decimal_digits rawAgentId)
  then Throw (Error "agentId must be a base-10 unsigned integer")
  else
    match BigIntText.StringToBigInt rawAgentId with
    | Some agentId =>
        if (UINT256_MAX <? agentId)%Z then Throw (Error "agentId exceeds uint256 range")
        else Return agentId
    | None => Throw (SyntaxError "Cannot convert to a BigInt")
    end.

End Validation.

(* ------------------------------------------------------------------ *)
(** * src/agentkit/types.js *)
(* ------------------------------------------------------------------ *)

Module Types.

Import JS.
Local Open Scope Q_scope.

Inductive STATUS : Type := OK | DEGRADED | ERROR.
Inductive VERDICT : Type := TRUSTED | CAUTION | DANGEROUS | UNKNOWN.
Inductive RECOMMENDATION : Type := PROCEED | MANUAL_REVIEW | ABORT.
Inductive SOURCE : Type := API_PAID | API_DEMO | TRUSTSCORE_CONTRACT.

(** The string each [SOURCE] constant holds. *)
Definition SOURCE_text (s : SOURCE) : string :=
  match s with
  | API_PAID => "api_paid"
  | API_DEMO => "api_demo"
  | TRUSTSCORE_CONTRACT => "trustscore_contract"
  end.

(** The argument is a number or [null]. *)
Definition resolveVerdict (score : option Q) : VERDICT :=
  match score with
  | None => UNKNOWN
  | Some s =>
      if Qltb 700 s then TRUSTED
      else if Qleb 400 s then CAUTION
      else DANGEROUS
  end.

Definition resolveRecommendation (verdict : VERDICT) : RECOMMENDATION :=
  match verdict with
  | TRUSTED => PROCEED
  | CAUTION | UNKNOWN => MANUAL_REVIEW
  | DANGEROUS => ABORT
  end.

(** [Number(value.toFixed(4))] for a value of [[0, 1]]. *)
Definition toFixed4 (value : Q) : Q :=
  inject_Z (Qfloor (value * 10000 + (1 # 2))) / 10000.

Definition clampConfidence (value : option Q) : option Q :=
  match value with
  | None => None
  | Some v =>
      if Qltb v 0 then Some 0
      else if Qltb 1 v then Some 1
      else Some (toFixed4 v)
  end.

End Types.

(* ------------------------------------------------------------------ *)
(** * src/agentkit/fallbacks.js *)
(* ------------------------------------------------------------------ *)

Module Fallbacks.

Import JS Types.

Inductive FALLBACK_CODE : Type :=
| ORACLE_UNAVAILABLE
| API_TIMEOUT
| PAYMENT_UNAVAILABLE
| RPC_UNAVAILABLE
| AGENT_NOT_FOUND
| INVALID_AGENT_ID.

Definition FALLBACK_CODE_text (c : FALLBACK_CODE) : string :=
  match c with
  | ORACLE_UNAVAILABLE => "oracle_unavailable"
  | API_TIMEOUT => "api_timeout"
  | PAYMENT_UNAVAILABLE => "payment_unavailable"
  | RPC_UNAVAILABLE => "rpc_unavailable"
  | AGENT_NOT_FOUND => "agent_not_found"
  | INVALID_AGENT_ID => "invalid_agent_id"
  end.

(** The error object a failed attempt throws. [message] and [shortMessage]
    are the empty string when the property is absent. *)
Record JsError : Type := {
  name : string;
  code : value;
  statusCode : option Z;
  message : string;
  shortMessage : string
}.

(** [String(error)] for an error object. *)
Definition errorToString (error : JsError) : string :=
  if String.eqb (message error) "" then name error
  else if String.eqb (name error) "" then message error
  else (name error ++ ": " ++ message error)%string.

Definition toErrorMessage (error : JsError) : string :=
  if negb (String.eqb (trim (message error)) "") then trim (message error)
  else errorToString error.

Definition code_is (error : JsError) (text : string) : bool :=
  match code error with
  | Str s => String.eqb s text
  | _ => false
  end.

Definition isTimeoutError (error : JsError) : bool :=
  String.eqb (name error) "AbortError"
  || code_is error "ABORT_ERR"
  || includes (toLowerCase (message error)) "timeout".

Definition isRpcError (error : JsError) : bool :=
  let normalized :=
    toLowerCase (if String.eqb (message error) "" then shortMessage error
                 else message error) in
  includes normalized "network"
  || includes normalized "socket"
  || includes normalized "connect"
  || includes normalized "rpc".

Definition isCallException (error : JsError) : bool :=
  code_is error "CALL_EXCEPTION"
  || includes (toLowerCase (message error)) "execution reverted"
  || includes (toLowerCase (shortMessage error)) "execution reverted".

(** The caller passes [{ statusCode: error.statusCode, error }]. *)
Definition mapApiFailure (error : JsError) : FALLBACK_CODE :=
  match statusCode error with
  | Some 404%Z => AGENT_NOT_FOUND
  | Some 402%Z => PAYMENT_UNAVAILABLE
  | sc =>
      if match sc with Some n => (500 <=? n)%Z | None => false end
      then ORACLE_UNAVAILABLE
      else if isTimeoutError error then API_TIMEOUT
      else ORACLE_UNAVAILABLE
  end.

Definition mapContractFailure (error : JsError) : FALLBACK_CODE :=
  if isCallException error then AGENT_NOT_FOUND
  else if isTimeoutError error || isRpcError error then RPC_UNAVAILABLE
  else ORACLE_UNAVAILABLE.

Record ErrorInfo : Type := {
  info_code : FALLBACK_CODE;
  info_message : string
}.

(** Data carried by a success envelope. [note], [meta] and [recentTrend]
    are copied through unchanged by the sources and are left out. *)
Record Data : Type := {
  data_totalFeedback : value;
  data_positiveFeedback : value;
  data_flagged : option bool;
  data_riskFactors : list string;
  data_negativeRateBps : value;
  data_lastUpdated : value;
  data_demo : bool
}.

(** The structured response. [timingMs] and [timestamp], which read the
    clock, are left out. *)
Record Envelope : Type := {
  status : STATUS;
  agentId : string;
  score : option Q;
  confidence : option Q;
  verdict : VERDICT;
  recommendation : RECOMMENDATION;
  source : SOURCE;
  fallback : option FALLBACK_CODE;
  error : option ErrorInfo;
  correlationId : string;
  data : option Data
}.

Definition buildStructuredFailure (agentId : string) (source : SOURCE)
    (fallback : FALLBACK_CODE) (correlationId : string) (status : STATUS)
    (message : string) : Envelope := {|
  status := status;
  agentId := agentId;
  score := None;
  confidence := None;
  verdict := UNKNOWN;
  recommendation := MANUAL_REVIEW;
  source := source;
  fallback := Some fallback;
  error := Some {|
    info_code := fallback;
    info_message :=
      if String.eqb message "" then FALLBACK_CODE_text fallback else message
  |};
  correlationId := correlationId;
  data := None
|}.

Definition withDegradedContext (response : Envelope) (fallbackCode : FALLBACK_CODE)
    (fallbackMessage : string) : Envelope := {|
  status := DEGRADED;
  agentId := agentId response;
  score := score response;
  confidence := confidence response;
  verdict := verdict response;
  recommendation := recommendation response;
  source := source response;
  fallback := Some fallbackCode;
  error := Some {|
    info_code := fallbackCode;
    info_message :=
      if String.eqb fallbackMessage "" then FALLBACK_CODE_text fallbackCode
      else fallbackMessage
  |};
  correlationId := correlationId response;
  data := data response
|}.

End Fallbacks.

(* ------------------------------------------------------------------ *)
(** * src/agentkit/client.js *)
(* ------------------------------------------------------------------ *)

Module Client.

Import JS Types Fallbacks.
Local Open Scope string_scope.
Local Open Scope Q_scope.

(** The client configuration, as [loadAgentKitConfig] delivers it. *)
Record AgentKitConfig : Type := {
  baseUrl : string;
  defaultMode : string;
  allowDemoFallback : bool;
  allowOnchainFallback : bool;
  confidenceThresholdFeedbackCount : Q;
  negativeFlagThresholdBps : Q
}.

(** The per-call options; [None] is an absent property. *)
Record QueryOptions : Type := {
  opt_mode : option string;
  opt_allowDemoFallback : option bool;
  opt_allowOnchainFallback : option bool;
  opt_correlationId : option string
}.

Inductive Kind : Type := KindScore | KindReport.

(** A parsed JSON body; a [null] or non-object body has every field
    [Undefined] and the three texts empty. *)
Record Body : Type := {
  body_score : value;
  body_confidence : value;
  body_confidenceBand : value;
  body_totalFeedback : value;
  body_positiveFeedback : value;
  body_negativeRateBps : value;
  body_flagged : value;
  body_riskFactors : option (list string);
  body_lastUpdated : value;
  body_demo : bool;
  body_error : string;
  body_details : string;
  body_message : string
}.

(** What [contract.getDetailedReport] resolves to. *)
Record RawRecord : Type := {
  raw_score : value;
  raw_totalFeedback : value;
  raw_positiveFeedback : value;
  raw_lastUpdated : value;
  raw_exists : bool
}.

Record DetailedRecord : Type := {
  rec_score : Q;
  rec_totalFeedback : Q;
  rec_positiveFeedback : Q;
  rec_lastUpdated : Q;
  rec_exists : bool
}.

(** What one source attempt yields on success. [None] in [res_score] and
    [res_confidence] is the JavaScript [null]. *)
Record QueryResult : Type := {
  res_score : option Q;
  res_confidence : option Q;
  res_data : Data
}.

(** A nullable number seen as a value again. *)
Definition nullable (x : option Q) : value :=
  match x with
  | Some q => Num (Some q)
  | None => Null
  end.

(** The outcome of one HTTP exchange. *)
Inductive HttpOutcome : Type :=
| Responded (httpStatus : Z) (body : Body)
| Rejected (error : JsError).

(** The outside world of one client: the plain and the paying fetchers and
    the contract reader. [paidFetch] is [Throw] when the factory throws. *)
Record World : Type := {
  fetchImpl : string -> HttpOutcome;
  paidFetch : outcome JsError (string -> HttpOutcome);
  getDetailedReport : Z -> outcome JsError RawRecord;
  randomUUID : string
}.

Definition resolveSequence (requestedMode : option string) (config : AgentKitConfig)
    (overrides : QueryOptions) : list SOURCE :=
  let baseMode :=
    match requestedMode with
    | Some m => if String.eqb m "" then defaultMode config else m
    | None => defaultMode config
    end in
  let allowDemo :=
    match opt_allowDemoFallback overrides with
    | Some b => b
    | None => allowDemoFallback config
    end in
  let allowOnchain :=
    match opt_allowOnchainFallback overrides with
    | Some b => b
    | None => allowOnchainFallback config
    end in
  if String.eqb baseMode (SOURCE_text TRUSTSCORE_CONTRACT) then [TRUSTSCORE_CONTRACT]
  else if String.eqb baseMode (SOURCE_text API_DEMO)
  then ([API_DEMO] ++ (if allowOnchain then [TRUSTSCORE_CONTRACT] else []))%list
  else ([API_PAID] ++ (if allowDemo then [API_DEMO] else [])
                   ++ (if allowOnchain then [TRUSTSCORE_CONTRACT] else []))%list.

Definition confidenceFromBand (band : value) : option Q :=
  match band with
  | Str s =>
      let normalized := toLowerCase (trim s) in
      if String.eqb normalized "high" then Some 1
      else if String.eqb normalized "low" then Some (4 # 10)
      else if String.eqb normalized "none" then Some 0
      else None
  | _ => None
  end.

Definition buildHttpError (httpStatus : Z) (body : Body) : JsError :=
  let text :=
    if negb (String.eqb (body_error body) "") then body_error body
    else if negb (String.eqb (body_details body) "") then body_details body
    else if negb (String.eqb (body_message body) "") then body_message body
    else "HTTP " ++ BigIntText.toString httpStatus in
  {| name := "Error"; code := Undefined; statusCode := Some httpStatus;
     message := text; shortMessage := "" |}.

Definition buildReportAnalytics (record : DetailedRecord) (config : AgentKitConfig)
    : Q * bool * list string :=
  let total := rec_totalFeedback record in
  let positive := Math_max 0 (Math_min (rec_positiveFeedback record) total) in
  let negative := Math_max 0 (total - positive) in
  let negativeRateBps :=
    if Qeq_bool total 0 then 0 else inject_Z (Math_round ((negative / total) * 10000)) in
  let flagged := Qltb 0 total && Qltb (negativeFlagThresholdBps config) negativeRateBps in
  let riskFactors :=
    ((if Qltb total (confidenceThresholdFeedbackCount config)
      then ["low_feedback_volume"] else [])
     ++ (if flagged then ["high_negative_feedback_ratio"] else [])
     ++ (if Qltb (rec_score record) 500 then ["low_trust_score"] else []))%list in
  (negativeRateBps, flagged, riskFactors).

Section Builtins.

Variable StringToNumber : string -> option Q.

Definition toNumber (v : value) : option Q := Number StringToNumber v.

Definition toNonNegativeNumber (v : value) : option Q :=
  match toNumber v with
  | Some parsed => if Qltb parsed 0 then None else Some parsed
  | None => None
  end.

Definition deriveConfidence (totalFeedback : value) (threshold : Q) : option Q :=
  match toNonNegativeNumber totalFeedback with
  | None => None
  | Some total =>
      if Qleb threshold 0 then Some 1 else clampConfidence (Some (total / threshold))
  end.

Definition finiteOrZero (v : value) : Q :=
  match Number StringToNumber v with
  | Some x => x
  | None => 0
  end.

Definition parseDetailedRecord (rawRecord : RawRecord) : DetailedRecord := {|
  rec_score := finiteOrZero (raw_score rawRecord);
  rec_totalFeedback := finiteOrZero (raw_totalFeedback rawRecord);
  rec_positiveFeedback := finiteOrZero (raw_positiveFeedback rawRecord);
  rec_lastUpdated := finiteOrZero (raw_lastUpdated rawRecord);
  rec_exists := raw_exists rawRecord
|}.

(** The arguments [status], [fallback] and [error] keep their defaults
    ([ok], [null], [null]) at the only call site. *)
Definition buildSuccessResponse (agentId : string) (score confidence : value)
    (source : SOURCE) (correlationId : string) (data : Data) : Envelope :=
  let normalizedScore := toNonNegativeNumber score in
  let normalizedConfidence := clampConfidence (toNumber confidence) in
  let isZero (x : option Q) :=
    match x with Some q => Qeq_bool q 0 | None => false end in
  let hasNoHistory :=
    isZero normalizedScore
    && ((isZero (toNonNegativeNumber (data_totalFeedback data))
         && isZero (toNonNegativeNumber (data_positiveFeedback data)))
        || isZero normalizedConfidence) in
  let verdict := if hasNoHistory then UNKNOWN else resolveVerdict normalizedScore in
  {|
    status := OK;
    agentId := agentId;
    score := normalizedScore;
    confidence := normalizedConfidence;
    verdict := verdict;
    recommendation := resolveRecommendation verdict;
    source := source;
    fallback := None;
    error := None;
    correlationId := correlationId;
    data := Some data
  |}.

(** [a ?? b] on nullable numbers. *)
Definition orElse (a b : option Q) : option Q :=
  match a with
  | Some _ => a
  | None => b
  end.

Definition requestJson (world : World) (url : string) (usePaid : bool)
    : outcome JsError Body :=
  caller <- (if usePaid then paidFetch world else Return (fetchImpl world)) ;;
  match caller url with
  | Rejected e => Throw e
  | Responded httpStatus body =>
      if (200 <=? httpStatus)%Z && (httpStatus <=? 299)%Z then Return body
      else Throw (buildHttpError httpStatus body)
  end.

Definition queryApi (world : World) (config : AgentKitConfig) (kind : Kind)
    (agentId : string) (source : SOURCE) : outcome JsError QueryResult :=
  let endpoint := match kind with KindScore => "/score/" | KindReport => "/report/" end in
  let querySuffix := match source with API_DEMO => "?demo=true" | _ => "" end in
  let url := baseUrl config ++ endpoint ++ agentId ++ querySuffix in
  body <- requestJson world url
            (match source with API_PAID => true | _ => false end) ;;
  match kind with
  | KindScore =>
      Return {|
        res_score := toNonNegativeNumber (body_score body);
        res_confidence :=
          orElse (toNumber (body_confidence body))
            (orElse (confidenceFromBand (body_confidenceBand body))
               (deriveConfidence (body_totalFeedback body)
                  (confidenceThresholdFeedbackCount config)));
        res_data := {|
          data_totalFeedback := Undefined;
          data_positiveFeedback := Undefined;
          data_flagged := None;
          data_riskFactors := [];
          data_negativeRateBps := Undefined;
          data_lastUpdated := nullish (body_lastUpdated body) Null;
          data_demo := body_demo body
        |}
      |}
  | KindReport =>
      let totalFeedback := toNonNegativeNumber (body_totalFeedback body) in
      let positiveFeedback := toNonNegativeNumber (body_positiveFeedback body) in
      Return {|
        res_score := toNonNegativeNumber (body_score body);
        res_confidence :=
          orElse (toNumber (body_confidence body))
            (orElse (confidenceFromBand (body_confidenceBand body))
               (deriveConfidence (nullable totalFeedback)
                  (confidenceThresholdFeedbackCount config)));
        res_data := {|
          data_totalFeedback := nullable totalFeedback;
          data_positiveFeedback := nullable positiveFeedback;
          data_flagged :=
            match body_flagged body with Bool b => Some b | _ => None end;
          data_riskFactors :=
            match body_riskFactors body with Some l => l | None => [] end;
          data_negativeRateBps :=
            nullable (toNonNegativeNumber (body_negativeRateBps body));
          data_lastUpdated := nullish (body_lastUpdated body) Null;
          data_demo := body_demo body
        |}
      |}
  end.

Definition queryContract (world : World) (config : AgentKitConfig) (kind : Kind)
    (agentId : string) : outcome JsError QueryResult :=
  id <- match BigIntText.StringToBigInt agentId with
        | Some id => Return id
        | None =>
            Throw {| name := "SyntaxError"; code := Undefined; statusCode := None;
                     message := "Cannot convert " ++ agentId ++ " to a BigInt";
                     shortMessage := "" |}
        end ;;
  rawRecord <- getDetailedReport world id ;;
  let record := parseDetailedRecord rawRecord in
  let '(negativeRateBps, flagged, riskFactors) := buildReportAnalytics record config in
  let confidence :=
    deriveConfidence (Num (Some (rec_totalFeedback record)))
      (confidenceThresholdFeedbackCount config) in
  match kind with
  | KindScore =>
      Return {|
        res_score := Some (rec_score record);
        res_confidence := confidence;
        res_data := {|
          data_totalFeedback := Undefined;
          data_positiveFeedback := Undefined;
          data_flagged := None;
          data_riskFactors := [];
          data_negativeRateBps := Undefined;
          data_lastUpdated := Num (Some (rec_lastUpdated record));
          data_demo := false
        |}
      |}
  | KindReport =>
      Return {|
        res_score := Some (rec_score record);
        res_confidence := confidence;
        res_data := {|
          data_totalFeedback := Num (Some (rec_totalFeedback record));
          data_positiveFeedback := Num (Some (rec_positiveFeedback record));
          data_flagged := Some flagged;
          data_riskFactors := riskFactors;
          data_negativeRateBps := Num (Some negativeRateBps);
          data_lastUpdated := Num (Some (rec_lastUpdated record));
          data_demo := false
        |}
      |}
  end.

Record PriorFailure : Type := {
  prior_code : FALLBACK_CODE;
  prior_message : string
}.

(** One attempt of the loop of [queryTrust]. *)
Definition attempt (world : World) (config : AgentKitConfig) (kind : Kind)
    (agentId : string) (source : SOURCE) : outcome JsError QueryResult :=
  match source with
  | TRUSTSCORE_CONTRACT => queryContract world config kind agentId
  | _ => queryApi world config kind agentId source
  end.

Definition classify (source : SOURCE) (error : JsError) : FALLBACK_CODE :=
  match source with
  | TRUSTSCORE_CONTRACT => mapContractFailure error
  | _ => mapApiFailure error
  end.

(** The [for ... of] loop of [queryTrust]: [inl] is the envelope returned
    from inside the loop, [inr] the value of [priorFailure] when the loop
    runs off the end of the sequence. *)
Fixpoint walkSequence (world : World) (config : AgentKitConfig) (kind : Kind)
    (agentId : string) (correlationId : string) (priorFailure : option PriorFailure)
    (sequence : list SOURCE) : Envelope + option PriorFailure :=
  match sequence with
  | [] => inr priorFailure
  | source :: rest =>
      match attempt world config kind agentId source with
      | Return result =>
          let response :=
            buildSuccessResponse agentId
              (nullable (res_score result)) (nullable (res_confidence result))
              source correlationId (res_data result) in
          match priorFailure with
          | Some prior =>
              inl (withDegradedContext response (prior_code prior) (prior_message prior))
          | None => inl response
          end
      | Throw error =>
          walkSequence world config kind agentId correlationId
            (Some {| prior_code := classify source error;
                     prior_message := toErrorMessage error |})
            rest
      end
  end.

(** The first lines of [queryTrust]: the source sequence of a query. *)
Definition querySequence (config : AgentKitConfig) (options : QueryOptions)
    : list SOURCE :=
  let requestedMode :=
    match opt_mode options with
    | Some m => if String.eqb m "" then defaultMode config else m
    | None => defaultMode config
    end in
  resolveSequence (Some requestedMode) config options.

Definition queryTrust (world : World) (config : AgentKitConfig) (kind : Kind)
    (rawAgentId : string) (options : QueryOptions) : Envelope :=
  let correlationId :=
    match opt_correlationId options with
    | Some c => if String.eqb c "" then randomUUID world else c
    | None => randomUUID world
    end in
  let sequence := querySequence config options in
  match Validation.parseAgentIdParam rawAgentId with
  | Throw e =>
      buildStructuredFailure rawAgentId (hd API_PAID sequence) INVALID_AGENT_ID
        correlationId ERROR
        (toErrorMessage {| name := "Error"; code := Undefined; statusCode := None;
                           message := match e with
                                      | TypeError m | RangeError m
                                      | SyntaxError m | Error m => m
                                      end;
                           shortMessage := "" |})
  | Return parsed =>
      let agentId := BigIntText.toString parsed in
      match walkSequence world config kind agentId correlationId None sequence with
      | inl response => response
      | inr priorFailure =>
          buildStructuredFailure agentId
            (last sequence API_PAID)
            (match priorFailure with
             | Some p => prior_code p
             | None => ORACLE_UNAVAILABLE
             end)
            correlationId
            (match priorFailure with
             | Some {| prior_code := AGENT_NOT_FOUND |} => ERROR
             | _ => DEGRADED
             end)
            (match priorFailure with
             | Some p =>
                 if String.eqb (prior_message p) ""
                 then "No available trust data source succeeded"
                 else prior_message p
             | None => "No available trust data source succeeded"
             end)
      end
  end.

End Builtins.

End Client.

(* ------------------------------------------------------------------ *)
(** * server/indexer.js *)
(* ------------------------------------------------------------------ *)

Module Indexer.

Import JS.
Local Open Scope string_scope.
Local Open Scope Z_scope.

Definition DEFAULT_MAX_BATCH_SIZE : Z := 100.

(** ** Error objects and the transient-error classifier *)

(** The [code] property: a number, a string, or anything else (absent
    included). A number that is not an integer equals none of the three
    constants tested and is [CodeOther] here. *)
Inductive Code : Type :=
| CodeNumber (n : Z)
| CodeString (s : string)
| CodeOther.

(** An error object with its [error] and [cause] properties. A property is
    [Absent] when it is falsy, [Itself] when it is the object that holds it.
    [message] and [shortMessage] are empty when absent. Chains of nested
    objects are finite: a cycle through two or more objects, on which the
    recursion of [isRpcError] does not end, has no counterpart here. *)
Inductive ErrorObject : Type :=
| MkError (code : Code) (message shortMessage : string) (inner cause : Link)
with Link : Type :=
| Absent
| Itself
| Nested (e : ErrorObject).

Scheme ErrorObject_mut := Induction for ErrorObject Sort Prop
  with Link_mut := Induction for Link Sort Prop.

Definition err_code (e : ErrorObject) : Code :=
  match e with MkError c _ _ _ _ => c end.
Definition err_message (e : ErrorObject) : string :=
  match e with MkError _ m _ _ _ => m end.
Definition err_shortMessage (e : ErrorObject) : string :=
  match e with MkError _ _ s _ _ => s end.
Definition err_error (e : ErrorObject) : Link :=
  match e with MkError _ _ _ i _ => i end.
Definition err_cause (e : ErrorObject) : Link :=
  match e with MkError _ _ _ _ c => c end.

Definition knownCodes : list string :=
  ["NETWORK_ERROR"; "SERVER_ERROR"; "TIMEOUT"; "ECONNRESET"; "ETIMEDOUT"; "ENOTFOUND"].

Definition retryHints : list string :=
  ["timeout"; "timed out"; "429"; "rate limit"; "network error"; "missing response";
   "temporarily unavailable"; "socket hang up"; "gateway timeout"].

(** The three tests [isRpcError] makes on one object before it follows a
    link. *)
Definition codeIsTransient (error : ErrorObject) : bool :=
  match err_code error with
  | CodeNumber n => (n =? -32000) || (n =? -32005) || (n =? -32603)
  | _ => false
  end.

Definition codeIsKnown (error : ErrorObject) : bool :=
  match err_code error with
  | CodeString s => existsb (String.eqb s) knownCodes
  | _ => false
  end.

Definition messageText (error : ErrorObject) : string :=
  toLowerCase (err_message error ++ " " ++ err_shortMessage error).

Definition messageHasHint (error : ErrorObject) : bool :=
  existsb (fun token => includes (messageText error) token) retryHints.

(** [isRpcError] on an object; the recursion follows [error.error] when it
    is set, and [error.cause] only otherwise. *)
Fixpoint isRpcErrorObject (error : ErrorObject) : bool :=
  if codeIsTransient error then true
  else if codeIsKnown error then true
  else if messageHasHint error then true
  else
    match err_error error with
    | Nested e => isRpcErrorObject e
    | _ =>
        match err_cause error with
        | Nested e => isRpcErrorObject e
        | _ => false
        end
    end.

(** [isRpcError]; [None] is a falsy argument. *)
Definition isRpcError (error : option ErrorObject) : bool :=
  match error with
  | None => false
  | Some e => isRpcErrorObject e
  end.

(** ** Checkpoints *)

Definition normalizeAgentIdString (v : value) : option string :=
  match BigIntText.BigInt_of v with
  | Some asBigInt => if asBigInt <? 0 then None else Some (BigIntText.toString asBigInt)
  | None => None
  end.

Record Checkpoint : Type := {
  lastProcessedBlock : option Z;
  pendingAgentIds : list string
}.

(** What [raw?.pendingAgentIds || []] is iterated over. *)
Inductive Iterable : Type :=
| Falsy                           (* absent, [null], [0], [false] or the empty string *)
| ArrayOf (items : list value)
| StringOf (s : string)           (* a non-empty string, iterated by character *)
| NotIterable.                    (* a number, [true] or a plain object *)

(** A checkpoint before normalisation: any primitive in the block field,
    any primitives as identifiers. *)
Record RawCheckpoint : Type := {
  raw_lastProcessedBlock : value;
  raw_pendingAgentIds : Iterable
}.

Definition zeroCheckpoint : Checkpoint :=
  {| lastProcessedBlock := None; pendingAgentIds := [] |}.

(** The loop of [normalizeCheckpoint]; [seen] is the [Set]. *)
Fixpoint normalizePending (seen pendingAgentIds : list string) (ids : list value)
    : list string :=
  match ids with
  | [] => pendingAgentIds
  | id :: rest =>
      match normalizeAgentIdString id with
      | Some normalized =>
          if String.eqb normalized "" || existsb (String.eqb normalized) seen
          then normalizePending seen pendingAgentIds rest
          else normalizePending (normalized :: seen) (pendingAgentIds ++ [normalized]) rest
      | None => normalizePending seen pendingAgentIds rest
      end
  end.

Definition charactersOf (s : string) : list value :=
  map (fun c => Str (String c "")) (list_ascii_of_string s).

(** [raw] is [None] when the value is [null], [undefined] or not an object. *)
Definition normalizeCheckpoint (raw : option RawCheckpoint) : outcome exn Checkpoint :=
  let lastProcessedBlock :=
    match raw with
    | Some {| raw_lastProcessedBlock := Num (Some x) |} =>
        if Number_isInteger x && Qleb 0 x then Some (Qfloor x) else None
    | _ => None
    end in
  match match raw with Some r => raw_pendingAgentIds r | None => Falsy end with
  | Falsy =>
      Return {| lastProcessedBlock := lastProcessedBlock; pendingAgentIds := [] |}
  | ArrayOf items =>
      Return {| lastProcessedBlock := lastProcessedBlock;
                pendingAgentIds := normalizePending [] [] items |}
  | StringOf s =>
      Return {| lastProcessedBlock := lastProcessedBlock;
                pendingAgentIds := normalizePending [] [] (charactersOf s) |}
  | NotIterable => Throw (TypeError "pendingAgentIds is not iterable")
  end.

(** ** The checkpoint file *)

(** The text of a file, up to JSON syntax: the value [JSON.parse] returns
    for it, or text that is not JSON. *)
Inductive FileContent : Type :=
| JsonDocument (parsed : option RawCheckpoint)
| NotJson.

Record FileSystem : Type := {
  checkpointFile : option FileContent;   (* at [checkpointPath] *)
  tmpFile : option FileContent           (* at [checkpointPath + ".tmp"] *)
}.

(** [JSON.stringify(normalized, null, 2)] followed by a newline. *)
Definition JSON_stringify (c : Checkpoint) : FileContent :=
  JsonDocument (Some {|
    raw_lastProcessedBlock :=
      match lastProcessedBlock c with
      | Some n => Num (Some (inject_Z n))
      | None => Null
      end;
    raw_pendingAgentIds := ArrayOf (map Str (pendingAgentIds c))
  |}).

(** Whatever a cycle throws: an error object of the outside world or an
    exception of the run time. *)
Inductive Thrown : Type :=
| ThrownObject (e : ErrorObject)
| ThrownExn (e : exn).

(** Failures the file system may inject into one cycle. *)
Record FsFaults : Type := {
  readFile_fault : option ErrorObject;
  mkdir_fault : option ErrorObject;
  writeFile_fault : option ErrorObject;
  rename_fault : option ErrorObject
}.

Definition ENOENT : ErrorObject := MkError (CodeString "ENOENT") "no such file" "" Absent Absent.

Definition readFile (faults : FsFaults) (fs : FileSystem) : outcome ErrorObject FileContent :=
  match checkpointFile fs with
  | None => Throw ENOENT
  | Some content =>
      match readFile_fault faults with
      | Some e => Throw e
      | None => Return content
      end
  end.

Definition loadCheckpoint (faults : FsFaults) (fs : FileSystem) : outcome Thrown Checkpoint :=
  match readFile faults fs with
  | Throw error =>
      match err_code error with
      | CodeString s =>
          if String.eqb s "ENOENT" then Return zeroCheckpoint
          else Throw (ThrownObject error)
      | _ => Throw (ThrownObject error)
      end
  | Return (JsonDocument parsed) =>
      match normalizeCheckpoint parsed with
      | Return c => Return c
      | Throw e => Throw (ThrownExn e)
      end
  | Return NotJson => Throw (ThrownExn (SyntaxError "Unexpected token in JSON"))
  end.

(** [saveCheckpoint]: the new file system and what the call throws, if it
    does. A failed [writeFile] leaves a truncated temporary file. *)
Definition saveCheckpoint (faults : FsFaults) (fs : FileSystem)
    (checkpoint : option RawCheckpoint) : FileSystem * outcome Thrown unit :=
  match normalizeCheckpoint checkpoint with
  | Throw e => (fs, Throw (ThrownExn e))
  | Return normalized =>
      match mkdir_fault faults with
      | Some e => (fs, Throw (ThrownObject e))
      | None =>
          match writeFile_fault faults with
          | Some e =>
              ({| checkpointFile := checkpointFile fs; tmpFile := Some NotJson |},
               Throw (ThrownObject e))
          | None =>
              let written :=
                {| checkpointFile := checkpointFile fs;
                   tmpFile := Some (JSON_stringify normalized) |} in
              match rename_fault faults with
              | Some e => (written, Throw (ThrownObject e))
              | None =>
                  ({| checkpointFile := tmpFile written; tmpFile := None |}, Return tt)
              end
          end
      end
  end.

(** ** One indexer cycle *)

(** A feedback log: the two arguments the indexer computes with, the other
    texts that [feedbackDedupKey] joins (client address, feedback index,
    value, decimals, tags, endpoint, URI, hash, block number and transaction
    hash) as one text, and the position of the log. *)
Record Log : Type := {
  args_agentId : value;
  args_value : Z;
  keyRest : string;
  blockNumber : Z;
  index : Z
}.

Definition feedbackDedupKey (log : Log) : string :=
  match normalizeAgentIdString (args_agentId log) with
  | Some s => s
  | None => ""
  end ++ "|" ++ keyRest log.

(** [Array.prototype.sort(compare)], as a stable insertion sort that asks
    the same comparator. *)
Fixpoint insertBy {A} (compare : A -> A -> Z) (x : A) (l : list A) : list A :=
  match l with
  | [] => [x]
  | y :: r => if compare x y <=? 0 then x :: l else y :: insertBy compare x r
  end.

Definition Array_sort {A} (compare : A -> A -> Z) (l : list A) : list A :=
  fold_right (insertBy compare) [] l.

(** The comparator of [sortLogs]. *)
Definition byPosition (a b : Log) : Z :=
  if negb (blockNumber a =? blockNumber b) then blockNumber a - blockNumber b
  else index a - index b.

Definition sortLogs (logs : list Log) : list Log := Array_sort byPosition logs.

(** The loop of [dedupeLogs]. *)
Fixpoint dedupeLoop (seen : list string) (deduped logs : list Log) : list Log :=
  match logs with
  | [] => deduped
  | log :: rest =>
      let key := feedbackDedupKey log in
      if existsb (String.eqb key) seen then dedupeLoop seen deduped rest
      else dedupeLoop (key :: seen) (deduped ++ [log]) rest
  end.

Definition dedupeLogs (logs : list Log) : list Log := sortLogs (dedupeLoop [] [] logs).

(** The four arrays handed to [batchUpdateScores]. *)
Record Batch : Type := {
  agentIds : list Z;
  scores : list Z;
  totals : list Z;
  positives : list Z
}.

Definition emptyBatch : Batch :=
  {| agentIds := []; scores := []; totals := []; positives := [] |}.

Inductive EventName : Type := FeedbackPosted | NewFeedback.

(** The objects of ethers a cycle constructs before it reads anything. *)
Inductive Construction : Type :=
| JsonRpcProvider
| Wallet
| ReputationRegistryContract
| TrustScoreContract.

(** The outside world of one cycle. [construct] tells whether a constructor
    of ethers accepts its arguments. Every RPC is made through [rpcCall],
    which retries transient errors: an oracle gives what the call finally
    settles with. [queryFilter] answers an event filter, for one agent or for
    all, over a block range; [getBlock] gives the time stamp of a block in
    seconds, or [None] for a block the node does not have. *)
Record Env : Type := {
  faults : FsFaults;
  construct : Construction -> outcome exn unit;
  getBlockNumber : outcome ErrorObject Z;
  queryFilter : EventName -> option Z -> Z -> Z -> outcome ErrorObject (list Log);
  getBlock : Z -> outcome ErrorObject (option Q);
  batchUpdateScores : Batch -> outcome ErrorObject string;
  waitReceipt : outcome ErrorObject unit
}.

(** The state a cycle changes: the files and the transactions mined. *)
Record World : Type := {
  fs : FileSystem;
  mined : list Batch
}.

(** Where a cycle stopped. *)
Inductive Step : Type :=
| ResolveRuntimeConfig
| NewContract
| LoadCheckpoint
| GetLatestBlock
| QueryFeedbackLogs
| BuildDirtySet
| CollectFeedback (agentId : Z)
| ScoreFeedback (agentId : Z)
| SubmitBatch
| WaitReceipt
| SaveCheckpoint.

Record Failure : Type := {
  failedAt : Step;
  thrown : Thrown
}.

Record CycleResult : Type := {
  fromBlock : Z;
  latestBlock : Z;
  newEventCount : Z;
  dirtyAgentCount : Z;
  processedAgentCount : Z;
  queuedAgentCount : Z;
  processedAgentIds : list string;
  queuedAgentIds : list string;
  txHashes : list string
}.

(** The settings a cycle computes with, as [resolveRuntimeConfig] leaves
    them. *)
Record IndexerConfig : Type := {
  startBlock : Z;
  maxBatchSize : Z;
  scoringConfig : Scoring.Config
}.

(** The object handed to [runIndexerCycle], merged with the settings of the
    environment: whether it holds a [provider] and an [updaterSigner], the
    key and the two addresses (empty when not set), and the settings above;
    [None] is an absent [scoringConfig]. *)
Record ConfigOverrides : Type := {
  given_provider : bool;
  given_updaterSigner : bool;
  given_updaterPrivateKey : string;
  given_trustScoreAddress : string;
  given_reputationRegistryAddress : string;
  given_startBlock : value;
  given_maxBatchSize : value;
  given_scoringConfig : option Scoring.ConfigInput
}.

(** [Set.prototype.add], insertion order kept. *)
Definition Set_add (s : list string) (x : string) : list string :=
  if existsb (String.eqb x) s then s else s ++ [x].

(** [new Set(items)] *)
Definition Set_of (items : list string) : list string := fold_left Set_add items [].

Fixpoint addObserved (dirtyAgentIds : list string) (logs : list Log) : list string :=
  match logs with
  | [] => dirtyAgentIds
  | log :: rest =>
      match normalizeAgentIdString (args_agentId log) with
      | Some normalized =>
          if String.eqb normalized "" then addObserved dirtyAgentIds rest
          else addObserved (Set_add dirtyAgentIds normalized) rest
      | None => addObserved dirtyAgentIds rest
      end
  end.

(** The set [dirtyAgentIds] once the loop over the new logs is done. *)
Definition dirtyAgentIds (checkpoint : Checkpoint) (newlyObservedLogs : list Log)
    : list string :=
  addObserved (Set_of (pendingAgentIds checkpoint)) newlyObservedLogs.

(** [Array.from(ids, (id) => BigInt(id))] *)
Fixpoint toBigInts (ids : list string) : outcome exn (list Z) :=
  match ids with
  | [] => Return []
  | id :: rest =>
      match BigIntText.StringToBigInt id with
      | Some z => r <- toBigInts rest ;; Return (z :: r)
      | None => Throw (SyntaxError "Cannot convert to a BigInt")
      end
  end.

(** [(a, b) => (a < b ? -1 : 1)] *)
Definition ascending (a b : Z) : Z := if a <? b then -1 else 1.

(** [array.slice(0, n)] and [array.slice(n)] for a positive integer [n]. *)
Definition slice_to {A} (n : Z) (l : list A) : list A := firstn (Z.to_nat n) l.
Definition slice_from {A} (n : Z) (l : list A) : list A := skipn (Z.to_nat n) l.

Definition failAt {A} (step : Step) (e : Thrown) : outcome Failure A :=
  Throw {| failedAt := step; thrown := e |}.

(** A step that may throw an exception of JavaScript. *)
Definition exnAt {A} (step : Step) (m : outcome exn A) : outcome Failure A :=
  match m with
  | Return a => Return a
  | Throw e => failAt step (ThrownExn e)
  end.

(** An RPC made through [rpcCall] at the given step. *)
Definition rpcCall {A} (step : Step) (settled : outcome ErrorObject A) : outcome Failure A :=
  match settled with
  | Return a => Return a
  | Throw e => failAt step (ThrownObject e)
  end.

(** The body shared by [queryFeedbackLogs] (no agent) and
    [queryFeedbackLogsForAgent]. *)
Definition queryBothFilters (env : Env) (step : Step) (agentId : option Z)
    (fromBlock toBlock : Z) : outcome Failure (list Log) :=
  if toBlock <? fromBlock then Return []
  else
    posted <- rpcCall step (queryFilter env FeedbackPosted agentId fromBlock toBlock) ;;
    renamed <- rpcCall step (queryFilter env NewFeedback agentId fromBlock toBlock) ;;
    Return (dedupeLogs (posted ++ renamed)).

Definition queryFeedbackLogs (env : Env) (fromBlock toBlock : Z)
    : outcome Failure (list Log) :=
  queryBothFilters env QueryFeedbackLogs None fromBlock toBlock.

Definition queryFeedbackLogsForAgent (env : Env) (agentId fromBlock toBlock : Z)
    : outcome Failure (list Log) :=
  queryBothFilters env (CollectFeedback agentId) (Some agentId) fromBlock toBlock.

(** [blockTimestampCache]: block number to time stamp in milliseconds. *)
Definition Cache : Type := list (Z * Q).

Fixpoint Map_get (cache : Cache) (key : Z) : option Q :=
  match cache with
  | [] => None
  | (k, v) :: rest => if k =? key then Some v else Map_get rest key
  end.

(** The loop of [collectFeedbackForAgent]. *)
Fixpoint collectLoop (env : Env) (agentId : Z) (logs : list Log) (cache : Cache)
    (feedback : list Scoring.Feedback) : outcome Failure (list Scoring.Feedback * Cache) :=
  match logs with
  | [] => Return (feedback, cache)
  | log :: rest =>
      cache' <-
        match Map_get cache (blockNumber log) with
        | Some _ => Return cache
        | None =>
            block <- rpcCall (CollectFeedback agentId) (getBlock env (blockNumber log)) ;;
            match block with
            | None =>
                failAt (CollectFeedback agentId)
                  (ThrownExn (Error ("Missing block " ++ BigIntText.toString (blockNumber log)
                                     ++ " while processing feedback logs")))
            | Some seconds => Return ((blockNumber log, (seconds * 1000)%Q) :: cache)
            end
        end ;;
      collectLoop env agentId rest cache'
        (feedback ++
         [{| Scoring.timestamp :=
               match Map_get cache' (blockNumber log) with
               | Some ms => Num (Some ms)
               | None => Undefined
               end;
             Scoring.createdAt := Undefined;
             Scoring.time := Undefined;
             Scoring.isPositive := Bool (0 <? args_value log);
             Scoring.sentiment := Undefined;
             Scoring.rating := Undefined |}])
  end.

Definition collectFeedbackForAgent (env : Env) (agentId fromBlock toBlock : Z)
    (cache : Cache) : outcome Failure (list Scoring.Feedback * Cache) :=
  logs <- queryFeedbackLogsForAgent env agentId fromBlock toBlock ;;
  collectLoop env agentId logs cache [].

Section Builtins.

Variable StringToNumber : string -> option Q.
Variable Date_parse : string -> option Q.

Definition toPositiveInt (v : value) (fallback : Z) : Z :=
  match Number StringToNumber v with
  | Some parsed =>
      if Number_isInteger parsed && Qltb 0 parsed then Qfloor parsed else fallback
  | None => fallback
  end.

Definition toNonNegativeInt (v : value) (fallback : Z) : Z :=
  match Number StringToNumber v with
  | Some parsed =>
      if Number_isInteger parsed && Qleb 0 parsed then Qfloor parsed else fallback
  | None => fallback
  end.

(** [resolveRuntimeConfig], with the settings a cycle computes with. *)
Definition resolveRuntimeConfig (env : Env) (given : ConfigOverrides)
    : outcome exn IndexerConfig :=
  provider <-
    (if given_provider given then Return tt else construct env JsonRpcProvider) ;;
  updaterSigner <-
    (if given_updaterSigner given then Return tt
     else if String.eqb (given_updaterPrivateKey given) "" then
       Throw (Error
         "Missing updater signer configuration (UPDATER_PRIVATE_KEY or updaterSigner)")
     else construct env Wallet) ;;
  if String.eqb (given_trustScoreAddress given) "" then
    Throw (Error "Missing trustScoreAddress / TRUST_SCORE_ADDRESS")
  else if String.eqb (given_reputationRegistryAddress given) "" then
    Throw (Error "Missing reputationRegistryAddress / REPUTATION_REGISTRY_ADDRESS")
  else
    Return {|
      startBlock := toNonNegativeInt (given_startBlock given) 0;
      maxBatchSize := toPositiveInt (given_maxBatchSize given) DEFAULT_MAX_BATCH_SIZE;
      scoringConfig :=
        Scoring.normalizeConfig StringToNumber
          (match given_scoringConfig given with
           | Some c => c
           | None => Scoring.emptyInput
           end)
    |}.

(** The loop over [agentsToProcess]. *)
Fixpoint processAgents (env : Env) (config : IndexerConfig) (nowMs : Q) (latestBlock : Z)
    (agentsToProcess : list Z) (batch : Batch) (cache : Cache) : outcome Failure Batch :=
  match agentsToProcess with
  | [] => Return batch
  | agentId :: rest =>
      collected <-
        collectFeedbackForAgent env agentId (startBlock config) latestBlock cache ;;
      details <-
        exnAt (ScoreFeedback agentId)
          (Scoring.scoreFeedbackDetailed StringToNumber Date_parse (fst collected)
             (Scoring.asInput (scoringConfig config)) nowMs) ;;
      processAgents env config nowMs latestBlock rest
        {| agentIds := agentIds batch ++ [agentId];
           scores := scores batch ++ [Scoring.score details];
           totals := totals batch ++ [Scoring.totalFeedback details];
           positives := positives batch ++ [Scoring.positiveFeedback details] |}
        (snd collected)
  end.

(** What the cycle has decided when it reaches [saveCheckpoint]. *)
Record Plan : Type := {
  plan_fromBlock : Z;
  plan_latestBlock : Z;
  plan_newlyObservedLogs : list Log;
  plan_sortedDirtyAgents : list Z;
  plan_agentsToProcess : list Z;
  plan_queuedAgentIds : list string;
  plan_batch : Batch
}.

(** [runIndexerCycle] up to [loadCheckpoint]: the settings and the two
    contracts. *)
Definition openCycle (env : Env) (configOverrides : ConfigOverrides)
    : outcome Failure IndexerConfig :=
  config <- exnAt ResolveRuntimeConfig (resolveRuntimeConfig env configOverrides) ;;
  reputationRegistry <- exnAt NewContract (construct env ReputationRegistryContract) ;;
  trustScore <- exnAt NewContract (construct env TrustScoreContract) ;;
  Return config.

(** [runIndexerCycle] from [loadCheckpoint] to the end of the agent loop:
    nothing is written yet. *)
Definition planCycle (env : Env) (config : IndexerConfig) (nowMs : Q)
    (files : FileSystem) : outcome Failure Plan :=
  checkpoint <-
    match loadCheckpoint (faults env) files with
    | Return c => Return c
    | Throw e => failAt LoadCheckpoint e
    end ;;
  let baselineLastProcessed :=
    match lastProcessedBlock checkpoint with
    | Some b => b
    | None => Z.max (startBlock config - 1) 0
    end in
  let fromBlock := baselineLastProcessed + 1 in
  latestBlock <- rpcCall GetLatestBlock (getBlockNumber env) ;;
  newlyObservedLogs <-
    (if fromBlock <=? latestBlock then queryFeedbackLogs env fromBlock latestBlock
     else Return []) ;;
  let dirty := dirtyAgentIds checkpoint newlyObservedLogs in
  asBigInts <- exnAt BuildDirtySet (toBigInts dirty) ;;
  let sortedDirtyAgents := Array_sort ascending asBigInts in
  let agentsToProcess := slice_to (maxBatchSize config) sortedDirtyAgents in
  let queuedAgentIds :=
    map BigIntText.toString (slice_from (maxBatchSize config) sortedDirtyAgents) in
  batch <- processAgents env config nowMs latestBlock agentsToProcess emptyBatch [] ;;
  Return {|
    plan_fromBlock := fromBlock;
    plan_latestBlock := latestBlock;
    plan_newlyObservedLogs := newlyObservedLogs;
    plan_sortedDirtyAgents := sortedDirtyAgents;
    plan_agentsToProcess := agentsToProcess;
    plan_queuedAgentIds := queuedAgentIds;
    plan_batch := batch
  |}.

(** The transaction of step 6: sent when there is an agent to update, then
    awaited. A transaction that was sent counts as mined even if waiting for
    its receipt fails. *)
Definition submitBatch (env : Env) (world : World) (batch : Batch)
    : World * outcome Failure (list string) :=
  match agentIds batch with
  | [] => (world, Return [])
  | _ :: _ =>
      match rpcCall SubmitBatch (batchUpdateScores env batch) with
      | Throw f => (world, Throw f)
      | Return txHash =>
          let world' := {| fs := fs world; mined := mined world ++ [batch] |} in
          match rpcCall WaitReceipt (waitReceipt env) with
          | Throw f => (world', Throw f)
          | Return _ => (world', Return [txHash])
          end
      end
  end.

Definition runIndexerCycle (env : Env) (configOverrides : ConfigOverrides) (nowMs : Q)
    (world : World) : World * outcome Failure CycleResult :=
  match config <- openCycle env configOverrides ;;
        planCycle env config nowMs (fs world) with
  | Throw f => (world, Throw f)
  | Return plan =>
      match submitBatch env world (plan_batch plan) with
      | (world1, Throw f) => (world1, Throw f)
      | (world1, Return txHashes) =>
          let '(files, saved) :=
            saveCheckpoint (faults env) (fs world1)
              (Some {|
                 raw_lastProcessedBlock := Num (Some (inject_Z (plan_latestBlock plan)));
                 raw_pendingAgentIds := ArrayOf (map Str (plan_queuedAgentIds plan))
               |}) in
          let world2 := {| fs := files; mined := mined world1 |} in
          match saved with
          | Throw e => (world2, failAt SaveCheckpoint e)
          | Return _ =>
              (world2,
               Return {|
                 fromBlock := plan_fromBlock plan;
                 latestBlock := plan_latestBlock plan;
                 newEventCount := Z.of_nat (List.length (plan_newlyObservedLogs plan));
                 dirtyAgentCount := Z.of_nat (List.length (plan_sortedDirtyAgents plan));
                 processedAgentCount := Z.of_nat (List.length (agentIds (plan_batch plan)));
                 queuedAgentCount := Z.of_nat (List.length (plan_queuedAgentIds plan));
                 processedAgentIds :=
                   map BigIntText.toString (agentIds (plan_batch plan));
                 queuedAgentIds := plan_queuedAgentIds plan;
                 txHashes := txHashes
               |})
          end
      end
  end.

End Builtins.

End Indexer.

(* ------------------------------------------------------------------ *)
(** * Specification-side definitions, invariants and fixtures *)
(* ------------------------------------------------------------------ *)

(** ** Invariants of the scoring engine *)

Module ScoringSpec.

Import JS Scoring.
Local Open Scope Q_scope.

(** What [normalizeConfig] guarantees about its result. *)
Record normalized (cfg : Config) : Prop := {
  decay_pos : (0 < decayWindowDays cfg)%Z;
  recentWeight_pos : 0 < recentFeedbackWeight cfg;
  olderWeight_pos : 0 < olderFeedbackWeight cfg;
  threshold_pos : (0 < confidenceThresholdFeedbackCount cfg)%Z;
  confidenceMultiplier_pos : 0 < confidenceMultiplier cfg;
  bps_range : (0 <= negativeFlagThresholdBps cfg <= 10000)%Z;
  window_pos : (0 < recentNegativeWindowDays cfg)%Z;
  flaggedMultiplier_pos : 0 < flaggedScoreMultiplier cfg;
  maxScore_pos : (0 < maxScore cfg)%Z
}.

(** The loop invariant of [scoreFeedbackDetailed]. *)
Record acc_ok (acc : Acc) : Prop := {
  wp_nonneg : 0 <= acc_weightedPositive acc;
  wp_le_wt : acc_weightedPositive acc <= acc_weightedTotal acc;
  pos_nonneg : (0 <= acc_positiveFeedback acc)%Z;
  pos_le_total : (acc_positiveFeedback acc <= acc_totalFeedback acc)%Z;
  neg_nonneg : (0 <= acc_recentNegativeCount acc)%Z;
  neg_le_recent : (acc_recentNegativeCount acc <= acc_recentFeedbackCount acc)%Z;
  wt_zero : (acc_totalFeedback acc = 0)%Z -> acc_weightedTotal acc == 0;
  wt_pos : (0 < acc_totalFeedback acc)%Z -> 0 < acc_weightedTotal acc
}.



(** The accumulator after one entry that carries a boolean flag and a numeric
    time stamp inside both windows. *)
Definition recordRecent (cfg : Config) (acc : Acc) (positive : bool) : Acc := {|
  acc_weightedPositive :=
    if positive then acc_weightedPositive acc + recentFeedbackWeight cfg
    else acc_weightedPositive acc;
  acc_weightedTotal := acc_weightedTotal acc + recentFeedbackWeight cfg;
  acc_totalFeedback := (acc_totalFeedback acc + 1)%Z;
  acc_positiveFeedback :=
    if positive then (acc_positiveFeedback acc + 1)%Z else acc_positiveFeedback acc;
  acc_recentFeedbackCount := (acc_recentFeedbackCount acc + 1)%Z;
  acc_recentNegativeCount :=
    if negb positive then (acc_recentNegativeCount acc + 1)%Z
    else acc_recentNegativeCount acc
|}.

End ScoringSpec.
(** ** Fixtures of the scoring test-suite *)

Module ScoringFixtures.

Import JS Scoring.
Local Open Scope Q_scope.

(** The helper [feedback(isPositive, ageDays)] of the tests. *)
Definition feedback (nowMs : Q) (positive : bool) (ageDays : Q) : Feedback := {|
  timestamp := Num (Some (nowMs - ageDays * DAY_MS));
  createdAt := Undefined;
  time := Undefined;
  isPositive := Bool positive;
  sentiment := Undefined;
  rating := Undefined
|}.

(** [nowMs] of the tests: [Date.UTC(2026, 1, 12, 0, 0, 0, 0)]. *)
Definition testNowMs : Q := 1770854400000.

(** The flagging scenario: four knobs set, the others left to their defaults. *)
Definition flaggingConfig : ConfigInput := {|
  in_decayWindowDays := Undefined;
  in_recentFeedbackWeight := Undefined;
  in_olderFeedbackWeight := Undefined;
  in_confidenceThresholdFeedbackCount := Num (Some 999);
  in_confidenceMultiplier := Undefined;
  in_negativeFlagThresholdBps := Num (Some 2000);
  in_recentNegativeWindowDays := Num (Some 7);
  in_flaggedScoreMultiplier := Num (Some (8 # 10));
  in_maxScore := Undefined
|}.

Definition flaggingSentiments : list bool := [true; true; true; true; true; false; false].

Definition flaggingFeedbacks (nowMs : Q) : list Feedback :=
  map (fun positive => feedback nowMs positive 1) flaggingSentiments.

Definition flaggingExpected : ScoringResult := {|
  score := 571;
  baseScore := 714;
  confidenceAdjustedScore := 714;
  flagged := true;
  totalFeedback := 7;
  positiveFeedback := 5;
  recentNegativeRateBps := 2857;
  recentFeedbackCount := 7;
  confidenceApplied := false
|}.


(** The flagging scenario with the threshold configured at 20000. *)
Definition saturatedConfig : ConfigInput := {|
  in_decayWindowDays := Undefined;
  in_recentFeedbackWeight := Undefined;
  in_olderFeedbackWeight := Undefined;
  in_confidenceThresholdFeedbackCount := Num (Some 999);
  in_confidenceMultiplier := Undefined;
  in_negativeFlagThresholdBps := Num (Some 20000);
  in_recentNegativeWindowDays := Num (Some 7);
  in_flaggedScoreMultiplier := Num (Some (8 # 10));
  in_maxScore := Undefined
|}.

(** A run time in which no string is a number or a date; the fixtures hold
    no strings. *)
Definition noText : string -> option Q := fun _ => None.

End ScoringFixtures.

(** ** Digit strings *)

Module BigIntTextSpec.

Import JS BigIntText.

Definition is_digit (c : ascii) : bool :=
  match digit_of 10 c with Some _ => true | None => false end.

Fixpoint all_digits (s : string) : bool :=
  match s with
  | EmptyString => true
  | String c r => is_digit c && all_digits r
  end.

End BigIntTextSpec.

Module ClientSpec.

Import JS Types Fallbacks Client.
Local Open Scope Q_scope.

(** A nullable number that is the number zero. *)
Definition isZero (x : option Q) : Prop := exists q, x = Some q /\ q == 0.

Section Builtins.

Variable StringToNumber : string -> option Q.

(** The no-history case, read off an envelope: the score is 0 and either
    both feedback counters of its data are 0 or its confidence is 0. A
    counter counts as 0 when [toNonNegativeNumber] makes it 0. *)
Definition noHistory (env : Envelope) : Prop :=
  isZero (score env)
  /\ ((exists d, data env = Some d
        /\ isZero (toNonNegativeNumber StringToNumber (data_totalFeedback d))
        /\ isZero (toNonNegativeNumber StringToNumber (data_positiveFeedback d)))
      \/ isZero (confidence env)).


(** The value of [priorFailure] after the sources of [attempted] have been
    tried in turn, each one that throws overwriting it. *)
Definition priorAfter (world : World) (config : AgentKitConfig) (kind : Kind)
    (agentId : string) (prior : option PriorFailure) (attempted : list SOURCE)
    : option PriorFailure :=
  fold_left
    (fun p source =>
       match attempt StringToNumber world config kind agentId source with
       | Throw error =>
           Some {| prior_code := classify source error;
                   prior_message := toErrorMessage error |}
       | Return _ => p
       end)
    attempted prior.

End Builtins.

End ClientSpec.

(** ** Fixtures of the client tests *)

Module ClientFixtures.

Import JS Types Fallbacks Client.
Local Open Scope string_scope.

Definition testConfig : AgentKitConfig := {|
  baseUrl := "https://robomoustach.io";
  defaultMode := "api_paid";
  allowDemoFallback := true;
  allowOnchainFallback := true;
  confidenceThresholdFeedbackCount := 50%Q;
  negativeFlagThresholdBps := 2000%Q
|}.

Definition noOptions : QueryOptions := {|
  opt_mode := None;
  opt_allowDemoFallback := None;
  opt_allowOnchainFallback := None;
  opt_correlationId := None
|}.

Definition emptyBody : Body := {|
  body_score := Undefined;
  body_confidence := Undefined;
  body_confidenceBand := Undefined;
  body_totalFeedback := Undefined;
  body_positiveFeedback := Undefined;
  body_negativeRateBps := Undefined;
  body_flagged := Undefined;
  body_riskFactors := None;
  body_lastUpdated := Undefined;
  body_demo := false;
  body_error := "";
  body_details := "";
  body_message := ""
|}.

Definition explodedBody : Body := {|
  body_score := Undefined;
  body_confidence := Undefined;
  body_confidenceBand := Undefined;
  body_totalFeedback := Undefined;
  body_positiveFeedback := Undefined;
  body_negativeRateBps := Undefined;
  body_flagged := Undefined;
  body_riskFactors := None;
  body_lastUpdated := Undefined;
  body_demo := false;
  body_error := "upstream exploded";
  body_details := "";
  body_message := ""
|}.

Definition goodRecord : RawRecord := {|
  raw_score := BigInt 800;
  raw_totalFeedback := BigInt 80;
  raw_positiveFeedback := BigInt 70;
  raw_lastUpdated := BigInt 1771085895;
  raw_exists := true
|}.

(** The paid API answers 500 and the contract read succeeds. *)
Definition paidDown : World := {|
  fetchImpl := fun _ => Responded 500 explodedBody;
  paidFetch := Return (fun _ => Responded 500 explodedBody);
  getDetailedReport := fun _ => Return goodRecord;
  randomUUID := "00000000-0000-4000-8000-000000000000"
|}.

(** The paid API asks for payment (402), the demo API answers 500 and the
    contract read succeeds. *)
Definition paidUnpaidDemoDown : World := {|
  fetchImpl := fun _ => Responded 500 explodedBody;
  paidFetch := Return (fun _ => Responded 402 emptyBody);
  getDetailedReport := fun _ => Return goodRecord;
  randomUUID := "00000000-0000-4000-8000-000000000000"
|}.

End ClientFixtures.

Module IndexerSpec.

Import JS Indexer.
Local Open Scope string_scope.

(** [t] occurs in [s]. *)
Definition contains (s t : string) : Prop := exists pre post, s = pre ++ t ++ post.

(** One error object is transient on its own: by its numeric code, by its
    string code, or by a hint in the text the classifier examines, which is
    [message], a space and [shortMessage], lower-cased. *)
Definition transientHere (e : ErrorObject) : Prop :=
  (exists n, err_code e = CodeNumber n /\ In n [-32000; -32005; -32603]%Z)
  \/ (exists s, err_code e = CodeString s /\ In s knownCodes)
  \/ (exists hint, In hint retryHints
        /\ contains (toLowerCase (err_message e ++ " " ++ err_shortMessage e)) hint).

(** The objects the classifier visits: the error, then at each object the
    nested [error] if there is one, else the nested [cause]. *)
Fixpoint visited (e : ErrorObject) : list ErrorObject :=
  e :: match err_error e with
       | Nested inner => visited inner
       | _ =>
           match err_cause e with
           | Nested cause => visited cause
           | _ => []
           end
       end.

(** The classifier as the specification words it: the tests are made on the
    [message] alone, for the error and for its [cause] one level down. *)
Definition transientAsWorded (e : ErrorObject) : Prop :=
  (exists n, err_code e = CodeNumber n /\ In n [-32000; -32005; -32603]%Z)
  \/ (exists s, err_code e = CodeString s /\ In s knownCodes)
  \/ (exists hint, In hint retryHints /\ contains (toLowerCase (err_message e)) hint).

Definition retryableAsWorded (e : ErrorObject) : Prop :=
  transientAsWorded e
  \/ exists cause, err_cause e = Nested cause /\ transientAsWorded cause.

(** Duplicates dropped, first occurrences kept in order. *)
Definition keepFirst (l : list string) : list string :=
  fold_right (fun x kept => x :: remove string_dec x kept) [] l.

(** The identifiers that survive [normalizeAgentIdString], in order. *)
Definition normalizedIds (items : list value) : list string :=
  flat_map (fun id => match normalizeAgentIdString id with
                      | Some s => [s]
                      | None => []
                      end) items.

(** The entries [normalizeCheckpoint] iterates over. *)
Definition entriesOf (raw : option RawCheckpoint) : list value :=
  match raw with
  | Some {| raw_pendingAgentIds := ArrayOf items |} => items
  | Some {| raw_pendingAgentIds := StringOf s |} => charactersOf s
  | _ => []
  end.

(** The decimal text of a non-negative integer. *)
Definition canonical (s : string) : Prop :=
  exists z, (0 <= z)%Z /\ s = BigIntText.toString z.

Definition noFaults : FsFaults := {|
  readFile_fault := None;
  mkdir_fault := None;
  writeFile_fault := None;
  rename_fault := None
|}.

End IndexerSpec.

(** An error whose transient code sits two causes down. *)
Module IndexerFixtures.

Import JS Indexer.
Local Open Scope string_scope.

Definition rateLimited : ErrorObject :=
  MkError (CodeNumber (-32005)) "" "" Absent Absent.

Definition wrappedTwice : ErrorObject :=
  MkError CodeOther "" "" Absent
    (Nested (MkError CodeOther "" "" Absent (Nested rateLimited))).

End IndexerFixtures.

Module CheckpointSpec.

Import JS Indexer IndexerSpec.
Local Open Scope string_scope.

(** The entries of [l] that are not in [seen]. *)
Definition exclude (seen l : list string) : list string :=
  filter (fun y => negb (existsb (String.eqb y) seen)) l.

(** What every normalised checkpoint satisfies. *)
Record wellFormed (c : Checkpoint) : Prop := {
  block_nonneg : forall z, lastProcessedBlock c = Some z -> (0 <= z)%Z;
  pending_canonical : Forall canonical (pendingAgentIds c);
  pending_distinct : NoDup (pendingAgentIds c)
}.

End CheckpointSpec.

(** A checkpoint value with a duplicate, a negative and two entries that are
    not numbers. *)
Module CheckpointFixtures.

Import JS Indexer.
Local Open Scope string_scope.




End CheckpointFixtures.

Module CycleSpec.

Import JS Indexer IndexerSpec.

(** What is known of the dirty set at any point of its construction. *)
Record dirty_ok (s : list string) : Prop := {
  dirty_distinct : NoDup s;
  dirty_canonical : Forall canonical s
}.

(** A computation that, when it throws, does not blame [saveCheckpoint]. *)
Definition beforeSave {A} (m : outcome Failure A) : Prop :=
  forall f, m = Throw f -> failedAt f <> SaveCheckpoint.

End CycleSpec.

(** ** Fixtures of the overflow scenario *)

Module CycleFixtures.

Import JS Indexer IndexerSpec.
Local Open Scope string_scope.
Local Open Scope Z_scope.

(** New events for the agents 7 and 3, found by the global scan; each agent
    has one positive feedback, in block 5. *)
Definition logOf (agent : Z) : Log := {|
  args_agentId := BigInt agent;
  args_value := 100;
  keyRest := "0xc1|0|100|0|quality|execution|https://agent.example|ipfs://feedback|0x00|5|0xaa";
  blockNumber := 5;
  index := agent
|}.

Definition twoAgentLogs : list Log := [logOf 7; logOf 3].

(** Block time stamps: one day before [testNowMs], in seconds. *)
Definition blockSeconds : Q := 1770768000.

(** Block 10 is the head and the global scan finds [twoAgentLogs]. *)
Definition busyEnv : Env := {|
  faults := noFaults;
  construct := fun _ => Return tt;
  getBlockNumber := Return 10;
  queryFilter := fun name agent _ _ =>
    match name, agent with
    | FeedbackPosted, None => Return twoAgentLogs
    | FeedbackPosted, Some a => Return [logOf a]
    | NewFeedback, _ => Return []
    end;
  getBlock := fun _ => Return (Some blockSeconds);
  batchUpdateScores := fun _ => Return "0xfeed";
  waitReceipt := Return tt
|}.

(** The head has not moved and the global scan finds nothing. *)
Definition quietEnv : Env := {|
  faults := noFaults;
  construct := fun _ => Return tt;
  getBlockNumber := Return 10;
  queryFilter := fun name agent _ _ =>
    match name, agent with
    | FeedbackPosted, Some a => Return [logOf a]
    | _, _ => Return []
    end;
  getBlock := fun _ => Return (Some blockSeconds);
  batchUpdateScores := fun _ => Return "0xbeef";
  waitReceipt := Return tt
|}.

(** [busyEnv] with the receipt of the transaction lost to an error that is
    not transient. *)
Definition lostReceiptEnv : Env := {|
  faults := noFaults;
  construct := fun _ => Return tt;
  getBlockNumber := getBlockNumber busyEnv;
  queryFilter := queryFilter busyEnv;
  getBlock := getBlock busyEnv;
  batchUpdateScores := batchUpdateScores busyEnv;
  waitReceipt := Throw (MkError (CodeString "CALL_EXCEPTION") "reverted" "" Absent Absent)
|}.

(** A signer and the two addresses, [maxBatchSize = 1], everything else
    left to the defaults. *)
Definition oneAtATime : ConfigOverrides := {|
  given_provider := true;
  given_updaterSigner := true;
  given_updaterPrivateKey := "";
  given_trustScoreAddress := "0x5FbDB2315678afecb367f032d93F642f64180aa3";
  given_reputationRegistryAddress := "0xe7f1725E7734CE288F8367e1Bb143E90bb3F0512";
  given_startBlock := Undefined;
  given_maxBatchSize := Num (Some 1%Q);
  given_scoringConfig := None
|}.

Definition freshWorld : World := {|
  fs := {| checkpointFile := None; tmpFile := None |};
  mined := []
|}.

(** The world the first cycle of the scenario leaves behind. *)
Definition afterFirstCycle : World := {|
  fs := {| checkpointFile :=
             Some (JSON_stringify {| lastProcessedBlock := Some 10;
                                     pendingAgentIds := ["7"] |});
           tmpFile := None |};
  mined := [{| agentIds := [3]; scores := [1000]; totals := [1]; positives := [1] |}]
|}.

End CycleFixtures.

(* ------------------------------------------------------------------ *)
(** * contracts/TrustScore.sol *)
(* ------------------------------------------------------------------ *)

Module TrustScore.

Local Unset Implicit Arguments.

Import JS.
Local Open Scope N_scope.

(** A [uint256] and an [address] are natural numbers; no function of the
    contract computes with them beyond comparing, so their width does not
    show. The balance is counted in wei. *)
Definition uint256 : Type := N.
Definition address : Type := N.

Definition zeroAddress : address := 0.
Definition MAX_SCORE : uint256 := 1000.

Record ScoreRecord : Type := {
  score : uint256;
  totalFeedback : uint256;
  positiveFeedback : uint256;
  lastUpdated : uint256;
  exists_ : bool
}.

(** The value every key of a mapping holds before it is written. *)
Definition noRecord : ScoreRecord := {|
  score := 0;
  totalFeedback := 0;
  positiveFeedback := 0;
  lastUpdated := 0;
  exists_ := false
|}.

Inductive Revert : Type :=
| NotUpdater (caller : address)
| ZeroAddress
| InvalidScore (score : uint256)
| InvalidFeedbackCounts (totalFeedback positiveFeedback : uint256)
| AgentNotRegistered (agentId : uint256)
| ArrayLengthMismatch
| ScoreNotFound (agentId : uint256)
| InsufficientFee (sent required : uint256)
| WithdrawFailed
| OwnableUnauthorizedAccount (account : address)   (* of [Ownable] *)
| OwnableInvalidOwner (owner : address)            (* of [Ownable] *)
| NoReason.   (* a revert without data, raised by the compiled code itself *)

Inductive Event : Type :=
| ScoreUpdated (agentId score timestamp : uint256)
| ScoreQueried (agentId : uint256) (querier : address)
| UpdaterSet (updater : address)
| FeeSet (fee : uint256)
| IdentityRegistrySet (identityRegistry : address)
| Withdrawn (to : address) (amount : uint256)
| OwnershipTransferred (previousOwner newOwner : address).   (* of [Ownable] *)

(** The state of the deployed contract: its storage ([_owner] is the
    variable of [Ownable]), its balance and the events it has emitted. *)
Record State : Type := {
  _owner : address;
  _scores : uint256 -> ScoreRecord;
  updater : address;
  queryFee : uint256;
  identityRegistry : address;
  balance : uint256;
  events : list Event
}.

(** What a message carries: [msg.sender], [msg.value], [block.timestamp]. *)
Record Msg : Type := {
  sender : address;
  value : uint256;
  timestamp : uint256
}.

(** What the call [identityRegistry.ownerOf(agentId)] comes to: an address,
    a revert inside the registry (which [catch] receives), or a failure of
    the caller's own checks around the call (no code at the address, return
    data that does not decode), which [catch] does not receive. *)
Inductive OwnerOf : Type :=
| Answers (ownerAddress : address)
| Reverts
| NotCallable.

(** The world around one call: the registries, by address, and whether the
    owner accepts the ether [withdraw] sends. The receiver is taken not to
    call back into the contract. *)
Record Env : Type := {
  ownerOf : address -> uint256 -> OwnerOf;
  accepts : address -> uint256 -> bool
}.

Definition emit (e : Event) (st : State) : State := {|
  _owner := _owner st;
  _scores := _scores st;
  updater := updater st;
  queryFee := queryFee st;
  identityRegistry := identityRegistry st;
  balance := balance st;
  events := events st ++ [e]
|}.

(** [_scores[agentId] = record] *)
Definition store (agentId : uint256) (record : ScoreRecord) (st : State) : State := {|
  _owner := _owner st;
  _scores := fun id => if id =? agentId then record else _scores st id;
  updater := updater st;
  queryFee := queryFee st;
  identityRegistry := identityRegistry st;
  balance := balance st;
  events := events st
|}.

(** ** Modifiers *)

(** A function that is not [payable] reverts when ether comes with the
    call. *)
Definition nonpayable {A} (m : Msg) (body : outcome Revert A) : outcome Revert A :=
  if value m =? 0 then body else Throw NoReason.

Definition onlyUpdater {A} (st : State) (m : Msg) (body : outcome Revert A)
    : outcome Revert A :=
  if negb (sender m =? updater st) then Throw (NotUpdater (sender m)) else body.

(** [onlyOwner] of [Ownable]. *)
Definition onlyOwner {A} (st : State) (m : Msg) (body : outcome Revert A)
    : outcome Revert A :=
  if negb (_owner st =? sender m) then Throw (OwnableUnauthorizedAccount (sender m))
  else body.

(** ** The constructor *)

(** The constructor of [Ownable] runs first and emits
    [OwnershipTransferred]. *)
Definition constructor (m : Msg) (initialOwner identityRegistry_ updater_ : address)
    (queryFee_ : uint256) : outcome Revert State :=
  nonpayable m
    (if initialOwner =? zeroAddress then Throw (OwnableInvalidOwner zeroAddress)
     else if (initialOwner =? zeroAddress) || (identityRegistry_ =? zeroAddress)
             || (updater_ =? zeroAddress)
     then Throw ZeroAddress
     else Return {|
       _owner := initialOwner;
       _scores := fun _ => noRecord;
       updater := updater_;
       queryFee := queryFee_;
       identityRegistry := identityRegistry_;
       balance := 0;
       events := [OwnershipTransferred zeroAddress initialOwner]
     |}).

(** ** Reads *)

Definition getScore (st : State) (m : Msg) (agentId : uint256) : outcome Revert uint256 :=
  nonpayable m
    (let record := _scores st agentId in
     if negb (exists_ record) then Throw (ScoreNotFound agentId)
     else Return (score record)).

Definition getDetailedReport (st : State) (m : Msg) (agentId : uint256)
    : outcome Revert ScoreRecord :=
  nonpayable m
    (let record := _scores st agentId in
     if negb (exists_ record) then Throw (ScoreNotFound agentId)
     else Return record).

(** The ether sent is in the balance when the body runs. *)
Definition receive (m : Msg) (st : State) : State := {|
  _owner := _owner st;
  _scores := _scores st;
  updater := updater st;
  queryFee := queryFee st;
  identityRegistry := identityRegistry st;
  balance := balance st + value m;
  events := events st
|}.

Definition getDetailedReportPaid (st : State) (m : Msg) (agentId : uint256)
    : outcome Revert (State * ScoreRecord) :=
  let st := receive m st in
  if value m <? queryFee st then Throw (InsufficientFee (value m) (queryFee st))
  else
    let record := _scores st agentId in
    if negb (exists_ record) then Throw (ScoreNotFound agentId)
    else Return (emit (ScoreQueried agentId (sender m)) st, record).

(** ** Updates *)

Definition _assertRegistered (env : Env) (st : State) (agentId : uint256)
    : outcome Revert unit :=
  match ownerOf env (identityRegistry st) agentId with
  | Answers ownerAddress =>
      if ownerAddress =? zeroAddress then Throw (AgentNotRegistered agentId)
      else Return tt
  | Reverts => Throw (AgentNotRegistered agentId)
  | NotCallable => Throw NoReason
  end.

Definition _validateAndUpdate (env : Env) (st : State) (m : Msg)
    (agentId newScore totalFb posFb : uint256) : outcome Revert State :=
  if MAX_SCORE <? newScore then Throw (InvalidScore newScore)
  else if totalFb <? posFb then Throw (InvalidFeedbackCounts totalFb posFb)
  else
    registered <- _assertRegistered env st agentId ;;
    Return
      (emit (ScoreUpdated agentId newScore (timestamp m))
         (store agentId
            {| score := newScore;
               totalFeedback := totalFb;
               positiveFeedback := posFb;
               lastUpdated := timestamp m;
               exists_ := true |}
            st)).

Definition updateScore (env : Env) (st : State) (m : Msg)
    (agentId newScore totalFb posFb : uint256) : outcome Revert State :=
  nonpayable m
    (onlyUpdater st m (_validateAndUpdate env st m agentId newScore totalFb posFb)).

(** The [for] loop of [batchUpdateScores], from index [i], with [todo]
    iterations left. *)
Fixpoint batchLoop (env : Env) (m : Msg) (agentIds scores totals positives : list uint256)
    (todo i : nat) (st : State) : outcome Revert State :=
  match todo with
  | O => Return st
  | S todo' =>
      st' <- _validateAndUpdate env st m (nth i agentIds 0) (nth i scores 0)
               (nth i totals 0) (nth i positives 0) ;;
      batchLoop env m agentIds scores totals positives todo' (S i) st'
  end.

Definition batchUpdateScores (env : Env) (st : State) (m : Msg)
    (agentIds scores totals positives : list uint256) : outcome Revert State :=
  nonpayable m
    (onlyUpdater st m
       (let length := List.length agentIds in
        if negb (Nat.eqb length (List.length scores))
           || negb (Nat.eqb length (List.length totals))
           || negb (Nat.eqb length (List.length positives))
        then Throw ArrayLengthMismatch
        else batchLoop env m agentIds scores totals positives length 0 st)).

(** ** Administration *)

Definition setUpdater (st : State) (m : Msg) (newUpdater : address)
    : outcome Revert State :=
  nonpayable m
    (onlyOwner st m
       (if newUpdater =? zeroAddress then Throw ZeroAddress
        else Return (emit (UpdaterSet newUpdater) {|
          _owner := _owner st;
          _scores := _scores st;
          updater := newUpdater;
          queryFee := queryFee st;
          identityRegistry := identityRegistry st;
          balance := balance st;
          events := events st
        |}))).

Definition setFee (st : State) (m : Msg) (newFee : uint256) : outcome Revert State :=
  nonpayable m
    (onlyOwner st m
       (Return (emit (FeeSet newFee) {|
          _owner := _owner st;
          _scores := _scores st;
          updater := updater st;
          queryFee := newFee;
          identityRegistry := identityRegistry st;
          balance := balance st;
          events := events st
        |}))).

Definition setIdentityRegistry (st : State) (m : Msg) (newRegistry : address)
    : outcome Revert State :=
  nonpayable m
    (onlyOwner st m
       (if newRegistry =? zeroAddress then Throw ZeroAddress
        else Return (emit (IdentityRegistrySet newRegistry) {|
          _owner := _owner st;
          _scores := _scores st;
          updater := updater st;
          queryFee := queryFee st;
          identityRegistry := newRegistry;
          balance := balance st;
          events := events st
        |}))).

Definition withdraw (env : Env) (st : State) (m : Msg) : outcome Revert State :=
  nonpayable m
    (onlyOwner st m
       (let amount := balance st in
        if negb (accepts env (_owner st) amount) then Throw WithdrawFailed
        else Return (emit (Withdrawn (_owner st) amount) {|
          _owner := _owner st;
          _scores := _scores st;
          updater := updater st;
          queryFee := queryFee st;
          identityRegistry := identityRegistry st;
          balance := 0;
          events := events st
        |}))).

(** [_transferOwnership] of [Ownable]. *)
Definition _transferOwnership (st : State) (newOwner : address) : State :=
  emit (OwnershipTransferred (_owner st) newOwner) {|
    _owner := newOwner;
    _scores := _scores st;
    updater := updater st;
    queryFee := queryFee st;
    identityRegistry := identityRegistry st;
    balance := balance st;
    events := events st
  |}.

(** [transferOwnership] and [renounceOwnership], inherited from
    [Ownable]. *)
Definition transferOwnership (st : State) (m : Msg) (newOwner : address)
    : outcome Revert State :=
  nonpayable m
    (onlyOwner st m
       (if newOwner =? zeroAddress then Throw (OwnableInvalidOwner zeroAddress)
        else Return (_transferOwnership st newOwner))).

Definition renounceOwnership (st : State) (m : Msg) : outcome Revert State :=
  nonpayable m (onlyOwner st m (Return (_transferOwnership st zeroAddress))).

(** ** Transactions *)

(** The functions that may change the state. *)
Inductive Call : Type :=
| GetDetailedReportPaid (agentId : uint256)
| UpdateScore (agentId newScore totalFb posFb : uint256)
| BatchUpdateScores (agentIds scores totals positives : list uint256)
| SetUpdater (newUpdater : address)
| SetFee (newFee : uint256)
| SetIdentityRegistry (newRegistry : address)
| Withdraw
| TransferOwnership (newOwner : address)
| RenounceOwnership.

Definition run (env : Env) (st : State) (m : Msg) (call : Call) : outcome Revert State :=
  match call with
  | GetDetailedReportPaid agentId =>
      paid <- getDetailedReportPaid st m agentId ;; Return (fst paid)
  | UpdateScore agentId newScore totalFb posFb =>
      updateScore env st m agentId newScore totalFb posFb
  | BatchUpdateScores agentIds scores totals positives =>
      batchUpdateScores env st m agentIds scores totals positives
  | SetUpdater newUpdater => setUpdater st m newUpdater
  | SetFee newFee => setFee st m newFee
  | SetIdentityRegistry newRegistry => setIdentityRegistry st m newRegistry
  | Withdraw => withdraw env st m
  | TransferOwnership newOwner => transferOwnership st m newOwner
  | RenounceOwnership => renounceOwnership st m
  end.

(** A transaction: a call that reverts leaves the state as it was. *)
Definition transact (env : Env) (st : State) (m : Msg) (call : Call) : State :=
  match run env st m call with
  | Return st' => st'
  | Throw _ => st
  end.

End TrustScore.

(** ** States of the contract and batches *)

Module TrustScoreSpec.

Local Unset Implicit Arguments.

Import JS TrustScore.
Local Open Scope N_scope.

(** What holds of the storage in every state the contract can be in. *)
Record sound (st : State) : Prop := {
  updater_set : updater st <> zeroAddress;
  registry_set : identityRegistry st <> zeroAddress;
  records_valid :
    forall agentId,
      let record := _scores st agentId in
      if exists_ record
      then score record <= MAX_SCORE /\ positiveFeedback record <= totalFeedback record
      else record = noRecord
}.

(** The states the contract reaches: deployed by its constructor, then any
    transactions, from any senders, in any world. *)
Inductive reachable : State -> Prop :=
| deployed (m : Msg) (initialOwner identityRegistry_ updater_ : address)
    (queryFee_ : uint256) (st : State) :
    constructor m initialOwner identityRegistry_ updater_ queryFee_ = Return st ->
    reachable st
| stepped (env : Env) (st : State) (m : Msg) (call : Call) :
    reachable st -> reachable (transact env st m call).

(** One update of a batch. *)
Record Item : Type := {
  item_agentId : uint256;
  item_score : uint256;
  item_total : uint256;
  item_positive : uint256
}.

(** The four arrays of a batch, read by index. *)
Fixpoint items (agentIds scores totals positives : list uint256) : list Item :=
  match agentIds, scores, totals, positives with
  | a :: agentIds', s :: scores', t :: totals', p :: positives' =>
      {| item_agentId := a; item_score := s; item_total := t; item_positive := p |}
      :: items agentIds' scores' totals' positives'
  | _, _, _, _ => []
  end.

(** The updates made one transaction after the other by [updateScore], as
    long as none reverts. *)
Fixpoint oneByOne (env : Env) (m : Msg) (l : list Item) (st : State)
    : outcome Revert State :=
  match l with
  | [] => Return st
  | i :: rest =>
      st' <- updateScore env st m (item_agentId i) (item_score i) (item_total i)
               (item_positive i) ;;
      oneByOne env m rest st'
  end.

(** The last item of a batch that names an agent. *)
Definition lastFor (agentId : uint256) (l : list Item) : option Item :=
  find (fun i => item_agentId i =? agentId) (rev l).

End TrustScoreSpec.

Module TrustScoreFixtures.

Local Unset Implicit Arguments.

Import JS TrustScore.
Local Open Scope N_scope.

(** The accounts of the tests: owner 1, updater 2, another 3; the registry
    sits at 9 and knows the agents 1 and 2. *)
Definition testEnv : Env := {|
  ownerOf := fun registry agentId =>
    if registry =? 9 then
      if agentId =? 1 then Answers 1
      else if agentId =? 2 then Answers 3
      else Reverts
    else NotCallable;
  accepts := fun _ _ => true
|}.

Definition from (account : address) : Msg :=
  {| sender := account; value := 0; timestamp := 1770854400 |}.

Definition paying (account : address) (wei : uint256) : Msg :=
  {| sender := account; value := wei; timestamp := 1770854400 |}.

Definition fresh : State := {|
  _owner := 1;
  _scores := fun _ => noRecord;
  updater := 2;
  queryFee := 100;
  identityRegistry := 9;
  balance := 0;
  events := [OwnershipTransferred zeroAddress 1]
|}.

End TrustScoreFixtures.

(** ** Feedback logs in order *)

Module LogSpec.

Local Unset Implicit Arguments.

Import JS Indexer.
Local Open Scope Z_scope.

(** [a] does not come after [b]: an earlier block, or the same block and
    no later index. *)
Definition notAfter (a b : Log) : Prop :=
  blockNumber a < blockNumber b
  \/ (blockNumber a = blockNumber b /\ index a <= index b).

(** Two logs at one position. *)
Definition samePosition (a b : Log) : bool :=
  (blockNumber a =? blockNumber b) && (index a =? index b).

Definition sameKey (a b : Log) : bool :=
  String.eqb (feedbackDedupKey a) (feedbackDedupKey b).

(** The first log of [logs] that has the key of [log]. *)
Definition firstWithKey (log : Log) (logs : list Log) : option Log :=
  find (fun other => sameKey other log) logs.

End LogSpec.

(** ** The batches a cycle sends *)

Module BatchSpec.

Local Unset Implicit Arguments.

Import JS Indexer.
Local Open Scope Z_scope.

(** Four arrays of one length, every score within [[0, maxScore]] and, at
    every index, no more positive than total feedback. *)
Record wellShaped (maxScore : Z) (batch : Batch) : Prop := {
  scores_length : List.length (scores batch) = List.length (agentIds batch);
  totals_length : List.length (totals batch) = List.length (agentIds batch);
  positives_length : List.length (positives batch) = List.length (agentIds batch);
  scores_range : Forall (fun score => 0 <= score <= maxScore) (scores batch);
  counts_range :
    Forall2 (fun total positive => 0 <= positive <= total)
      (totals batch) (positives batch)
}.

(** The arguments of [batchUpdateScores] as ethers encodes them: each
    non-negative big integer as the [uint256] of its value. *)
Definition encode (numbers : list Z) : list TrustScore.uint256 := map Z.to_N numbers.

(** Items that pass every check of [_validateAndUpdate]. *)
Definition passes (chain : TrustScore.Env) (registry : TrustScore.address)
    (item : TrustScoreSpec.Item) : Prop :=
  (TrustScoreSpec.item_score item <= TrustScore.MAX_SCORE)%N
  /\ (TrustScoreSpec.item_positive item <= TrustScoreSpec.item_total item)%N
  /\ exists a, TrustScore.ownerOf chain registry (TrustScoreSpec.item_agentId item)
               = TrustScore.Answers a
               /\ a <> TrustScore.zeroAddress.

End BatchSpec.

(** ** The first cycle of the overflow scenario *)

Module CycleRunFixtures.

Local Unset Implicit Arguments.

Import JS Indexer.
Local Open Scope string_scope.
Local Open Scope Z_scope.

(** What the first cycle reports. *)
Definition firstResult : CycleResult := {|
  fromBlock := 1;
  latestBlock := 10;
  newEventCount := 2;
  dirtyAgentCount := 2;
  processedAgentCount := 1;
  queuedAgentCount := 1;
  processedAgentIds := ["3"];
  queuedAgentIds := ["7"];
  txHashes := ["0xfeed"]
|}.

(** The batch it sends. *)
Definition firstBatch : Batch :=
  {| agentIds := [3]; scores := [1000]; totals := [1]; positives := [1] |}.

(** The configuration it runs with. *)
Definition firstConfig : IndexerConfig := {|
  startBlock := 0;
  maxBatchSize := 1;
  scoringConfig := Scoring.DEFAULT_SCORING_CONFIG
|}.

(** A registry in which account 1 owns every agent. *)
Definition openRegistry : TrustScore.Env := {|
  TrustScore.ownerOf := fun _ _ => TrustScore.Answers 1%N;
  TrustScore.accepts := fun _ _ => true
|}.


End CycleRunFixtures.

(* ------------------------------------------------------------------ *)
(** * server/indexer.js: retries *)
(* ------------------------------------------------------------------ *)

Module Backoff.

Local Unset Implicit Arguments.

Import JS Indexer.
Local Open Scope Z_scope.

Definition DEFAULT_BACKOFF_START_MS : Z := 1000.
Definition DEFAULT_BACKOFF_MAX_MS : Z := 60000.

(** What an operation throws: an error object, or [None] for a falsy
    value. *)
Definition Raised : Type := option ErrorObject.

(** The [options] of [withExponentialBackoff]; an absent [isRetryable] is
    [isRpcError]. *)
Record Options : Type := {
  initialDelayMs : value;
  maxDelayMs : value;
  maxRetries : value;
  isRetryable : option (Raised -> bool)
}.

(** The argument of [onRetry], which is called just before the sleep of
    [delayMs] milliseconds. *)
Record Retry : Type := {
  attempts : Z;
  delayMs : Z;
  error : Raised
}.

(** The retries made so far and, once the call has settled, how. *)
Record Settled (A : Type) : Type := {
  result : outcome Raised A;
  retries : list Retry
}.

Arguments result {A} _.
Arguments retries {A} _.

Section Builtins.

Variable StringToNumber : string -> option Q.

(** [Infinity] is [None]. *)
Definition retryLimit (options : Options) : option Z :=
  match maxRetries options with
  | Undefined => None
  | given =>
      match Number StringToNumber given with
      | Some parsed =>
          if Number_isInteger parsed && Qleb 0 parsed then Some (Qfloor parsed) else None
      | None => None
      end
  end.

(** The [while (true)] loop. [operation k] is what the [k]-th call of the
    operation comes to, counted from 0; the loop calls it once per
    iteration, so the count of calls is the value of [attempts]. [fuel]
    bounds the iterations: [None] is a loop that is still retrying. *)
Fixpoint retryLoop {A} (fuel : nat) (operation : nat -> outcome Raised A)
    (retryable : Raised -> bool) (limit : option Z) (maxDelay : Z)
    (calls : nat) (delay : Z) (done : list Retry) : option (Settled A) :=
  match fuel with
  | O => None
  | S fuel' =>
      match operation calls with
      | Return a => Some {| result := Return a; retries := done |}
      | Throw thrown =>
          if negb (retryable thrown)
          then Some {| result := Throw thrown; retries := done |}
          else if match limit with
                  | Some n => n <=? Z.of_nat calls
                  | None => false
                  end
          then Some {| result := Throw thrown; retries := done |}
          else
            retryLoop fuel' operation retryable limit maxDelay (S calls)
              (Z.min (delay * 2) maxDelay)
              (done ++ [{| attempts := Z.of_nat calls + 1;
                           delayMs := delay;
                           error := thrown |}])
      end
  end.

Definition withExponentialBackoff {A} (fuel : nat) (operation : nat -> outcome Raised A)
    (options : Options) : option (Settled A) :=
  let initialDelayMs :=
    toPositiveInt StringToNumber (initialDelayMs options) DEFAULT_BACKOFF_START_MS in
  let maxDelayMs :=
    toPositiveInt StringToNumber (maxDelayMs options) DEFAULT_BACKOFF_MAX_MS in
  let retryable :=
    match isRetryable options with
    | Some test => test
    | None => isRpcError
    end in
  retryLoop fuel operation retryable (retryLimit options) maxDelayMs 0 initialDelayMs [].

End Builtins.

End Backoff.

Module BackoffSpec.

Local Unset Implicit Arguments.

Import JS Indexer Backoff.
Local Open Scope Z_scope.

(** The sleep before the retry number [i + 1]: the initial delay, then
    doubled at every retry and capped. *)
Definition delayBefore (initial maxDelay : Z) (i : nat) : Z :=
  match i with
  | O => initial
  | S _ => Z.min (initial * 2 ^ Z.of_nat i) maxDelay
  end.

(** The retries after [n] failed calls. *)
Definition retriesOf {A} (operation : nat -> outcome Raised A) (initial maxDelay : Z)
    (n : nat) : list Retry :=
  map (fun i => {| attempts := Z.of_nat i + 1;
                   delayMs := delayBefore initial maxDelay i;
                   error := match operation i with
                            | Throw thrown => thrown
                            | Return _ => None
                            end |})
    (seq 0 n).

(** A call that throws an error the test accepts. *)
Definition failsRetryably {A} (operation : nat -> outcome Raised A)
    (retryable : Raised -> bool) (i : nat) : Prop :=
  exists thrown, operation i = Throw thrown /\ retryable thrown = true.

(** A call that returns, or throws an error the test rejects. *)
Definition final {A} (retryable : Raised -> bool) (r : outcome Raised A) : Prop :=
  match r with
  | Return _ => True
  | Throw thrown => retryable thrown = false
  end.

(** The test and the two delays [withExponentialBackoff] computes with. *)
Definition testOf (options : Options) : Raised -> bool :=
  match isRetryable options with
  | Some test => test
  | None => isRpcError
  end.

End BackoffSpec.

Module BackoffFixtures.

Local Unset Implicit Arguments.

Import JS Indexer Backoff.
Local Open Scope Z_scope.

(** The options [runIndexerCycle] passes: the two delays of the
    configuration, no limit, [isRpcError]. *)
Definition cycleOptions : Options := {|
  initialDelayMs := Num (Some 1000%Q);
  maxDelayMs := Num (Some 60000%Q);
  maxRetries := Undefined;
  isRetryable := Some isRpcError
|}.

(** Three rate-limit errors, then the block number. *)
Definition flaky (k : nat) : outcome Raised Z :=
  if (k <? 3)%nat
  then Throw (Some (MkError (CodeNumber (-32005)) "rate limit" "" Absent Absent))
  else Return 10.

End BackoffFixtures.

(** ** Feedback collected from logs *)

Module CollectSpec.

Local Unset Implicit Arguments.

Import JS Indexer.
Local Open Scope Z_scope.

(** Every time stamp in the cache is that of its block, in milliseconds. *)
Definition agrees (env : Env) (cache : Cache) : Prop :=
  forall block ms,
    Map_get cache block = Some ms ->
    exists seconds, getBlock env block = Return (Some seconds) /\ ms = (seconds * 1000)%Q.

(** The entry made of a log whose block is stamped [seconds]. *)
Definition entryOf (log : Log) (seconds : Q) : Scoring.Feedback := {|
  Scoring.timestamp := Num (Some (seconds * 1000)%Q);
  Scoring.createdAt := Undefined;
  Scoring.time := Undefined;
  Scoring.isPositive := Bool (0 <? args_value log);
  Scoring.sentiment := Undefined;
  Scoring.rating := Undefined
|}.

(** [entry] is the entry of [log], with the time stamp of its block. *)
Definition collectedFrom (env : Env) (log : Log) (entry : Scoring.Feedback) : Prop :=
  exists seconds,
    getBlock env (blockNumber log) = Return (Some seconds)
    /\ entry = entryOf log seconds.


End CollectSpec.

(** ** Decimal numerals *)

Module ValidationSpec.

Local Unset Implicit Arguments.

(** [k] times the digit 0. *)
Fixpoint zeros (k : nat) : string :=
  match k with
  | O => EmptyString
  | S k' => String "0"%char (zeros k')
  end.

End ValidationSpec.

(** ** Envelopes *)

Module EnvelopeSpec.

Local Unset Implicit Arguments.

Import JS Types Fallbacks Client.
Local Open Scope Q_scope.

(** What every envelope of [queryTrust] satisfies. *)
Record coherent (env : Envelope) : Prop := {
  ok_has_no_fallback : status env = OK <-> fallback env = None;
  error_names_fallback : option_map info_code (error env) = fallback env;
  error_has_no_data :
    status env = ERROR ->
    data env = None
    /\ (fallback env = Some INVALID_AGENT_ID \/ fallback env = Some AGENT_NOT_FOUND);
  no_data_no_score :
    data env = None ->
    score env = None /\ confidence env = None /\ fallback env <> None;
  score_nonnegative : forall s, score env = Some s -> 0 <= s;
  confidence_in_range : forall c, confidence env = Some c -> 0 <= c <= 1;
  recommendation_follows : recommendation env = resolveRecommendation (verdict env);
  proceed_needs_score :
    recommendation env = PROCEED -> exists s, score env = Some s /\ 700 < s;
  abort_needs_score :
    recommendation env = ABORT -> exists s, score env = Some s /\ s < 400
}.

(** The order in which sources are tried. *)
Definition rank (source : SOURCE) : nat :=
  match source with
  | API_PAID => 0
  | API_DEMO => 1
  | TRUSTSCORE_CONTRACT => 2
  end.

Definition earlier (a b : SOURCE) : Prop := (rank a < rank b)%nat.

(** The mode a query is resolved with: the one asked for, or the default
    of the configuration when none or the empty text is asked for. *)
Definition modeOf (requestedMode : option string) (config : AgentKitConfig) : string :=
  match requestedMode with
  | Some m => if String.eqb m "" then defaultMode config else m
  | None => defaultMode config
  end.

Definition demoAllowed (config : AgentKitConfig) (overrides : QueryOptions) : bool :=
  match opt_allowDemoFallback overrides with
  | Some b => b
  | None => allowDemoFallback config
  end.

Definition onchainAllowed (config : AgentKitConfig) (overrides : QueryOptions) : bool :=
  match opt_allowOnchainFallback overrides with
  | Some b => b
  | None => allowOnchainFallback config
  end.

(** The correlation identifier of a query. *)
Definition correlationOf (world : World) (options : QueryOptions) : string :=
  match opt_correlationId options with
  | Some c => if String.eqb c "" then randomUUID world else c
  | None => randomUUID world
  end.

(** The address [queryApi] asks. *)
Definition urlOf (config : AgentKitConfig) (kind : Kind) (agentId : string)
    (source : SOURCE) : string :=
  (baseUrl config
   ++ match kind with KindScore => "/score/" | KindReport => "/report/" end
   ++ agentId
   ++ match source with API_DEMO => "?demo=true" | _ => "" end)%string.

(** The fetcher [requestJson] uses for a source of the API. *)
Definition fetcherOf (world : World) (source : SOURCE)
    : outcome JsError (string -> HttpOutcome) :=
  match source with
  | API_PAID => paidFetch world
  | _ => Return (fetchImpl world)
  end.

(** The text of an error reply: [body.error || body.details || body.message],
    the empty text when there is none. *)
Definition replyText (body : Body) : string :=
  if negb (String.eqb (body_error body) "") then body_error body
  else if negb (String.eqb (body_details body) "") then body_details body
  else body_message body.

(** The three risk factors, in the order they are pushed. *)
Definition riskOrder : list string :=
  ["low_feedback_volume"; "high_negative_feedback_ratio"; "low_trust_score"]%string.

Inductive sublist {A : Type} : list A -> list A -> Prop :=
| sublist_nil : sublist [] []
| sublist_skip (x : A) (l m : list A) : sublist l m -> sublist l (x :: m)
| sublist_keep (x : A) (l m : list A) : sublist l m -> sublist (x :: l) (x :: m).

End EnvelopeSpec.

(** ** Setting up the paying fetcher *)

Module ClientSetup.

Local Unset Implicit Arguments.

Import JS Types Fallbacks Client.
Local Open Scope string_scope.

(** [createPaidFetch]. [privateKey] is [config.x402.privateKey], [None]
    for [null] or [undefined]; [wrapped] is what [wrapFetchWithPayment]
    makes of the fetcher and the wallet client. *)
Definition createPaidFetch (privateKey : option string)
    (wrapped : string -> HttpOutcome) : outcome JsError (string -> HttpOutcome) :=
  let missing :=
    {| name := "Error"; code := Undefined; statusCode := Some 402%Z;
       message := "AGENTKIT_X402_PRIVATE_KEY is required for api_paid mode";
       shortMessage := "" |} in
  match privateKey with
  | Some key => if String.eqb key "" then Throw missing else Return wrapped
  | None => Throw missing
  end.

End ClientSetup.

(** ** More worlds of the client tests *)

Module EnvelopeFixtures.

Local Unset Implicit Arguments.

Import JS Types Fallbacks Client.
Local Open Scope string_scope.

(** Both APIs answer 500 and the contract call reverts. *)
Definition allDown : World := {|
  fetchImpl := fun _ => Responded 500 ClientFixtures.explodedBody;
  paidFetch := Return (fun _ => Responded 500 ClientFixtures.explodedBody);
  getDetailedReport := fun _ =>
    Throw {| name := "Error"; code := Str "CALL_EXCEPTION"; statusCode := None;
             message := "execution reverted"; shortMessage := "" |};
  randomUUID := "00000000-0000-4000-8000-000000000000"
|}.

(** No private key is configured; the demo API and the contract answer. *)
Definition keyless : World := {|
  fetchImpl := fun _ => Responded 200 ClientFixtures.emptyBody;
  paidFetch :=
    ClientSetup.createPaidFetch None (fun _ => Responded 200 ClientFixtures.emptyBody);
  getDetailedReport := fun _ => Return ClientFixtures.goodRecord;
  randomUUID := "00000000-0000-4000-8000-000000000000"
|}.

End EnvelopeFixtures.

(** ** Counting feedback *)

Module TallySpec.

Local Unset Implicit Arguments.

Import JS Scoring.
Local Open Scope Q_scope.





End TallySpec.

(* ------------------------------------------------------------------ *)
(** * src/agentkit/config.js *)
(* ------------------------------------------------------------------ *)

Module AgentKitConfigFile.

Local Unset Implicit Arguments.

Import JS Types Client.
Local Open Scope string_scope.
Local Open Scope Q_scope.

Definition DEFAULT_TRUST_SCORE_ADDRESS : string :=
  "0xa770C9232811bc551C19Dc41B36c7FFccE856e84".

(** The variables of the environment the loader reads; [None] is a
    variable that is not set. [AGENTKIT_FIXTURES_PATH], which is resolved
    against the working directory, is left out. *)
Record ProcessEnv : Type := {
  AGENTKIT_TRUST_BASE_URL : option string;
  TRUST_ORACLE_BASE_URL : option string;
  AGENTKIT_RPC_URL : option string;
  BASE_MAINNET_RPC_URL : option string;
  AGENTKIT_TRUST_SCORE_ADDRESS : option string;
  TRUST_SCORE_ADDRESS : option string;
  AGENTKIT_DEFAULT_MODE : option string;
  AGENTKIT_ALLOW_DEMO_FALLBACK : option string;
  AGENTKIT_ALLOW_ONCHAIN_FALLBACK : option string;
  AGENTKIT_TIMEOUT_MS : option string;
  AGENTKIT_CONFIDENCE_THRESHOLD_FEEDBACK_COUNT : option string;
  AGENTKIT_NEGATIVE_FLAG_THRESHOLD_BPS : option string;
  AGENTKIT_X402_PRIVATE_KEY : option string;
  X402_TEST_PRIVATE_KEY : option string;
  PRIVATE_KEY : option string;
  AGENTKIT_X402_MAX_PAYMENT_ATOMIC : option string;
  X402_MAX_PAYMENT_ATOMIC : option string;
  AGENTKIT_DEMO_DELAY_MS : option string
}.

(** [a || b] on variables of the environment. *)
Definition orVar (a b : option string) : option string :=
  match a with
  | Some s => if String.eqb s "" then b else a
  | None => b
  end.

(** [String(value || fallback)]. *)
Definition textOr (value : option string) (fallback : string) : string :=
  match value with
  | Some s => if String.eqb s "" then fallback else s
  | None => fallback
  end.

(** [text.replace(/\/+$/, "")]. *)
Fixpoint stripTrailingSlashes (s : string) : string :=
  match s with
  | EmptyString => EmptyString
  | String c r =>
      match stripTrailingSlashes r with
      | EmptyString => if Ascii.eqb c "/" then EmptyString else String c EmptyString
      | r' => String c r'
      end
  end.

(** The argument is a variable of the environment, never a boolean. *)
Definition toBoolean (value : option string) (fallback : bool) : bool :=
  let normalized := toLowerCase (trim (textOr value "")) in
  if existsb (String.eqb normalized) ["1"; "true"; "yes"; "on"] then true
  else if existsb (String.eqb normalized) ["0"; "false"; "no"; "off"] then false
  else fallback.

Definition normalizePrivateKey (value : option string) : string :=
  let trimmed := trim (textOr value "") in
  if String.eqb trimmed "" then ""
  else if String.prefix "0x" trimmed then trimmed
  else "0x" ++ trimmed.

Definition normalizeMode (rawMode : option string) : SOURCE :=
  let normalized := toLowerCase (trim (textOr rawMode "")) in
  if String.eqb normalized (SOURCE_text API_DEMO) then API_DEMO
  else if String.eqb normalized (SOURCE_text TRUSTSCORE_CONTRACT) then TRUSTSCORE_CONTRACT
  else API_PAID.

(** The conversion of a numeral to [BigInt] cannot fail: the last branch is
    never taken. *)
Definition parseAtomicAmount (value : option string) (fallback : Z) : Z :=
  let raw := trim (textOr value "") in
  if String.eqb raw "" then fallback
  else if negb (BigIntText.all_decimal_digits raw) then fallback
  else match BigIntText.StringToBigInt raw with
       | Some amount => amount
       | None => fallback
       end.

Section Builtins.

Variable StringToNumber : string -> option Q.

Definition toPositiveInt (value : option string) (fallback : Q) : Q :=
  match Number StringToNumber (match value with Some s => Str s | None => Undefined end) with
  | Some parsed => if Number_isInteger parsed && Qltb 0 parsed then parsed else fallback
  | None => fallback
  end.

(** What [loadAgentKitConfig] returns: the settings the client reads, and
    beside them the other fields of the object. *)
Record Loaded : Type := {
  settings : AgentKitConfig;
  timeoutMs : Q;
  rpcUrl : string;
  trustScoreAddress : string;
  x402_privateKey : string;
  x402_maxPaymentAtomic : Z;
  demoDelayMs : Q
}.

Definition loadAgentKitConfig (env : ProcessEnv) : Loaded := {|
  settings := {|
    baseUrl :=
      stripTrailingSlashes
        (trim (textOr (orVar (AGENTKIT_TRUST_BASE_URL env) (TRUST_ORACLE_BASE_URL env))
                 "https://robomoustach.io"));
    defaultMode :=
      SOURCE_text
        (normalizeMode (Some (textOr (AGENTKIT_DEFAULT_MODE env) (SOURCE_text API_PAID))));
    allowDemoFallback := toBoolean (AGENTKIT_ALLOW_DEMO_FALLBACK env) true;
    allowOnchainFallback := toBoolean (AGENTKIT_ALLOW_ONCHAIN_FALLBACK env) true;
    confidenceThresholdFeedbackCount :=
      toPositiveInt (AGENTKIT_CONFIDENCE_THRESHOLD_FEEDBACK_COUNT env) 50;
    negativeFlagThresholdBps :=
      toPositiveInt (AGENTKIT_NEGATIVE_FLAG_THRESHOLD_BPS env) 2000
  |};
  timeoutMs := toPositiveInt (AGENTKIT_TIMEOUT_MS env) 8000;
  rpcUrl :=
    trim (textOr (orVar (AGENTKIT_RPC_URL env) (BASE_MAINNET_RPC_URL env))
            "https://mainnet.base.org");
  trustScoreAddress :=
    trim (textOr (orVar (AGENTKIT_TRUST_SCORE_ADDRESS env) (TRUST_SCORE_ADDRESS env))
            DEFAULT_TRUST_SCORE_ADDRESS);
  x402_privateKey :=
    normalizePrivateKey
      (orVar (AGENTKIT_X402_PRIVATE_KEY env)
         (orVar (X402_TEST_PRIVATE_KEY env) (PRIVATE_KEY env)));
  x402_maxPaymentAtomic :=
    parseAtomicAmount
      (orVar (AGENTKIT_X402_MAX_PAYMENT_ATOMIC env) (X402_MAX_PAYMENT_ATOMIC env)) 20000;
  demoDelayMs := toPositiveInt (AGENTKIT_DEMO_DELAY_MS env) 500
|}.

End Builtins.

End AgentKitConfigFile.

Module AgentKitConfigSpec.

Local Unset Implicit Arguments.

Import JS AgentKitConfigFile.




(** An environment in which no variable is set. *)
Definition bareEnv : ProcessEnv := {|
  AGENTKIT_TRUST_BASE_URL := None;
  TRUST_ORACLE_BASE_URL := None;
  AGENTKIT_RPC_URL := None;
  BASE_MAINNET_RPC_URL := None;
  AGENTKIT_TRUST_SCORE_ADDRESS := None;
  TRUST_SCORE_ADDRESS := None;
  AGENTKIT_DEFAULT_MODE := None;
  AGENTKIT_ALLOW_DEMO_FALLBACK := None;
  AGENTKIT_ALLOW_ONCHAIN_FALLBACK := None;
  AGENTKIT_TIMEOUT_MS := None;
  AGENTKIT_CONFIDENCE_THRESHOLD_FEEDBACK_COUNT := None;
  AGENTKIT_NEGATIVE_FLAG_THRESHOLD_BPS := None;
  AGENTKIT_X402_PRIVATE_KEY := None;
  X402_TEST_PRIVATE_KEY := None;
  PRIVATE_KEY := None;
  AGENTKIT_X402_MAX_PAYMENT_ATOMIC := None;
  X402_MAX_PAYMENT_ATOMIC := None;
  AGENTKIT_DEMO_DELAY_MS := None
|}.

End AgentKitConfigSpec.

(* ================================================================== *)
(** * Properties *)
(* ================================================================== *)

(* ------------------------------------------------------------------ *)
(** * Facts about the built-ins *)
(* ------------------------------------------------------------------ *)

Module JSFacts.

Import JS.
Local Open Scope Q_scope.

Lemma Qleb_true (x y : Q) : Qleb x y = true <-> x <= y.
Proof. apply Qle_bool_iff. Qed.

Lemma Qleb_false (x y : Q) : Qleb x y = false <-> y < x.
Proof.
  unfold Qleb. split; intro H.
  - apply Qnot_le_lt. intro C. apply Qle_bool_iff in C. congruence.
  - destruct (Qle_bool x y) eqn:E; [|reflexivity].
    apply Qle_bool_iff in E. exfalso. apply (Qlt_not_le _ _ H E).
Qed.

Lemma Qltb_true (x y : Q) : Qltb x y = true <-> x < y.
Proof.
  unfold Qltb. rewrite negb_true_iff. apply (Qleb_false y x).
Qed.

Lemma Qltb_false (x y : Q) : Qltb x y = false <-> y <= x.
Proof.
  unfold Qltb. rewrite negb_false_iff. apply (Qleb_true y x).
Qed.

Lemma isInteger_spec (x : Q) : Number_isInteger x = true <-> inject_Z (Qfloor x) == x.
Proof. unfold Number_isInteger. apply Qeq_bool_iff. Qed.

Lemma Math_round_mono (x y : Q) : x <= y -> (Math_round x <= Math_round y)%Z.
Proof.
  intro H. unfold Math_round. apply Qfloor_resp_le. lra.
Qed.

Lemma Math_round_Z (n : Z) : Math_round (inject_Z n) = n.
Proof.
  unfold Math_round.
  assert (L : (n <= Qfloor (inject_Z n + (1 # 2)))%Z).
  { rewrite <- (Qfloor_Z n) at 1. apply Qfloor_resp_le. lra. }
  assert (U : (Qfloor (inject_Z n + (1 # 2)) < n + 1)%Z).
  { rewrite Zlt_Qlt. eapply Qle_lt_trans; [apply Qfloor_le|].
    rewrite inject_Z_plus. change (inject_Z 1) with 1. lra. }
  lia.
Qed.

Lemma Math_round_between (x : Q) (lo hi : Z) :
  inject_Z lo <= x -> x <= inject_Z hi -> (lo <= Math_round x <= hi)%Z.
Proof.
  intros L U. split.
  - rewrite <- (Math_round_Z lo). now apply Math_round_mono.
  - rewrite <- (Math_round_Z hi). now apply Math_round_mono.
Qed.

Lemma max_cases (x y : Q) : (y <= x /\ Math_max x y == x) \/ (x <= y /\ Math_max x y == y).
Proof.
  unfold Math_max. destruct (Q.max_spec x y) as [[H E]|[H E]].
  - right. split; [lra | exact E].
  - left. split; [lra | exact E].
Qed.

Lemma min_cases (x y : Q) : (x <= y /\ Math_min x y == x) \/ (y <= x /\ Math_min x y == y).
Proof.
  unfold Math_min. destruct (Q.min_spec x y) as [[H E]|[H E]].
  - left. split; [lra | exact E].
  - right. split; [lra | exact E].
Qed.

End JSFacts.

(* ------------------------------------------------------------------ *)
(** * The scoring engine *)
(* ------------------------------------------------------------------ *)

Module ScoringProps.

Import JS Scoring ScoringSpec JSFacts.
Local Open Scope Q_scope.

Lemma clamp_between (value lo hi : Q) :
  lo <= hi -> lo <= clamp value lo hi /\ clamp value lo hi <= hi.
Proof.
  intro H. unfold clamp.
  destruct (max_cases lo value) as [[A EA]|[A EA]];
    destruct (min_cases hi (Math_max lo value)) as [[B EB]|[B EB]];
    rewrite EB in *; try rewrite EA in *; split; lra.
Qed.


(** Rounded and clamped projections stay within [[0, maxScore]]. *)
Lemma projection_bounds (raw : Q) (m : Z) :
  (0 <= m)%Z -> (0 <= Math_round (clamp raw 0 (inject_Z m)) <= m)%Z.
Proof.
  intro Hm.
  assert (H0 : 0 <= inject_Z m) by (change 0 with (inject_Z 0); rewrite <- Zle_Qle; exact Hm).
  destruct (clamp_between raw H0) as [L U].
  apply Math_round_between; [exact L | exact U].
Qed.


Lemma acc0_ok : acc_ok acc0.
Proof. constructor; simpl; try lra; try lia. Qed.

Section Builtins.

Variable StringToNumber : string -> option Q.
Variable Date_parse : string -> option Q.

Lemma integer_positive (x : Q) :
  Number_isInteger x && Qltb 0 x = true -> (0 < Qfloor x)%Z.
Proof.
  rewrite andb_true_iff, isInteger_spec, Qltb_true. intros [E P].
  rewrite Zlt_Qlt, E. exact P.
Qed.

Lemma toPositiveInt_pos (v : value) (fallback : Z) :
  (0 < fallback)%Z -> (0 < toPositiveInt StringToNumber v fallback)%Z.
Proof.
  intro H. unfold toPositiveInt.
  destruct (Number StringToNumber v) as [parsed|]; [|exact H].
  destruct (Number_isInteger parsed && Qltb 0 parsed) eqn:E; [|exact H].
  now apply integer_positive.
Qed.

Lemma toPositiveNumber_pos (v : value) (fallback : Q) :
  0 < fallback -> 0 < toPositiveNumber StringToNumber v fallback.
Proof.
  intro H. unfold toPositiveNumber.
  destruct (Number StringToNumber v) as [parsed|]; [|exact H].
  destruct (Qltb 0 parsed) eqn:E; [|exact H].
  now apply Qltb_true.
Qed.

Lemma toBps_range (v : value) (fallback : Z) :
  (0 <= fallback <= 10000)%Z -> (0 <= toBps StringToNumber v fallback <= 10000)%Z.
Proof.
  intro H. unfold toBps.
  destruct (Number StringToNumber v) as [parsed|]; [|exact H].
  destruct (Number_isInteger parsed); simpl; [|exact H].
  destruct (Qltb parsed 0) eqn:N; [lia|].
  destruct (Qltb 10000 parsed) eqn:B; [lia|].
  apply Qltb_false in N, B.
  change 0%Z with (Qfloor 0). change 10000%Z with (Qfloor 10000).
  split; apply Qfloor_resp_le; assumption.
Qed.

Lemma normalizeConfig_normalized (input : ConfigInput) :
  normalized (normalizeConfig StringToNumber input).
Proof.
  constructor; simpl;
    first [ apply toPositiveInt_pos; reflexivity
          | apply toPositiveNumber_pos; reflexivity
          | apply toBps_range; simpl; lia ].
Qed.

Lemma toPositiveInt_integer (z fallback : Z) :
  (0 < z)%Z -> toPositiveInt StringToNumber (Num (Some (inject_Z z))) fallback = z.
Proof.
  intro H. unfold toPositiveInt. cbn [Number].
  assert (I : Number_isInteger (inject_Z z) = true)
    by (apply isInteger_spec; now rewrite Qfloor_Z).
  assert (P : Qltb 0 (inject_Z z) = true).
  { apply Qltb_true. change 0 with (inject_Z 0). now rewrite <- Zlt_Qlt. }
  now rewrite I, P, Qfloor_Z.
Qed.

Lemma toPositiveNumber_positive (q fallback : Q) :
  0 < q -> toPositiveNumber StringToNumber (Num (Some q)) fallback = q.
Proof.
  intro H. unfold toPositiveNumber. cbn [Number]. apply Qltb_true in H. now rewrite H.
Qed.

Lemma toBps_inside (z fallback : Z) :
  (0 <= z <= 10000)%Z -> toBps StringToNumber (Num (Some (inject_Z z))) fallback = z.
Proof.
  intros [L U]. unfold toBps. cbn [Number].
  assert (I : Number_isInteger (inject_Z z) = true)
    by (apply isInteger_spec; now rewrite Qfloor_Z).
  assert (N : Qltb (inject_Z z) 0 = false).
  { apply Qltb_false. change 0 with (inject_Z 0). now rewrite <- Zle_Qle. }
  assert (B : Qltb 10000 (inject_Z z) = false).
  { apply Qltb_false. change 10000 with (inject_Z 10000). now rewrite <- Zle_Qle. }
  rewrite I. cbn [negb]. now rewrite N, B, Qfloor_Z.
Qed.

(** Normalising a normalised configuration again, as the indexer does,
    changes nothing. *)
Lemma normalizeConfig_asInput (cfg : Config) :
  normalized cfg -> normalizeConfig StringToNumber (asInput cfg) = cfg.
Proof.
  intros []. destruct cfg.
  cbn [decayWindowDays recentFeedbackWeight olderFeedbackWeight
       confidenceThresholdFeedbackCount confidenceMultiplier negativeFlagThresholdBps
       recentNegativeWindowDays flaggedScoreMultiplier maxScore] in *.
  unfold normalizeConfig, asInput.
  cbn [in_decayWindowDays in_recentFeedbackWeight in_olderFeedbackWeight
       in_confidenceThresholdFeedbackCount in_confidenceMultiplier
       in_negativeFlagThresholdBps in_recentNegativeWindowDays
       in_flaggedScoreMultiplier in_maxScore
       decayWindowDays recentFeedbackWeight olderFeedbackWeight
       confidenceThresholdFeedbackCount confidenceMultiplier negativeFlagThresholdBps
       recentNegativeWindowDays flaggedScoreMultiplier maxScore].
  f_equal;
    first [ apply toPositiveInt_integer | apply toPositiveNumber_positive
          | apply toBps_inside ]; assumption.
Qed.

Lemma accumulate_ok (cfg : Config) (cd cn : Q) (acc acc' : Acc) (f : Feedback) :
  normalized cfg -> acc_ok acc ->
  accumulate Date_parse cfg cd cn acc f = Return acc' -> acc_ok acc'.
Proof.
  intros C A. unfold accumulate.
  destruct (parseFeedbackTimestampMs Date_parse f) as [t|]; simpl; [|discriminate].
  destruct (parseFeedbackSentiment f) as [p|]; simpl; [|discriminate].
  intro E. injection E as <-.
  pose proof (recentWeight_pos C). pose proof (olderWeight_pos C).
  destruct A. 
  constructor; simpl;
    destruct p; destruct (Qleb cd t); destruct (Qleb cn t); simpl;
    try lra; try lia; intros; try lia; lra.
Qed.

Lemma accumulateAll_ok (cfg : Config) (cd cn : Q) (fs : list Feedback) :
  forall acc acc',
  normalized cfg -> acc_ok acc ->
  accumulateAll Date_parse cfg cd cn acc fs = Return acc' -> acc_ok acc'.
Proof.
  induction fs as [|f fs IH]; simpl; intros acc acc' C A E.
  - now injection E as <-.
  - destruct (accumulate Date_parse cfg cd cn acc f) as [a|] eqn:Ea; simpl in E;
      [|discriminate].
    apply (IH a acc' C); [eapply accumulate_ok; eassumption | exact E].
Qed.


Lemma finish_bounds (cfg : Config) (acc : Acc) :
  (0 < maxScore cfg)%Z ->
  let r := finish cfg acc in
  (0 <= score r <= maxScore cfg)%Z
  /\ (0 <= baseScore r <= maxScore cfg)%Z
  /\ (0 <= confidenceAdjustedScore r <= maxScore cfg)%Z.
Proof.
  intro M. unfold finish.
  destruct (Qeq_bool (acc_weightedTotal acc) 0); simpl.
  - lia.
  - repeat split; apply projection_bounds; lia.
Qed.



(** ** Flagging *)

Lemma finish_flagged_iff (cfg : Config) (acc : Acc) :
  let r := finish cfg acc in
  flagged r = true <->
  (0 < recentFeedbackCount r)%Z /\ (negativeFlagThresholdBps cfg < recentNegativeRateBps r)%Z.
Proof.
  unfold finish.
  destruct (Qeq_bool (acc_weightedTotal acc) 0); simpl.
  - split; [discriminate | lia].
  - rewrite andb_true_iff, Z.ltb_lt, Z.ltb_lt. reflexivity.
Qed.

Lemma ratio_le_one (n d : Z) :
  (0 <= n <= d)%Z -> (0 < d)%Z -> 0 <= inject_Z n / inject_Z d /\ inject_Z n / inject_Z d <= 1.
Proof.
  intros [N0 ND] D.
  assert (Dq : 0 < inject_Z d) by (change 0 with (inject_Z 0); rewrite <- Zlt_Qlt; exact D).
  assert (Nq : 0 <= inject_Z n) by (change 0 with (inject_Z 0); rewrite <- Zle_Qle; exact N0).
  assert (NDq : inject_Z n <= inject_Z d) by (rewrite <- Zle_Qle; exact ND).
  split.
  - apply Qle_shift_div_l; [exact Dq | lra].
  - apply Qle_shift_div_r; [exact Dq | lra].
Qed.

Lemma finish_rate_range (cfg : Config) (acc : Acc) :
  acc_ok acc -> (0 <= recentNegativeRateBps (finish cfg acc) <= 10000)%Z.
Proof.
  intro A. unfold finish.
  destruct (Qeq_bool (acc_weightedTotal acc) 0); simpl; [lia|].
  destruct (acc_recentFeedbackCount acc =? 0)%Z eqn:E; [lia|].
  apply Z.eqb_neq in E.
  destruct (@ratio_le_one (acc_recentNegativeCount acc) (acc_recentFeedbackCount acc))
    as [L U].
  { split; [apply A | apply A]. }
  { pose proof (neg_nonneg A). pose proof (neg_le_recent A). lia. }
  apply Math_round_between.
  - change (inject_Z 0) with 0. nra.
  - change (inject_Z 10000) with 10000. nra.
Qed.

Lemma toBps_saturates_high (v : value) (fallback : Z) (q : Q) :
  Number StringToNumber v = Some q -> Number_isInteger q = true -> 10000 <= q ->
  toBps StringToNumber v fallback = 10000%Z.
Proof.
  intros N I H. unfold toBps. rewrite N, I. simpl.
  destruct (Qltb q 0) eqn:E0.
  { apply Qltb_true in E0. lra. }
  destruct (Qltb 10000 q) eqn:E1; [reflexivity|].
  apply Qltb_false in E1.
  assert (E : q == 10000) by lra.
  rewrite E. reflexivity.
Qed.

Lemma toBps_saturates_low (v : value) (fallback : Z) (q : Q) :
  Number StringToNumber v = Some q -> Number_isInteger q = true -> q < 0 ->
  toBps StringToNumber v fallback = 0%Z.
Proof.
  intros N I H. unfold toBps. rewrite N, I. simpl.
  apply Qltb_true in H. now rewrite H.
Qed.

Lemma finish_unflagged (cfg : Config) (acc : Acc) :
  flagged (finish cfg acc) = false ->
  score (finish cfg acc) = confidenceAdjustedScore (finish cfg acc).
Proof.
  unfold finish.
  destruct (Qeq_bool (acc_weightedTotal acc) 0); simpl; [reflexivity|].
  intros ->. reflexivity.
Qed.

Lemma scoreFeedbackDetailed_inv (feedbacks : list Feedback) (config : ConfigInput)
    (nowMs : Q) (r : ScoringResult) :
  scoreFeedbackDetailed StringToNumber Date_parse feedbacks config nowMs = Return r ->
  exists acc, acc_ok acc /\ r = finish (normalizeConfig StringToNumber config) acc
    /\ accumulateAll Date_parse (normalizeConfig StringToNumber config)
         (nowMs - inject_Z (decayWindowDays (normalizeConfig StringToNumber config)) * DAY_MS)
         (nowMs - inject_Z (recentNegativeWindowDays (normalizeConfig StringToNumber config))
                  * DAY_MS)
         acc0 feedbacks = Return acc.
Proof.
  unfold scoreFeedbackDetailed. intro E.
  destruct (accumulateAll _ _ _ _ _ _) as [acc|] eqn:Ea; simpl in E; [|discriminate].
  injection E as <-. exists acc. split; [|split; reflexivity].
  eapply accumulateAll_ok; [apply normalizeConfig_normalized | apply acc0_ok | exact Ea].
Qed.

(** C10. [normalizeConfig] keeps [negativeFlagThresholdBps] within
    [[0, 10000]]: a configured integer above 10000 becomes 10000, a negative
    one becomes 0. [recentNegativeRateBps] never exceeds 10000, so with the
    threshold configured at or above 10000 no feedback list is flagged and
    the penalty is never applied: the score is the confidence-adjusted score. *)
Theorem threshold_saturation_disables_flagging :
  (forall input,
     (0 <= negativeFlagThresholdBps (normalizeConfig StringToNumber input) <= 10000)%Z)
  /\ (forall input q,
        Number StringToNumber (in_negativeFlagThresholdBps input) = Some q ->
        Number_isInteger q = true -> 10000 < q ->
        negativeFlagThresholdBps (normalizeConfig StringToNumber input) = 10000%Z)
  /\ (forall input q,
        Number StringToNumber (in_negativeFlagThresholdBps input) = Some q ->
        Number_isInteger q = true -> q < 0 ->
        negativeFlagThresholdBps (normalizeConfig StringToNumber input) = 0%Z)
  /\ (forall feedbacks input nowMs r,
        scoreFeedbackDetailed StringToNumber Date_parse feedbacks input nowMs = Return r ->
        (recentNegativeRateBps r <= 10000)%Z)
  /\ (forall feedbacks input nowMs r q,
        Number StringToNumber (in_negativeFlagThresholdBps input) = Some q ->
        Number_isInteger q = true -> 10000 <= q ->
        scoreFeedbackDetailed StringToNumber Date_parse feedbacks input nowMs = Return r ->
        flagged r = false /\ score r = confidenceAdjustedScore r).
Proof.
  split; [|split; [|split; [|split]]].
  - intro input. apply (bps_range (normalizeConfig_normalized input)).
  - intros input q N I H. simpl. apply toBps_saturates_high with (q := q); auto. lra.
  - intros input q N I H. simpl. apply toBps_saturates_low with (q := q); auto.
  - intros feedbacks input nowMs r E.
    destruct (scoreFeedbackDetailed_inv _ _ _ E) as (acc & A & -> & _).
    apply finish_rate_range, A.
  - intros feedbacks input nowMs r q N I H E.
    destruct (scoreFeedbackDetailed_inv _ _ _ E) as (acc & A & -> & _).
    assert (F : flagged (finish (normalizeConfig StringToNumber input) acc) = false).
    { apply not_true_is_false. intro T.
      apply finish_flagged_iff in T. destruct T as [_ T].
      pose proof (finish_rate_range (normalizeConfig StringToNumber input) A) as R.
      assert (B : negativeFlagThresholdBps (normalizeConfig StringToNumber input) = 10000%Z)
        by (simpl; apply toBps_saturates_high with (q := q); auto).
      lia. }
    split; [exact F | apply finish_unflagged, F].
Qed.

(** ** Monotonicity *)





(** ** The flagging scenario *)

Lemma accumulate_recent (cfg : Config) (cd cn nowMs age : Q) (acc : Acc) (positive : bool) :
  0 < nowMs - age * DAY_MS -> cd <= nowMs - age * DAY_MS -> cn <= nowMs - age * DAY_MS ->
  accumulate Date_parse cfg cd cn acc (ScoringFixtures.feedback nowMs positive age)
  = Return (recordRecent cfg acc positive).
Proof.
  intros P D N. unfold accumulate, parseFeedbackTimestampMs, parseFeedbackSentiment.
  cbn [ScoringFixtures.feedback timestamp createdAt time isPositive nullish bind].
  set (raw := nowMs - age * DAY_MS) in *.
  assert (R0 : Qleb raw 0 = false) by (apply Qleb_false; exact P).
  rewrite R0. cbn [bind].
  assert (G : raw <= (if Qltb raw (10 ^ 12) then raw * 1000 else raw))
    by (destruct (Qltb raw (10 ^ 12)); lra).
  assert (Gd : Qleb cd (if Qltb raw (10 ^ 12) then raw * 1000 else raw) = true)
    by (apply Qleb_true; lra).
  assert (Gn : Qleb cn (if Qltb raw (10 ^ 12) then raw * 1000 else raw) = true)
    by (apply Qleb_true; lra).
  rewrite Gd, Gn. unfold recordRecent. destruct positive; reflexivity.
Qed.

Lemma accumulateAll_recent (cfg : Config) (cd cn nowMs age : Q) (sentiments : list bool) :
  0 < nowMs - age * DAY_MS -> cd <= nowMs - age * DAY_MS -> cn <= nowMs - age * DAY_MS ->
  forall acc,
  accumulateAll Date_parse cfg cd cn acc
    (map (fun positive => ScoringFixtures.feedback nowMs positive age) sentiments)
  = Return (fold_left (recordRecent cfg) sentiments acc).
Proof.
  intros P D N. induction sentiments as [|p l IH]; intro acc; [reflexivity|].
  cbn [map accumulateAll fold_left]. rewrite (accumulate_recent cfg acc p P D N).
  cbn [bind]. apply IH.
Qed.

(** C6. Five positive and two negative entries, each one day old, scored
    with [recentNegativeWindowDays = 7], [negativeFlagThresholdBps = 2000],
    [flaggedScoreMultiplier = 0.8], [confidenceThresholdFeedbackCount = 999]
    and defaults elsewhere, give [baseScore = 714], [flagged = true],
    [recentNegativeRateBps = 2857] and [score = 571], at every [nowMs] later
    than one day after the epoch. In every result, [flagged] holds exactly
    when [recentFeedbackCount > 0] and [recentNegativeRateBps] is strictly
    above the threshold of the normalised configuration. *)
Theorem flagging_scenario_and_rule :
  (forall nowMs, DAY_MS < nowMs ->
     scoreFeedbackDetailed StringToNumber Date_parse
       (ScoringFixtures.flaggingFeedbacks nowMs) ScoringFixtures.flaggingConfig nowMs
     = Return ScoringFixtures.flaggingExpected)
  /\ (forall feedbacks config nowMs r,
        scoreFeedbackDetailed StringToNumber Date_parse feedbacks config nowMs = Return r ->
        (flagged r = true <->
         (0 < recentFeedbackCount r)%Z
         /\ (negativeFlagThresholdBps (normalizeConfig StringToNumber config)
             < recentNegativeRateBps r)%Z)).
Proof.
  split.
  - intros nowMs H. unfold scoreFeedbackDetailed, ScoringFixtures.flaggingFeedbacks.
    change (normalizeConfig StringToNumber ScoringFixtures.flaggingConfig)
      with {| decayWindowDays := 30; recentFeedbackWeight := 2; olderFeedbackWeight := 1;
              confidenceThresholdFeedbackCount := 999; confidenceMultiplier := 105 # 100;
              negativeFlagThresholdBps := 2000; recentNegativeWindowDays := 7;
              flaggedScoreMultiplier := 8 # 10; maxScore := 1000 |}.
    cbn [decayWindowDays recentNegativeWindowDays].
    rewrite accumulateAll_recent.
    + cbn [bind]. apply f_equal. vm_compute. reflexivity.
    + unfold DAY_MS in *. lra.
    + unfold DAY_MS in *. change (inject_Z 30) with 30. lra.
    + unfold DAY_MS in *. change (inject_Z 7) with 7. lra.
  - intros feedbacks config nowMs r E.
    destruct (scoreFeedbackDetailed_inv _ _ _ E) as (acc & _ & -> & _).
    apply finish_flagged_iff.
Qed.

End Builtins.

Import ScoringFixtures.


Lemma flagging_scenario_and_rule_witness :
  DAY_MS < testNowMs
  /\ scoreFeedbackDetailed noText noText (flaggingFeedbacks testNowMs) flaggingConfig testNowMs
     = Return flaggingExpected
  /\ (flagged flaggingExpected = true <->
      (0 < recentFeedbackCount flaggingExpected)%Z
      /\ (negativeFlagThresholdBps (normalizeConfig noText flaggingConfig)
          < recentNegativeRateBps flaggingExpected)%Z).
Proof.
  assert (H : DAY_MS < testNowMs) by (vm_compute; reflexivity).
  split; [exact H|]. split.
  - apply (proj1 (flagging_scenario_and_rule noText noText) testNowMs H).
  - apply (proj2 (flagging_scenario_and_rule noText noText)
             (flaggingFeedbacks testNowMs) flaggingConfig testNowMs).
    vm_compute. reflexivity.
Defined.

Lemma threshold_saturation_witness :
  negativeFlagThresholdBps (normalizeConfig noText saturatedConfig) = 10000%Z
  /\ (forall r,
        scoreFeedbackDetailed noText noText (flaggingFeedbacks testNowMs) saturatedConfig
          testNowMs = Return r ->
        flagged r = false /\ score r = confidenceAdjustedScore r).
Proof.
  destruct (threshold_saturation_disables_flagging noText noText)
    as (_ & High & _ & _ & Never).
  split.
  - apply (High saturatedConfig 20000); vm_compute; reflexivity.
  - intros r E.
    apply (Never (flaggingFeedbacks testNowMs) saturatedConfig testNowMs r 20000);
      [reflexivity | vm_compute; reflexivity | vm_compute; discriminate | exact E].
Defined.



End ScoringProps.

(* ------------------------------------------------------------------ *)
(** * Decimal text: printing then parsing *)
(* ------------------------------------------------------------------ *)

Module BigIntTextFacts.

Import JS BigIntText BigIntTextSpec.
Local Open Scope string_scope.

Lemma string_of_uint_digits (d : Decimal.uint) :
  all_digits (NilEmpty.string_of_uint d) = true.
Proof. induction d; simpl; auto. Qed.

Lemma digit_not_space (c : ascii) : is_digit c = true -> is_space c = false.
Proof.
  destruct c as [[] [] [] [] [] [] [] []]; vm_compute; congruence.
Qed.

Lemma trimEnd_digits (s : string) : all_digits s = true -> trimEnd s = s.
Proof.
  induction s as [|c r IH]; [reflexivity|]. simpl.
  rewrite andb_true_iff. intros [C R]. rewrite (IH R).
  destruct r; [|reflexivity]. now rewrite (digit_not_space _ C).
Qed.

Lemma trim_digits (s : string) : all_digits s = true -> trim s = s.
Proof.
  intro H. unfold trim.
  destruct s as [|c r]; [reflexivity|].
  simpl in H. apply andb_true_iff in H as [C R].
  simpl trimStart. rewrite (digit_not_space _ C).
  apply trimEnd_digits. simpl. now rewrite C, R.
Qed.

(** The number a digit string denotes, most significant digit first. *)
Lemma of_uint_cons (d : Decimal.uint) (k : N) (cons : Decimal.uint -> Decimal.uint) :
  (forall d', Unsigned.of_lu (cons d') = (k + 10 * Unsigned.of_lu d')%N) ->
  (forall d' d'', Decimal.revapp (cons d') d'' = Decimal.revapp d' (cons d'')) ->
  Pos.of_uint (cons d) = (k * 10 ^ Unsigned.usize d + Pos.of_uint d)%N.
Proof.
  intros Hlu Hrev.
  rewrite !Unsigned.of_uint_alt. unfold Decimal.rev.
  rewrite Hrev, Unsigned.of_lu_revapp, Hlu.
  change (Unsigned.of_lu Decimal.Nil) with 0%N.
  fold (Decimal.rev d). lia.
Qed.

Lemma parse_digits_decimal (d : Decimal.uint) :
  forall acc,
  parse_digits 10 acc (NilEmpty.string_of_uint d)
  = Some (acc * 10 ^ Unsigned.usize d + Pos.of_uint d)%N.
Proof.
  induction d; intro acc; [simpl; f_equal; lia | ..];
    cbn [NilEmpty.string_of_uint parse_digits];
    match goal with
    | |- context [digit_of 10 ?c] =>
        let v := eval vm_compute in (digit_of 10 c) in change (digit_of 10 c) with v
    end;
    cbv beta iota; rewrite IHd;
    (match goal with
     | |- context [Pos.of_uint (?cons d)] =>
         rewrite (@of_uint_cons d (Unsigned.of_lu (cons Decimal.Nil)) cons)
     end;
     [ f_equal; cbn [Unsigned.usize]; rewrite N.pow_succ_r';
       cbn [Unsigned.of_lu]; lia
     | intro; cbn [Unsigned.of_lu]; lia
     | reflexivity ]).
Qed.

Lemma string_of_uint_nonempty (n : N) : NilEmpty.string_of_uint (N.to_uint n) <> "".
Proof.
  destruct n as [|p]; [discriminate|].
  simpl. pose proof (Unsigned.to_uint_nonnil p) as H.
  destruct (Pos.to_uint p); [congruence | discriminate ..].
Qed.

Lemma parse_number_toString (n : N) :
  parse_number 10 (NilEmpty.string_of_uint (N.to_uint n)) = Some (Z.of_N n).
Proof.
  unfold parse_number.
  pose proof (string_of_uint_nonempty n) as H.
  destruct (NilEmpty.string_of_uint (N.to_uint n)) eqn:E; [congruence|].
  rewrite <- E, parse_digits_decimal. simpl option_map. f_equal. f_equal.
  change (Pos.of_uint (N.to_uint n)) with (N.of_uint (N.to_uint n)).
  rewrite DecimalN.Unsigned.of_to. lia.
Qed.

(** Reading back the decimal text of a non-negative big integer. *)
Lemma StringToBigInt_toString (z : Z) :
  (0 <= z)%Z -> StringToBigInt (toString z) = Some z.
Proof.
  intro H.
  assert (E : toString z = NilEmpty.string_of_uint (N.to_uint (Z.to_N z)))
    by (destruct z; [reflexivity | reflexivity | lia]).
  rewrite E. clear E.
  pose proof (string_of_uint_digits (N.to_uint (Z.to_N z))) as D.
  pose proof (parse_number_toString (Z.to_N z)) as P.
  pose proof (string_of_uint_nonempty (Z.to_N z)) as NE.
  rewrite Z2N.id in P by exact H.
  set (s := NilEmpty.string_of_uint (N.to_uint (Z.to_N z))) in *.
  unfold StringToBigInt. rewrite (trim_digits _ D).
  destruct s as [|c r]; [congruence|].
  simpl in D. apply andb_true_iff in D as [C R].
  destruct (Ascii.eqb c "+") eqn:E1.
  { apply Ascii.eqb_eq in E1. subst c. discriminate C. }
  destruct (Ascii.eqb c "-") eqn:E2.
  { apply Ascii.eqb_eq in E2. subst c. discriminate C. }
  destruct (Ascii.eqb c "0"); [|exact P].
  destruct r as [|x r']; [exact P|].
  simpl in R. apply andb_true_iff in R as [X _].
  assert (Hx : forall y, is_digit y = false -> Ascii.eqb x y = false).
  { intros y Hy. destruct (Ascii.eqb x y) eqn:Exy; [|reflexivity].
    apply Ascii.eqb_eq in Exy. subst y. congruence. }
  rewrite !Hx by reflexivity. exact P.
Qed.

Lemma toString_nonempty (z : Z) : toString z <> "".
Proof.
  destruct z; simpl; try discriminate.
  apply (string_of_uint_nonempty (Npos p)).
Qed.

Lemma toString_inj (x y : Z) : (0 <= x)%Z -> (0 <= y)%Z -> toString x = toString y -> x = y.
Proof.
  intros Hx Hy E.
  pose proof (StringToBigInt_toString Hx) as A.
  rewrite E, (StringToBigInt_toString Hy) in A. congruence.
Qed.

End BigIntTextFacts.

(* ------------------------------------------------------------------ *)
(** * The trust client *)
(* ------------------------------------------------------------------ *)

Module ClientProps.

Import JS Types Fallbacks Client JSFacts ClientSpec.
Local Open Scope Q_scope.



Section Builtins.

Variable StringToNumber : string -> option Q.




(** ** Degradation *)

Lemma walk_failed_prefix (world : World) (config : AgentKitConfig) (kind : Kind)
    (agentId correlationId : string) (failed tail : list SOURCE) :
  forall prior,
  (forall source, In source failed ->
     exists error, attempt StringToNumber world config kind agentId source = Throw error) ->
  walkSequence StringToNumber world config kind agentId correlationId prior
    (failed ++ tail)
  = walkSequence StringToNumber world config kind agentId correlationId
      (priorAfter StringToNumber world config kind agentId prior failed) tail.
Proof.
  induction failed as [|source failed IH]; intros prior H; [reflexivity|].
  destruct (H source (or_introl eq_refl)) as [error E].
  cbn [app walkSequence]. unfold priorAfter. cbn [fold_left]. rewrite E.
  apply IH. intros s Hs. apply H. right. exact Hs.
Qed.

Lemma priorAfter_last (world : World) (config : AgentKitConfig) (kind : Kind)
    (agentId : string) (failed : list SOURCE) (lastFailed : SOURCE) (error : JsError)
    (prior : option PriorFailure) :
  attempt StringToNumber world config kind agentId lastFailed = Throw error ->
  priorAfter StringToNumber world config kind agentId prior (failed ++ [lastFailed])
  = Some {| prior_code := classify lastFailed error;
            prior_message := toErrorMessage error |}.
Proof.
  intro E. unfold priorAfter. rewrite fold_left_app. cbn [fold_left]. now rewrite E.
Qed.

(** C3, amended. When the sources tried before the first success all
    fail, the envelope has [status = degraded], names the source that
    succeeded, and its [fallback] is the classification of the last of those
    failures, the one just before the success. *)
Theorem degraded_after_fallback (world : World) (config : AgentKitConfig)
    (kind : Kind) (rawAgentId : string) (options : QueryOptions) (parsed : Z)
    (failed rest : list SOURCE) (lastFailed succeeded : SOURCE) (error : JsError)
    (result : QueryResult) :
  Validation.parseAgentIdParam rawAgentId = Return parsed ->
  querySequence config options = (failed ++ [lastFailed]) ++ succeeded :: rest ->
  (forall source, In source failed ->
     exists e, attempt StringToNumber world config kind (BigIntText.toString parsed) source
               = Throw e) ->
  attempt StringToNumber world config kind (BigIntText.toString parsed) lastFailed
    = Throw error ->
  attempt StringToNumber world config kind (BigIntText.toString parsed) succeeded
    = Return result ->
  let env := queryTrust StringToNumber world config kind rawAgentId options in
  status env = DEGRADED
  /\ source env = succeeded
  /\ fallback env = Some (classify lastFailed error)
  /\ option_map info_code (Fallbacks.error env) = Some (classify lastFailed error).
Proof.
  intros P S F L R. unfold queryTrust. rewrite P, S.
  rewrite walk_failed_prefix.
  - rewrite (@priorAfter_last world config kind (BigIntText.toString parsed) failed
               lastFailed error None L).
    cbn [walkSequence]. rewrite R. repeat split.
  - intros s Hs. apply in_app_or in Hs as [Hs|[<-|[]]]; [now apply F | now exists error].
Qed.

End Builtins.

Import ClientFixtures ScoringFixtures.


(** C3 as stated fails: the paid API asks for payment, the demo API answers
    500 and the contract read succeeds. The first failure classifies as
    [payment_unavailable]; the envelope carries [oracle_unavailable], the
    classification of the second. *)
Lemma first_failure_counterexample :
  let agentId := "1"%string in
  (exists e, attempt noText paidUnpaidDemoDown testConfig KindScore agentId API_PAID = Throw e
             /\ classify API_PAID e = PAYMENT_UNAVAILABLE)
  /\ (exists e, attempt noText paidUnpaidDemoDown testConfig KindScore agentId API_DEMO
                = Throw e
                /\ classify API_DEMO e = ORACLE_UNAVAILABLE)
  /\ (exists r, attempt noText paidUnpaidDemoDown testConfig KindScore agentId
                  TRUSTSCORE_CONTRACT = Return r)
  /\ querySequence testConfig noOptions = [API_PAID; API_DEMO; TRUSTSCORE_CONTRACT]
  /\ status (queryTrust noText paidUnpaidDemoDown testConfig KindScore agentId noOptions)
     = DEGRADED
  /\ source (queryTrust noText paidUnpaidDemoDown testConfig KindScore agentId noOptions)
     = TRUSTSCORE_CONTRACT
  /\ fallback (queryTrust noText paidUnpaidDemoDown testConfig KindScore agentId noOptions)
     = Some ORACLE_UNAVAILABLE
  /\ Some ORACLE_UNAVAILABLE <> Some PAYMENT_UNAVAILABLE.
Proof.
  cbv zeta. repeat split; try (eexists; split; vm_compute; reflexivity);
    try (eexists; vm_compute; reflexivity); try (vm_compute; reflexivity).
  discriminate.
Qed.

Lemma degraded_after_fallback_witness :
  let env := queryTrust noText paidUnpaidDemoDown testConfig KindScore "1" noOptions in
  status env = DEGRADED
  /\ source env = TRUSTSCORE_CONTRACT
  /\ fallback env = Some ORACLE_UNAVAILABLE
  /\ option_map info_code (Fallbacks.error env) = Some ORACLE_UNAVAILABLE.
Proof.
  refine (@degraded_after_fallback noText paidUnpaidDemoDown testConfig KindScore "1"
            noOptions 1 [API_PAID] [] API_DEMO TRUSTSCORE_CONTRACT
            (buildHttpError 500 explodedBody) _ _ _ _ _ _).
  - vm_compute. reflexivity.
  - vm_compute. reflexivity.
  - intros s [<-|[]]. eexists. vm_compute. reflexivity.
  - vm_compute. reflexivity.
  - vm_compute. reflexivity.
Defined.

End ClientProps.

(* ------------------------------------------------------------------ *)
(** * The indexer: the transient-error classifier *)
(* ------------------------------------------------------------------ *)

Module ClassifierProps.

Import JS Indexer IndexerSpec.
Local Open Scope string_scope.

Lemma prefix_spec (t s : string) :
  String.prefix t s = true <-> exists post, s = t ++ post.
Proof.
  revert s. induction t as [|a t IH]; intro s.
  - split; [intros _; now exists s | intros _; destruct s; reflexivity].
  - destruct s as [|b s]; simpl.
    + split; [discriminate | intros [post E]; discriminate].
    + destruct (ascii_dec a b) as [->|N].
      * rewrite IH. split; intros [post E]; exists post; [now rewrite E | now injection E].
      * split; [discriminate | intros [post E]; injection E; congruence].
Qed.

Lemma includes_spec (s t : string) : includes s t = true <-> contains s t.
Proof.
  unfold contains. induction s as [|c r IH].
  - cbn [includes]. rewrite orb_false_r, prefix_spec. split.
    + intros [post E]. now exists "", post.
    + intros (pre & post & E). destruct pre; [now exists post | discriminate].
  - cbn [includes]. rewrite orb_true_iff, prefix_spec, IH. split.
    + intros [[post E]|(pre & post & E)].
      * now exists "", post.
      * exists (String c pre), post. simpl. now rewrite E.
    + intros (pre & post & E). destruct pre as [|c' pre].
      * left. now exists post.
      * right. injection E as _ E. now exists pre, post.
Qed.

Lemma codeIsTransient_spec (e : ErrorObject) :
  codeIsTransient e = true <->
  exists n, err_code e = CodeNumber n /\ In n [-32000; -32005; -32603]%Z.
Proof.
  unfold codeIsTransient. destruct (err_code e) as [n|s|].
  - rewrite !orb_true_iff, !Z.eqb_eq. split.
    + intro H. exists n. split; [reflexivity|]. simpl. intuition.
    + intros (m & E & H). injection E as <-. simpl in H. intuition.
  - split; [discriminate | intros (m & E & _); discriminate].
  - split; [discriminate | intros (m & E & _); discriminate].
Qed.

Lemma codeIsKnown_spec (e : ErrorObject) :
  codeIsKnown e = true <-> exists s, err_code e = CodeString s /\ In s knownCodes.
Proof.
  unfold codeIsKnown. destruct (err_code e) as [n|s|].
  - split; [discriminate | intros (m & E & _); discriminate].
  - rewrite existsb_exists. split.
    + intros (x & Hx & E). apply String.eqb_eq in E. subst x. now exists s.
    + intros (m & E & H). injection E as <-. exists s. split; [exact H|].
      apply String.eqb_refl.
  - split; [discriminate | intros (m & E & _); discriminate].
Qed.

Lemma messageHasHint_spec (e : ErrorObject) :
  messageHasHint e = true <->
  exists hint, In hint retryHints
    /\ contains (toLowerCase (err_message e ++ " " ++ err_shortMessage e)) hint.
Proof.
  unfold messageHasHint, messageText. rewrite existsb_exists.
  split; intros (h & H & C); exists h; (split; [exact H|]); now apply includes_spec.
Qed.

Lemma checks_spec (e : ErrorObject) :
  codeIsTransient e || codeIsKnown e || messageHasHint e = true <-> transientHere e.
Proof.
  unfold transientHere.
  rewrite !orb_true_iff, codeIsTransient_spec, codeIsKnown_spec, messageHasHint_spec.
  tauto.
Qed.

Lemma isRpcErrorObject_unfold (e : ErrorObject) :
  isRpcErrorObject e =
  codeIsTransient e || codeIsKnown e || messageHasHint e
  || match err_error e with
     | Nested inner => isRpcErrorObject inner
     | _ => match err_cause e with
            | Nested cause => isRpcErrorObject cause
            | _ => false
            end
     end.
Proof.
  destruct e as [c m s i ca]. cbn [isRpcErrorObject].
  destruct (codeIsTransient _); [reflexivity|].
  destruct (codeIsKnown _); [reflexivity|].
  destruct (messageHasHint _); reflexivity.
Qed.

Lemma isRpcErrorObject_spec (e : ErrorObject) :
  isRpcErrorObject e = true <-> exists v, In v (visited e) /\ transientHere v.
Proof.
  induction e using ErrorObject_mut
    with (P0 := fun l => match l with
                         | Nested x =>
                             isRpcErrorObject x = true <->
                             exists v, In v (visited x) /\ transientHere v
                         | _ => True
                         end); try exact I; try assumption.
  rewrite isRpcErrorObject_unfold, orb_true_iff, checks_spec.
  set (e := MkError code message shortMessage inner cause).
  assert (V : visited e =
              e :: match inner with
                   | Nested x => visited x
                   | _ => match cause with Nested x => visited x | _ => [] end
                   end) by reflexivity.
  rewrite V. cbn [err_error err_cause e].
  destruct inner as [| |x]; [destruct cause as [| |y] .. | ].
  all: try (split; [intros [H|H]; [exists e; split; [now left | exact H] | discriminate]
                   | intros (v & [<-|[]] & H); now left]).
  - rewrite IHe0. split.
    + intros [H|(v & Hv & H)]; [exists e; split; [now left | exact H]|].
      exists v. split; [now right | exact H].
    + intros (v & [<-|Hv] & H); [now left | right; now exists v].
  - rewrite IHe0. split.
    + intros [H|(v & Hv & H)]; [exists e; split; [now left | exact H]|].
      exists v. split; [now right | exact H].
    + intros (v & [<-|Hv] & H); [now left | right; now exists v].
  - rewrite IHe. split.
    + intros [H|(v & Hv & H)]; [exists e; split; [now left | exact H]|].
      exists v. split; [now right | exact H].
    + intros (v & [<-|Hv] & H); [now left | right; now exists v].
Qed.

(** C9, amended. [isRpcError] returns true exactly when some object on the
    chain it walks is transient: the chain starts at the error and goes on,
    at every object, to the nested [error] if present and otherwise to the
    nested [cause], to any depth; an object is transient when its numeric
    code is -32000, -32005 or -32603, when its string code is one of the six
    known codes, or when [message + " " + shortMessage], lower-cased, contains
    one of the nine hints. *)
Theorem isRpcError_exactly (error : option ErrorObject) :
  isRpcError error = true <->
  exists e v, error = Some e /\ In v (visited e) /\ transientHere v.
Proof.
  destruct error as [e|]; simpl.
  - rewrite isRpcErrorObject_spec. split.
    + intros (v & Hv & H). now exists e, v.
    + intros (e' & v & E & Hv & H). injection E as <-. now exists v.
  - split; [discriminate | intros (e & v & E & _); discriminate].
Qed.

Import IndexerFixtures.

Lemma no_hint_in_empty (hint : string) :
  In hint retryHints -> ~ contains (toLowerCase "") hint.
Proof.
  intros H C. apply includes_spec in C.
  simpl in H. repeat (destruct H as [<-|H]; [discriminate C|]). exact H.
Qed.

(** C9 as stated fails: a transient code two causes down makes
    [isRpcError] answer true, while neither the error nor its cause one
    level down meets any of the three conditions. *)
Lemma nested_cause_counterexample :
  isRpcError (Some wrappedTwice) = true /\ ~ retryableAsWorded wrappedTwice.
Proof.
  split; [reflexivity|].
  assert (N : forall l, ~ transientAsWorded (MkError CodeOther "" "" Absent l)).
  { intros l [(n & E & _)|[(s & E & _)|(h & H & C)]]; try discriminate E.
    exact (no_hint_in_empty H C). }
  intros [H|(c & E & H)].
  - exact (N _ H).
  - injection E as <-. exact (N _ H).
Qed.

Lemma isRpcError_exactly_witness :
  isRpcError (Some wrappedTwice) = true
  /\ exists e v, Some wrappedTwice = Some e /\ In v (visited e) /\ transientHere v.
Proof.
  assert (H : exists e v, Some wrappedTwice = Some e /\ In v (visited e) /\ transientHere v).
  { exists wrappedTwice, rateLimited. split; [reflexivity|]. split.
    - simpl. right. right. left. reflexivity.
    - left. exists (-32005)%Z. split; [reflexivity|]. simpl. tauto. }
  split; [|exact H].
  exact (proj2 (isRpcError_exactly (Some wrappedTwice)) H).
Defined.

End ClassifierProps.

(* ------------------------------------------------------------------ *)
(** * The indexer: the checkpoint store *)
(* ------------------------------------------------------------------ *)

Module CheckpointProps.

Import JS Indexer IndexerSpec CheckpointSpec BigIntTextFacts JSFacts.
Local Open Scope string_scope.

Lemma normalizeAgentIdString_canonical (v : value) (s : string) :
  normalizeAgentIdString v = Some s -> canonical s.
Proof.
  unfold normalizeAgentIdString.
  destruct (BigIntText.BigInt_of v) as [z|]; [|discriminate].
  destruct (z <? 0)%Z eqn:E; [discriminate|].
  intro H. injection H as <-. exists z. split; [|reflexivity].
  apply Z.ltb_ge in E. exact E.
Qed.

Lemma canonical_nonempty (s : string) : canonical s -> String.eqb s "" = false.
Proof.
  intros (z & _ & ->). apply String.eqb_neq, toString_nonempty.
Qed.

Lemma normalizeAgentIdString_canonical_text (s : string) :
  canonical s -> normalizeAgentIdString (Str s) = Some s.
Proof.
  intros (z & Hz & ->). unfold normalizeAgentIdString. cbn [BigIntText.BigInt_of].
  rewrite (StringToBigInt_toString Hz).
  apply Z.ltb_ge in Hz. now rewrite Hz.
Qed.

Lemma canonical_inj (x y : Z) :
  (0 <= x)%Z -> (0 <= y)%Z -> BigIntText.toString x = BigIntText.toString y -> x = y.
Proof. apply toString_inj. Qed.

(** ** Dropping duplicates *)

Lemma exclude_cons (seen : list string) (x : string) (l : list string) :
  exclude seen (x :: l) =
  if existsb (String.eqb x) seen then exclude seen l else x :: exclude seen l.
Proof. unfold exclude. simpl. destruct (existsb (String.eqb x) seen); reflexivity. Qed.

Lemma exclude_remove (seen : list string) (x : string) (l : list string) :
  exclude (x :: seen) l = exclude seen (remove string_dec x l).
Proof.
  induction l as [|y l IH]; [reflexivity|].
  cbn [remove]. destruct (string_dec x y) as [->|N].
  - rewrite exclude_cons. cbn [existsb]. rewrite String.eqb_refl. cbn [orb]. exact IH.
  - assert (E : String.eqb y x = false) by (apply String.eqb_neq; congruence).
    rewrite !exclude_cons. cbn [existsb]. rewrite E. cbn [orb]. now rewrite IH.
Qed.

Lemma exclude_remove_seen (seen : list string) (x : string) (l : list string) :
  existsb (String.eqb x) seen = true ->
  exclude seen (remove string_dec x l) = exclude seen l.
Proof.
  intro H. induction l as [|y l IH]; [reflexivity|].
  cbn [remove]. destruct (string_dec x y) as [->|N].
  - rewrite exclude_cons, H. exact IH.
  - rewrite !exclude_cons, IH. reflexivity.
Qed.

Lemma exclude_nil (l : list string) : exclude [] l = l.
Proof.
  induction l as [|y l IH]; [reflexivity|]. rewrite exclude_cons. cbn [existsb].
  now rewrite IH.
Qed.

Lemma NoDup_remove_elt (x : string) (l : list string) :
  NoDup l -> NoDup (remove string_dec x l).
Proof.
  induction 1 as [|y l N D IH]; simpl; [constructor|].
  destruct (string_dec x y); [exact IH|].
  constructor; [|exact IH]. intro C. apply in_remove in C. tauto.
Qed.

Lemma keepFirst_In (x : string) (l : list string) : In x (keepFirst l) <-> In x l.
Proof.
  induction l as [|y l IH]; [reflexivity|].
  cbn [keepFirst fold_right]. fold (keepFirst l). simpl.
  destruct (string_dec y x) as [->|N]; [tauto|].
  split.
  - intros [E|H]; [congruence|]. apply in_remove in H. right. apply IH, H.
  - intros [E|H]; [congruence|]. right. apply in_in_remove; [congruence | apply IH, H].
Qed.

Lemma keepFirst_NoDup (l : list string) : NoDup (keepFirst l).
Proof.
  induction l as [|y l IH]; [constructor|].
  cbn [keepFirst fold_right]. fold (keepFirst l).
  constructor; [apply remove_In | apply NoDup_remove_elt, IH].
Qed.

Lemma keepFirst_distinct (l : list string) : NoDup l -> keepFirst l = l.
Proof.
  induction 1 as [|y l N D IH]; [reflexivity|].
  cbn [keepFirst fold_right]. fold (keepFirst l). rewrite IH.
  f_equal. apply notin_remove, N.
Qed.

Lemma normalizedIds_In (s : string) (items : list value) :
  In s (normalizedIds items) -> canonical s.
Proof.
  unfold normalizedIds. rewrite in_flat_map. intros (id & _ & H).
  destruct (normalizeAgentIdString id) as [t|] eqn:E; [|destruct H].
  destruct H as [<-|[]]. exact (normalizeAgentIdString_canonical _ E).
Qed.

Lemma normalizedIds_text (ids : list string) :
  Forall canonical ids -> normalizedIds (map Str ids) = ids.
Proof.
  induction 1 as [|s l C F IH]; [reflexivity|].
  cbn [map normalizedIds flat_map]. fold (normalizedIds (map Str l)).
  now rewrite (normalizeAgentIdString_canonical_text C), IH.
Qed.

(** The loop of [normalizeCheckpoint] keeps, in order, the first occurrence
    of every identifier that normalises and is not already seen. *)
Lemma normalizePending_spec (ids : list value) :
  forall seen pending,
  normalizePending seen pending ids
  = (pending ++ exclude seen (keepFirst (normalizedIds ids)))%list.
Proof.
  induction ids as [|id rest IH]; intros seen pending.
  - simpl. now rewrite app_nil_r.
  - cbn [normalizePending normalizedIds flat_map]. fold (normalizedIds rest).
    destruct (normalizeAgentIdString id) as [s|] eqn:E; [|apply IH].
    rewrite (canonical_nonempty (normalizeAgentIdString_canonical _ E)).
    cbn [orb app keepFirst fold_right]. fold (keepFirst (normalizedIds rest)).
    rewrite exclude_cons.
    destruct (existsb (String.eqb s) seen) eqn:S.
    + rewrite IH, (@exclude_remove_seen seen s _ S). reflexivity.
    + rewrite IH, <- exclude_remove, <- app_assoc. reflexivity.
Qed.

Lemma normalizeCheckpoint_pending (raw : option RawCheckpoint) (c : Checkpoint) :
  normalizeCheckpoint raw = Return c ->
  pendingAgentIds c = keepFirst (normalizedIds (entriesOf raw)).
Proof.
  unfold normalizeCheckpoint, entriesOf.
  destruct raw as [[block [|items|s|]]|]; intro E; try discriminate;
    injection E as <-; cbn [pendingAgentIds];
    try reflexivity; now rewrite normalizePending_spec, exclude_nil.
Qed.

Lemma normalizeCheckpoint_block (raw : option RawCheckpoint) (c : Checkpoint) (z : Z) :
  normalizeCheckpoint raw = Return c ->
  (lastProcessedBlock c = Some z <->
   exists r x, raw = Some r /\ raw_lastProcessedBlock r = Num (Some x)
               /\ (x == inject_Z z)%Q /\ (0 <= z)%Z).
Proof.
  intro E.
  assert (B : lastProcessedBlock c =
              match raw with
              | Some {| raw_lastProcessedBlock := Num (Some x) |} =>
                  if Number_isInteger x && Qleb 0 x then Some (Qfloor x) else None
              | _ => None
              end).
  { unfold normalizeCheckpoint in E.
    destruct (match raw with Some r => raw_pendingAgentIds r | None => Falsy end);
      try discriminate; injection E as <-; reflexivity. }
  rewrite B. clear B E.
  destruct raw as [[block pend]|].
  2:{ split; [discriminate | intros (r & x & C & _); discriminate]. }
  destruct block as [| |b|[x|]|s|n|d];
    try (split; [discriminate | intros (r & x' & C & D & _); injection C as <-; discriminate]).
  destruct (Number_isInteger x && Qleb 0 x) eqn:T.
  - apply andb_true_iff in T as [I P]. apply isInteger_spec in I. apply Qleb_true in P.
    split.
    + intro H. injection H as <-. exists {| raw_lastProcessedBlock := Num (Some x);
                                            raw_pendingAgentIds := pend |}, x.
      repeat split; [now symmetry|].
      rewrite Zle_Qle, I. exact P.
    + intros (r & x' & C & D & Q & _). injection C as <-. injection D as <-.
      f_equal. rewrite Q. apply Qfloor_Z.
  - split; [discriminate|].
    intros (r & x' & C & D & Q & P). injection C as <-. injection D as <-.
    exfalso. apply andb_false_iff in T as [T|T].
    + assert (I : Number_isInteger x = true).
      { apply isInteger_spec. rewrite Q at 1. rewrite Qfloor_Z. now symmetry. }
      congruence.
    + apply Qleb_false in T. rewrite Q in T.
      rewrite Zle_Qle in P. change (inject_Z 0) with 0%Q in P.
      apply (Qlt_not_le _ _ T P).
Qed.

Lemma normalizeCheckpoint_wellFormed (raw : option RawCheckpoint) (c : Checkpoint) :
  normalizeCheckpoint raw = Return c -> wellFormed c.
Proof.
  intro E. constructor.
  - intros z H. apply (@normalizeCheckpoint_block raw c z E) in H.
    destruct H as (_ & _ & _ & _ & _ & H). exact H.
  - rewrite (@normalizeCheckpoint_pending raw c E). apply Forall_forall.
    intros s H. apply (proj1 (keepFirst_In _ _)) in H. exact (normalizedIds_In _ _ H).
  - rewrite (@normalizeCheckpoint_pending raw c E). apply keepFirst_NoDup.
Qed.

(** Normalising what [JSON.stringify] wrote gives the checkpoint back. *)
Lemma normalizeCheckpoint_stringified (block : option Z) (ids : list string) :
  (forall z, block = Some z -> (0 <= z)%Z) -> Forall canonical ids -> NoDup ids ->
  normalizeCheckpoint
    (Some {| raw_lastProcessedBlock :=
               match block with
               | Some n => Num (Some (inject_Z n))
               | None => Null
               end;
             raw_pendingAgentIds := ArrayOf (map Str ids) |})
  = Return {| lastProcessedBlock := block; pendingAgentIds := ids |}.
Proof.
  intros B C D. unfold normalizeCheckpoint. cbn [raw_pendingAgentIds].
  rewrite normalizePending_spec, exclude_nil, (normalizedIds_text C),
    (keepFirst_distinct D). cbn [app].
  destruct block as [z|]; [|reflexivity].
  assert (I : Number_isInteger (inject_Z z) = true).
  { apply isInteger_spec. now rewrite Qfloor_Z. }
  assert (P : Qleb 0 (inject_Z z) = true).
  { apply Qleb_true. change 0%Q with (inject_Z 0). rewrite <- Zle_Qle. now apply B. }
  now rewrite I, P, Qfloor_Z.
Qed.



Import CheckpointFixtures.


End CheckpointProps.

(* ------------------------------------------------------------------ *)
(** * The indexer: one cycle and the next *)
(* ------------------------------------------------------------------ *)

Module CycleProps.

Import JS Indexer IndexerSpec CheckpointSpec CycleSpec BigIntTextFacts JSFacts
  CheckpointProps.
Local Open Scope string_scope.
Local Open Scope Z_scope.

(** ** The dirty set *)

Lemma Set_add_In (s : list string) (x y : string) :
  In y (Set_add s x) <-> In y s \/ y = x.
Proof.
  unfold Set_add. destruct (existsb (String.eqb x) s) eqn:E.
  - split; [tauto|]. intros [H| ->]; [exact H|].
    apply existsb_exists in E as (z & Hz & Ez). apply String.eqb_eq in Ez. now subst z.
  - rewrite in_app_iff. simpl. intuition.
Qed.

Lemma Set_add_NoDup (s : list string) (x : string) : NoDup s -> NoDup (Set_add s x).
Proof.
  intro N. unfold Set_add. destruct (existsb (String.eqb x) s) eqn:E; [exact N|].
  apply NoDup_app; [exact N | repeat constructor; intros [] |].
  intros y Hy [<-|[]].
  assert (C : existsb (String.eqb x) s = true)
    by (apply existsb_exists; exists x; split; [exact Hy | apply String.eqb_refl]).
  congruence.
Qed.

Lemma Set_add_ok (s : list string) (x : string) :
  dirty_ok s -> canonical x -> dirty_ok (Set_add s x).
Proof.
  intros [N C] Hx. split; [now apply Set_add_NoDup|].
  apply Forall_forall. intros y Hy. apply Set_add_In in Hy as [Hy| ->]; [|exact Hx].
  rewrite Forall_forall in C. now apply C.
Qed.

Lemma Set_of_spec (items : list string) :
  forall s, dirty_ok s -> Forall canonical items ->
  dirty_ok (fold_left Set_add items s)
  /\ (forall y, In y (fold_left Set_add items s) <-> In y s \/ In y items).
Proof.
  induction items as [|x items IH]; intros s S C; simpl.
  - split; [exact S | intro y; tauto].
  - inversion C as [|? ? Cx Cr]; subst.
    destruct (IH (Set_add s x) (Set_add_ok S Cx) Cr) as [O I].
    split; [exact O|]. intro y. rewrite I, Set_add_In. intuition.
Qed.

Lemma addObserved_spec (logs : list Log) :
  forall dirty, dirty_ok dirty ->
  dirty_ok (addObserved dirty logs)
  /\ (forall y, In y dirty -> In y (addObserved dirty logs)).
Proof.
  induction logs as [|log rest IH]; intros dirty D; simpl.
  - split; [exact D | auto].
  - destruct (normalizeAgentIdString (args_agentId log)) as [s|] eqn:E; [|apply IH, D].
    destruct (String.eqb s ""); [apply IH, D|].
    destruct (IH (Set_add dirty s)
                (Set_add_ok D (normalizeAgentIdString_canonical _ E))) as [O I].
    split; [exact O|]. intros y Hy. apply I, Set_add_In. now left.
Qed.

Lemma dirtyAgentIds_spec (checkpoint : Checkpoint) (logs : list Log) :
  wellFormed checkpoint ->
  dirty_ok (dirtyAgentIds checkpoint logs)
  /\ (forall y, In y (pendingAgentIds checkpoint) -> In y (dirtyAgentIds checkpoint logs)).
Proof.
  intros [_ C _]. unfold dirtyAgentIds, Set_of.
  destruct (@Set_of_spec (pendingAgentIds checkpoint) []) as [O I];
    [split; constructor | exact C |].
  destruct (addObserved_spec logs O) as [O' I'].
  split; [exact O'|]. intros y Hy. apply I', I. now right.
Qed.

Lemma toBigInts_canonical (ids : list string) :
  Forall canonical ids ->
  exists zs, toBigInts ids = Return zs
             /\ map BigIntText.toString zs = ids
             /\ Forall (fun z => 0 <= z) zs.
Proof.
  induction 1 as [|s l (z & Hz & ->) F (zs & E & M & P)].
  - now exists [].
  - exists (z :: zs). cbn [toBigInts]. rewrite (StringToBigInt_toString Hz), E.
    cbn [bind map]. rewrite M. repeat split. now constructor.
Qed.

(** ** Sorting *)

Lemma ascending_lt (x y : Z) : (ascending x y <=? 0) = (x <? y).
Proof. unfold ascending. destruct (x <? y); reflexivity. Qed.

Lemma insertBy_perm (x : Z) (l : list Z) : Permutation (x :: l) (insertBy ascending x l).
Proof.
  induction l as [|y r IH]; simpl; [reflexivity|].
  destruct (ascending x y <=? 0); [reflexivity|].
  rewrite perm_swap. now constructor.
Qed.

Lemma Array_sort_perm (l : list Z) : Permutation l (Array_sort ascending l).
Proof.
  induction l as [|x l IH]; simpl; [reflexivity|].
  rewrite <- insertBy_perm. now constructor.
Qed.

Lemma insertBy_sorted (x : Z) (l : list Z) :
  StronglySorted Z.le l -> StronglySorted Z.le (insertBy ascending x l).
Proof.
  induction 1 as [|y r S IH F]; simpl; [repeat constructor|].
  rewrite ascending_lt. destruct (x <? y) eqn:E.
  - apply Z.ltb_lt in E. constructor; [now constructor|].
    constructor; [lia|]. eapply Forall_impl; [|exact F]. simpl. intros; lia.
  - apply Z.ltb_ge in E. constructor; [exact IH|].
    eapply Permutation_Forall; [apply insertBy_perm|]. now constructor.
Qed.

Lemma Array_sort_sorted (l : list Z) : StronglySorted Z.le (Array_sort ascending l).
Proof.
  induction l as [|x l IH]; simpl; [constructor | now apply insertBy_sorted].
Qed.

Lemma sorted_distinct_strict (l : list Z) :
  StronglySorted Z.le l -> NoDup l -> StronglySorted Z.lt l.
Proof.
  induction 1 as [|x r S IH F]; intro N; [constructor|].
  inversion N as [|? ? Nx Nr]; subst. constructor; [now apply IH|].
  rewrite Forall_forall in *. intros y Hy. specialize (F y Hy).
  assert (x <> y) by (intros ->; contradiction). lia.
Qed.

Lemma sorted_split (a b : list Z) :
  StronglySorted Z.lt (a ++ b) -> forall p q, In p a -> In q b -> p < q.
Proof.
  induction a as [|x a IH]; simpl; intros S p q Hp Hq; [destruct Hp|].
  inversion S as [|? ? S' F]; subst. destruct Hp as [<-|Hp].
  - rewrite Forall_forall in F. apply F, in_or_app. now right.
  - now apply IH.
Qed.

(** ** The steps of a cycle *)

Lemma loadCheckpoint_wellFormed (faults : FsFaults) (files : FileSystem) (c : Checkpoint) :
  loadCheckpoint faults files = Return c -> wellFormed c.
Proof.
  unfold loadCheckpoint. destruct (readFile faults files) as [[parsed|]|error].
  - destruct (normalizeCheckpoint parsed) as [c'|] eqn:E; [|discriminate].
    intro H. injection H as <-. exact (@normalizeCheckpoint_wellFormed parsed c' E).
  - discriminate.
  - destruct (err_code error) as [|s|]; try discriminate.
    destruct (String.eqb s "ENOENT") eqn:S.
    + apply String.eqb_eq in S. subst s. intro H. injection H as <-.
      split; simpl; [discriminate | constructor | constructor].
    + discriminate.
Qed.

Lemma normalizeCheckpoint_saved (latest : Z) (ids : list string) :
  Forall canonical ids -> NoDup ids ->
  normalizeCheckpoint
    (Some {| raw_lastProcessedBlock := Num (Some (inject_Z latest));
             raw_pendingAgentIds := ArrayOf (map Str ids) |})
  = Return {| lastProcessedBlock := if 0 <=? latest then Some latest else None;
              pendingAgentIds := ids |}.
Proof.
  intros C D. unfold normalizeCheckpoint. cbn [raw_pendingAgentIds].
  rewrite normalizePending_spec, exclude_nil, (normalizedIds_text C),
    (keepFirst_distinct D). cbn [app].
  assert (I : Number_isInteger (inject_Z latest) = true).
  { apply isInteger_spec. now rewrite Qfloor_Z. }
  rewrite I, Qfloor_Z. cbn [andb].
  destruct (0 <=? latest) eqn:E.
  - apply Z.leb_le in E.
    assert (P : Qleb 0 (inject_Z latest) = true).
    { apply Qleb_true. change 0%Q with (inject_Z 0). now rewrite <- Zle_Qle. }
    now rewrite P.
  - apply Z.leb_gt in E.
    assert (P : Qleb 0 (inject_Z latest) = false).
    { apply Qleb_false. change 0%Q with (inject_Z 0). now rewrite <- Zlt_Qlt. }
    now rewrite P.
Qed.

(** Reading back, without a read fault, the file a save has renamed into
    place. *)
Lemma load_saved (faults : FsFaults) (block : option Z) (ids : list string)
    (tmp : option FileContent) :
  readFile_fault faults = None ->
  (forall z, block = Some z -> 0 <= z) -> Forall canonical ids -> NoDup ids ->
  loadCheckpoint faults
    {| checkpointFile :=
         Some (JSON_stringify {| lastProcessedBlock := block; pendingAgentIds := ids |});
       tmpFile := tmp |}
  = Return {| lastProcessedBlock := block; pendingAgentIds := ids |}.
Proof.
  intros F B C D. unfold loadCheckpoint, readFile. cbn [checkpointFile]. rewrite F.
  unfold JSON_stringify. cbn [lastProcessedBlock pendingAgentIds].
  now rewrite (normalizeCheckpoint_stringified B C D).
Qed.

Lemma submitBatch_files (env : Env) (world world' : World) (batch : Batch)
    (r : outcome Failure (list string)) :
  submitBatch env world batch = (world', r) -> fs world' = fs world.
Proof.
  unfold submitBatch. destruct (agentIds batch).
  - intro H. now injection H as <- _.
  - destruct (batchUpdateScores env batch); simpl.
    + destruct (waitReceipt env); simpl; intro H; now injection H as <- _.
    + intro H. now injection H as <- _.
Qed.

Lemma submitBatch_beforeSave (env : Env) (world world' : World) (batch : Batch)
    (f : Failure) :
  submitBatch env world batch = (world', Throw f) -> failedAt f <> SaveCheckpoint.
Proof.
  unfold submitBatch. destruct (agentIds batch); [discriminate|].
  destruct (batchUpdateScores env batch); simpl.
  - destruct (waitReceipt env); simpl; [discriminate|].
    intro H. injection H as _ <-. discriminate.
  - intro H. injection H as _ <-. discriminate.
Qed.

Lemma saveCheckpoint_keeps_checkpointFile (faults : FsFaults) (files files' : FileSystem)
    (raw : option RawCheckpoint) (e : Thrown) :
  saveCheckpoint faults files raw = (files', Throw e) ->
  checkpointFile files' = checkpointFile files.
Proof.
  unfold saveCheckpoint.
  destruct (normalizeCheckpoint raw); [|intro H; now injection H as <- _].
  destruct (mkdir_fault faults); [intro H; now injection H as <- _|].
  destruct (writeFile_fault faults); [intro H; now injection H as <- _|].
  destruct (rename_fault faults); [intro H; now injection H as <- _|discriminate].
Qed.

(** ** Failures before the save *)

Lemma beforeSave_Return {A} (a : A) : beforeSave (Return a).
Proof. intros f H. discriminate. Qed.

Lemma beforeSave_failAt {A} (step : Step) (e : Thrown) :
  step <> SaveCheckpoint -> beforeSave (@failAt A step e).
Proof. intros N f H. injection H as <-. exact N. Qed.

Lemma beforeSave_exnAt {A} (step : Step) (m : outcome exn A) :
  step <> SaveCheckpoint -> beforeSave (exnAt step m).
Proof.
  intro N. destruct m; [apply beforeSave_Return | now apply beforeSave_failAt].
Qed.

Lemma beforeSave_rpcCall {A} (step : Step) (settled : outcome ErrorObject A) :
  step <> SaveCheckpoint -> beforeSave (rpcCall step settled).
Proof.
  intro N. destruct settled; [apply beforeSave_Return | now apply beforeSave_failAt].
Qed.

Lemma beforeSave_bind {A B} (m : outcome Failure A) (k : A -> outcome Failure B) :
  beforeSave m -> (forall a, beforeSave (k a)) -> beforeSave (x <- m ;; k x).
Proof.
  intros M K f. destruct m as [a|g]; simpl; [apply K|].
  intro H. injection H as <-. now apply M.
Qed.

Lemma beforeSave_queryBothFilters (env : Env) (step : Step) (agent : option Z)
    (fromBlock toBlock : Z) :
  step <> SaveCheckpoint ->
  beforeSave (queryBothFilters env step agent fromBlock toBlock).
Proof.
  intro N. unfold queryBothFilters. destruct (toBlock <? fromBlock);
    [apply beforeSave_Return|].
  apply beforeSave_bind; [now apply beforeSave_rpcCall|]. intro posted.
  apply beforeSave_bind; [now apply beforeSave_rpcCall|]. intro renamed.
  apply beforeSave_Return.
Qed.

Lemma beforeSave_collectLoop (env : Env) (agentId : Z) (logs : list Log) :
  forall cache feedback, beforeSave (collectLoop env agentId logs cache feedback).
Proof.
  induction logs as [|log rest IH]; intros cache feedback; [apply beforeSave_Return|].
  cbn [collectLoop]. apply beforeSave_bind; [|intro; apply IH].
  destruct (Map_get cache (blockNumber log)); [apply beforeSave_Return|].
  apply beforeSave_bind; [apply beforeSave_rpcCall; discriminate|].
  intros [seconds|]; [apply beforeSave_Return | apply beforeSave_failAt; discriminate].
Qed.

Lemma beforeSave_collectFeedbackForAgent (env : Env) (agentId fromBlock toBlock : Z)
    (cache : Cache) :
  beforeSave (collectFeedbackForAgent env agentId fromBlock toBlock cache).
Proof.
  unfold collectFeedbackForAgent, queryFeedbackLogsForAgent.
  apply beforeSave_bind; [apply beforeSave_queryBothFilters; discriminate|].
  intro logs. apply beforeSave_collectLoop.
Qed.

Section Builtins.

Variable StringToNumber : string -> option Q.
Variable Date_parse : string -> option Q.

Lemma toPositiveInt_positive (v : value) (fallback : Z) :
  0 < fallback -> 0 < toPositiveInt StringToNumber v fallback.
Proof.
  intro F. unfold toPositiveInt.
  destruct (Number StringToNumber v) as [parsed|]; [|exact F].
  destruct (Number_isInteger parsed && Qltb 0 parsed) eqn:E; [|exact F].
  now apply ScoringProps.integer_positive.
Qed.

Lemma resolveRuntimeConfig_batch_positive (env : Env) (given : ConfigOverrides)
    (config : IndexerConfig) :
  resolveRuntimeConfig StringToNumber env given = Return config ->
  0 < maxBatchSize config.
Proof.
  unfold resolveRuntimeConfig.
  destruct (if given_provider given then _ else _); cbn [bind]; [|discriminate].
  destruct (if given_updaterSigner given then _ else _); cbn [bind]; [|discriminate].
  destruct (String.eqb (given_trustScoreAddress given) ""); [discriminate|].
  destruct (String.eqb (given_reputationRegistryAddress given) ""); [discriminate|].
  intro H. injection H as <-. cbn [maxBatchSize].
  now apply toPositiveInt_positive.
Qed.

Lemma openCycle_inv (env : Env) (given : ConfigOverrides) (config : IndexerConfig) :
  openCycle StringToNumber env given = Return config ->
  resolveRuntimeConfig StringToNumber env given = Return config.
Proof.
  unfold openCycle.
  destruct (resolveRuntimeConfig StringToNumber env given) as [c|]; cbn [bind exnAt];
    [|discriminate].
  destruct (construct env ReputationRegistryContract); cbn [bind exnAt]; [|discriminate].
  destruct (construct env TrustScoreContract); cbn [bind exnAt]; [|discriminate].
  congruence.
Qed.

Lemma beforeSave_openCycle (env : Env) (given : ConfigOverrides) :
  beforeSave (openCycle StringToNumber env given).
Proof.
  unfold openCycle.
  apply beforeSave_bind; [apply beforeSave_exnAt; discriminate|]. intro config.
  apply beforeSave_bind; [apply beforeSave_exnAt; discriminate|]. intro r.
  apply beforeSave_bind; [apply beforeSave_exnAt; discriminate|]. intro t.
  apply beforeSave_Return.
Qed.

Lemma processAgents_ids (env : Env) (config : IndexerConfig) (nowMs : Q)
    (latest : Z) (agents : list Z) :
  forall batch cache batch',
  processAgents StringToNumber Date_parse env config nowMs latest agents batch cache
    = Return batch' ->
  agentIds batch' = (agentIds batch ++ agents)%list.
Proof.
  induction agents as [|a rest IH]; intros batch cache batch' E; cbn [processAgents] in E.
  - injection E as <-. now rewrite app_nil_r.
  - destruct (collectFeedbackForAgent env a (startBlock config) latest cache)
      as [collected|]; cbn [bind] in E; [|discriminate].
    destruct (Scoring.scoreFeedbackDetailed _ _ _ _ _); cbn [bind] in E; [|discriminate].
    rewrite (IH _ _ _ E). cbn [agentIds]. now rewrite <- app_assoc.
Qed.

Lemma beforeSave_processAgents (env : Env) (config : IndexerConfig) (nowMs : Q)
    (latest : Z) (agents : list Z) :
  forall batch cache,
  beforeSave
    (processAgents StringToNumber Date_parse env config nowMs latest agents batch cache).
Proof.
  induction agents as [|a rest IH]; intros batch cache; [apply beforeSave_Return|].
  cbn [processAgents].
  apply beforeSave_bind; [apply beforeSave_collectFeedbackForAgent|]. intro collected.
  apply beforeSave_bind; [|intro; apply IH].
  destruct (Scoring.scoreFeedbackDetailed _ _ _ _ _);
    [apply beforeSave_Return | apply beforeSave_failAt; discriminate].
Qed.

(** What a plan records, read back from [planCycle]. *)
Lemma planCycle_inv (env : Env) (config : IndexerConfig) (nowMs : Q)
    (files : FileSystem) (plan : Plan) :
  planCycle StringToNumber Date_parse env config nowMs files = Return plan ->
  exists checkpoint zs,
    loadCheckpoint (faults env) files = Return checkpoint
    /\ getBlockNumber env = Return (plan_latestBlock plan)
    /\ plan_fromBlock plan
       = match lastProcessedBlock checkpoint with
         | Some b => b
         | None => Z.max (startBlock config - 1) 0
         end + 1
    /\ (if plan_fromBlock plan <=? plan_latestBlock plan
        then queryFeedbackLogs env (plan_fromBlock plan) (plan_latestBlock plan)
        else Return []) = Return (plan_newlyObservedLogs plan)
    /\ toBigInts (dirtyAgentIds checkpoint (plan_newlyObservedLogs plan)) = Return zs
    /\ plan_sortedDirtyAgents plan = Array_sort ascending zs
    /\ agentIds (plan_batch plan)
       = slice_to (maxBatchSize config) (plan_sortedDirtyAgents plan)
    /\ plan_queuedAgentIds plan
       = map BigIntText.toString
           (slice_from (maxBatchSize config) (plan_sortedDirtyAgents plan)).
Proof.
  unfold planCycle.
  destruct (loadCheckpoint (faults env) files) as [checkpoint|]; cbn [bind];
    [|discriminate].
  destruct (getBlockNumber env) as [latest|]; cbn [bind rpcCall]; [|discriminate].
  match goal with
  | |- context [bind ?m _] => destruct m as [logs|] eqn:Hlogs
  end; cbn [bind]; [|discriminate].
  destruct (toBigInts (dirtyAgentIds checkpoint logs)) as [zs|] eqn:Hzs;
    cbn [bind exnAt]; [|discriminate].
  destruct (processAgents _ _ _ _ _ _ _ _ _) as [batch|] eqn:P; cbn [bind];
    [|discriminate].
  intro H. injection H as <-. exists checkpoint, zs. cbn.
  repeat split; try assumption. apply processAgents_ids in P. exact P.
Qed.

Lemma beforeSave_planCycle (env : Env) (config : IndexerConfig) (nowMs : Q)
    (files : FileSystem) :
  beforeSave (planCycle StringToNumber Date_parse env config nowMs files).
Proof.
  unfold planCycle.
  apply beforeSave_bind.
  { destruct (loadCheckpoint (faults env) files);
      [apply beforeSave_Return | apply beforeSave_failAt; discriminate]. }
  intro checkpoint.
  apply beforeSave_bind; [apply beforeSave_rpcCall; discriminate|]. intro latest.
  apply beforeSave_bind.
  { match goal with |- context [if ?c then _ else _] => destruct c end;
      [apply beforeSave_queryBothFilters; discriminate | apply beforeSave_Return]. }
  intro logs.
  apply beforeSave_bind.
  { destruct (toBigInts (dirtyAgentIds checkpoint logs));
      [apply beforeSave_Return | apply beforeSave_failAt; discriminate]. }
  intro zs.
  apply beforeSave_bind; [apply beforeSave_processAgents|]. intro batch.
  apply beforeSave_Return.
Qed.

(** C5. A cycle that throws is blamed on [saveCheckpoint] exactly when
    every step before it, up to and including the wait for the receipt of
    the batch transaction, has succeeded. A cycle that throws at one of those
    steps writes no file: the file system, and so the stored checkpoint, is
    what it was before the cycle. Whatever the step at which a cycle throws,
    the checkpoint file itself is unchanged and loads as before. *)
Theorem failed_cycle_keeps_checkpoint (env : Env) (configOverrides : ConfigOverrides)
    (nowMs : Q) (world world' : World) (failure : Failure) :
  runIndexerCycle StringToNumber Date_parse env configOverrides nowMs world
    = (world', Throw failure) ->
  (failedAt failure = SaveCheckpoint <->
     exists plan world1 txHashes,
       (config <- openCycle StringToNumber env configOverrides ;;
        planCycle StringToNumber Date_parse env config nowMs (fs world)) = Return plan
       /\ submitBatch env world (plan_batch plan) = (world1, Return txHashes))
  /\ (failedAt failure <> SaveCheckpoint -> fs world' = fs world)
  /\ checkpointFile (fs world') = checkpointFile (fs world)
  /\ (forall faults', loadCheckpoint faults' (fs world') = loadCheckpoint faults' (fs world)).
Proof.
  unfold runIndexerCycle.
  destruct (bind (openCycle _ _ _) _) as [plan|f] eqn:P.
  2:{ intro H. injection H as <- <-. split; [|repeat split].
      split; [|intros (plan & world1 & hashes & C & _); discriminate].
      intro C. exfalso. revert C. refine (_ f P).
      apply beforeSave_bind; [apply beforeSave_openCycle|].
      intro config. apply beforeSave_planCycle. }
  destruct (submitBatch env world (plan_batch plan)) as [world1 [hashes|f]] eqn:S.
  2:{ intro H. injection H as <- <-. rewrite (submitBatch_files _ _ _ S).
      split; [|repeat split].
      split; [intro C; exfalso; exact (submitBatch_beforeSave _ _ _ S C)|].
      intros (plan' & world1' & hashes' & C & S'). injection C as <-.
      rewrite S in S'. discriminate. }
  destruct (saveCheckpoint _ _ _) as [files [u|e]] eqn:V; [discriminate|].
  intro H. injection H as <- <-. cbn [fs failedAt failAt].
  pose proof (saveCheckpoint_keeps_checkpointFile _ _ _ V) as K.
  rewrite (submitBatch_files _ _ _ S) in K.
  split; [split; [intros _; now exists plan, world1, hashes | reflexivity]|].
  split; [congruence|]. split; [exact K|].
  intro faults'. unfold loadCheckpoint, readFile. now rewrite K.
Qed.

(** C4. A cycle that completes processes the [maxBatchSize] numerically
    smallest identifiers of its dirty set and stores the others as
    [pendingAgentIds]; the next cycle loads exactly those, so every dirty
    agent that was not processed is in the next dirty set whatever the new
    events are. With two dirty agents and [maxBatchSize = 1], the first
    cycle processes one agent and queues one, and the second, without new
    events, processes the queued agent and leaves none pending. *)
Theorem overflow_is_queued :
  (forall env configOverrides nowMs world world' result,
     runIndexerCycle StringToNumber Date_parse env configOverrides nowMs world
       = (world', Return result) ->
     exists config checkpoint logs sortedDirty,
       let batchSize := Z.to_nat (maxBatchSize config) in
       resolveRuntimeConfig StringToNumber env configOverrides = Return config
       /\ (0 < batchSize)%nat
       /\ loadCheckpoint (faults env) (fs world) = Return checkpoint
       /\ getBlockNumber env = Return (latestBlock result)
       /\ (if fromBlock result <=? latestBlock result
           then queryFeedbackLogs env (fromBlock result) (latestBlock result)
           else Return []) = Return logs
       /\ Permutation (map BigIntText.toString sortedDirty) (dirtyAgentIds checkpoint logs)
       /\ StronglySorted Z.lt sortedDirty
       /\ processedAgentIds result = map BigIntText.toString (firstn batchSize sortedDirty)
       /\ queuedAgentIds result = map BigIntText.toString (skipn batchSize sortedDirty)
       /\ (forall p q,
             In p (firstn batchSize sortedDirty) ->
             In q (skipn batchSize sortedDirty) -> p < q)
       /\ (forall faults',
             readFile_fault faults' = None ->
             exists checkpoint',
               loadCheckpoint faults' (fs world') = Return checkpoint'
               /\ pendingAgentIds checkpoint' = queuedAgentIds result
               /\ forall logs' id,
                    In id (dirtyAgentIds checkpoint logs) ->
                    ~ In id (processedAgentIds result) ->
                    In id (dirtyAgentIds checkpoint' logs')))
  /\ (exists first second,
        runIndexerCycle StringToNumber Date_parse CycleFixtures.busyEnv
          CycleFixtures.oneAtATime ScoringFixtures.testNowMs CycleFixtures.freshWorld
        = (CycleFixtures.afterFirstCycle, Return first)
        /\ processedAgentCount first = 1 /\ queuedAgentCount first = 1
        /\ dirtyAgentCount first = 2
        /\ processedAgentIds first = ["3"] /\ queuedAgentIds first = ["7"]
        /\ loadCheckpoint noFaults (fs CycleFixtures.afterFirstCycle)
           = Return {| lastProcessedBlock := Some 10; pendingAgentIds := ["7"] |}
        /\ exists final,
             runIndexerCycle StringToNumber Date_parse CycleFixtures.quietEnv
               CycleFixtures.oneAtATime ScoringFixtures.testNowMs
               CycleFixtures.afterFirstCycle
             = (final, Return second)
             /\ newEventCount second = 0
             /\ processedAgentCount second = 1 /\ queuedAgentCount second = 0
             /\ processedAgentIds second = ["7"] /\ queuedAgentIds second = []
             /\ loadCheckpoint noFaults (fs final)
                = Return {| lastProcessedBlock := Some 10; pendingAgentIds := [] |}).
Proof.
  split.
  - intros env configOverrides nowMs world world' result. unfold runIndexerCycle.
    destruct (openCycle StringToNumber env configOverrides) as [config|] eqn:O;
      cbn [bind]; [|discriminate].
    apply openCycle_inv in O.
    pose proof (resolveRuntimeConfig_batch_positive _ _ O) as N.
    destruct (planCycle _ _ _ _ _ _) as [plan|f] eqn:P; [|discriminate].
    destruct (submitBatch env world (plan_batch plan)) as [world1 [hashes|f]] eqn:S;
      [|discriminate].
    destruct (saveCheckpoint _ _ _) as [files [u|e]] eqn:V; [|discriminate].
    intro H. injection H as <- <-.
    cbn [fs processedAgentIds queuedAgentIds fromBlock latestBlock].
    destruct (planCycle_inv _ _ _ _ P)
      as (checkpoint & zs & L & Head & From & Logs & Hzs & Srt & Ids & Q).
    pose proof (loadCheckpoint_wellFormed _ _ L) as W.
    destruct (dirtyAgentIds_spec (plan_newlyObservedLogs plan) W) as [[DN DC] DI].
    destruct (toBigInts_canonical DC) as (zs' & Hzs' & M & Pos).
    rewrite Hzs in Hzs'. injection Hzs' as <-.
    set (sorted := plan_sortedDirtyAgents plan) in *.
    assert (Perm : Permutation zs sorted) by (rewrite Srt; apply Array_sort_perm).
    assert (NDz : NoDup zs).
    { apply (NoDup_map_inv BigIntText.toString). now rewrite M. }
    assert (SS : StronglySorted Z.lt sorted).
    { apply sorted_distinct_strict; [rewrite Srt; apply Array_sort_sorted|].
      exact (Permutation_NoDup Perm NDz). }
    assert (PosS : Forall (fun z => 0 <= z) sorted)
      by exact (Permutation_Forall Perm Pos).
    set (n := Z.to_nat (maxBatchSize config)) in *.
    assert (Split : sorted = (firstn n sorted ++ skipn n sorted)%list)
      by (symmetry; apply firstn_skipn).
    assert (QC : Forall canonical (plan_queuedAgentIds plan)).
    { rewrite Q. unfold slice_from. fold n. apply Forall_forall. intros s Hs.
      apply in_map_iff in Hs as (z & <- & Hz). exists z. split; [|reflexivity].
      rewrite Forall_forall in PosS. apply PosS. rewrite Split.
      apply in_or_app. now right. }
    assert (QD : NoDup (plan_queuedAgentIds plan)).
    { rewrite Q. unfold slice_from. fold n.
      assert (ND : NoDup (map BigIntText.toString sorted)).
      { eapply Permutation_NoDup; [apply Permutation_map, Perm|]. now rewrite M. }
      rewrite Split, map_app in ND. exact (NoDup_app_remove_l _ _ ND). }
    exists config, checkpoint, (plan_newlyObservedLogs plan), sorted. cbv zeta. fold n.
    split; [exact O|].
    split; [unfold n; lia|].
    split; [exact L|].
    split; [exact Head|].
    split; [exact Logs|].
    split; [rewrite <- M; symmetry; now apply Permutation_map|].
    split; [exact SS|].
    split; [now rewrite Ids|].
    split; [exact Q|].
    split; [intros p q; apply sorted_split; now rewrite <- Split|].
    intros faults' F.
    (* the file the save left behind *)
    unfold saveCheckpoint in V.
    rewrite (normalizeCheckpoint_saved _ QC QD) in V.
    destruct (mkdir_fault (faults env)); [discriminate|].
    destruct (writeFile_fault (faults env)); [discriminate|].
    destruct (rename_fault (faults env)); [discriminate|].
    injection V as <-. cbn [tmpFile].
    eexists. split; [apply load_saved; try assumption|].
    + intros z. destruct (0 <=? plan_latestBlock plan) eqn:B; [|discriminate].
      intro Hb. injection Hb as <-. now apply Z.leb_le.
    + cbn [pendingAgentIds]. split; [reflexivity|].
      intros logs' id Hid Hnp.
      set (checkpoint' := {| lastProcessedBlock := _; pendingAgentIds := _ |}).
      assert (W' : wellFormed checkpoint').
      { split; cbn; [|exact QC | exact QD].
        intros z. destruct (0 <=? plan_latestBlock plan) eqn:B; [|discriminate].
        intro Hb. injection Hb as <-. now apply Z.leb_le. }
      apply (proj2 (dirtyAgentIds_spec logs' W')). cbn [pendingAgentIds checkpoint'].
      rewrite Q. unfold slice_from. fold n.
      rewrite <- M in Hid. apply in_map_iff in Hid as (z & <- & Hz).
      apply in_map. apply (Permutation_in _ Perm) in Hz. rewrite Split in Hz.
      apply in_app_or in Hz as [Hz|Hz]; [|exact Hz].
      exfalso. apply Hnp. rewrite Ids. unfold slice_to. fold n. now apply in_map.
  - eexists. eexists. split; [vm_compute; reflexivity|].
    repeat split; try (vm_compute; reflexivity).
    eexists. split; [vm_compute; reflexivity|].
    repeat split; vm_compute; reflexivity.
Qed.

End Builtins.

Import CycleFixtures ScoringFixtures.

Lemma failed_cycle_witness :
  exists world' failure,
    runIndexerCycle noText noText lostReceiptEnv oneAtATime testNowMs freshWorld
      = (world', Throw failure)
    /\ failedAt failure = WaitReceipt
    /\ mined world' = [{| agentIds := [3]; scores := [1000]; totals := [1]; positives := [1] |}]
    /\ (failedAt failure = SaveCheckpoint <->
          exists plan world1 txHashes,
            (config <- openCycle noText lostReceiptEnv oneAtATime ;;
             planCycle noText noText lostReceiptEnv config testNowMs (fs freshWorld))
            = Return plan
            /\ submitBatch lostReceiptEnv freshWorld (plan_batch plan)
               = (world1, Return txHashes))
    /\ (failedAt failure <> SaveCheckpoint -> fs world' = fs freshWorld)
    /\ checkpointFile (fs world') = checkpointFile (fs freshWorld)
    /\ (forall faults',
          loadCheckpoint faults' (fs world') = loadCheckpoint faults' (fs freshWorld)).
Proof.
  eexists. eexists. split; [vm_compute; reflexivity|]. split; [reflexivity|].
  split; [reflexivity|].
  apply (@failed_cycle_keeps_checkpoint noText noText lostReceiptEnv oneAtATime testNowMs
           freshWorld).
  vm_compute. reflexivity.
Defined.

Lemma overflow_is_queued_witness :
  exists result,
    runIndexerCycle noText noText busyEnv oneAtATime testNowMs freshWorld
      = (afterFirstCycle, Return result)
    /\ exists config checkpoint logs sortedDirty,
         resolveRuntimeConfig noText busyEnv oneAtATime = Return config
         /\ (0 < Z.to_nat (maxBatchSize config))%nat
         /\ loadCheckpoint (faults busyEnv) (fs freshWorld) = Return checkpoint
         /\ getBlockNumber busyEnv = Return (latestBlock result)
         /\ (if fromBlock result <=? latestBlock result
             then queryFeedbackLogs busyEnv (fromBlock result) (latestBlock result)
             else Return []) = Return logs
         /\ Permutation (map BigIntText.toString sortedDirty)
              (dirtyAgentIds checkpoint logs)
         /\ StronglySorted Z.lt sortedDirty
         /\ processedAgentIds result
            = map BigIntText.toString
                (firstn (Z.to_nat (maxBatchSize config)) sortedDirty)
         /\ queuedAgentIds result
            = map BigIntText.toString
                (skipn (Z.to_nat (maxBatchSize config)) sortedDirty)
         /\ (forall p q,
               In p (firstn (Z.to_nat (maxBatchSize config)) sortedDirty) ->
               In q (skipn (Z.to_nat (maxBatchSize config)) sortedDirty) -> p < q)
         /\ (forall faults',
               readFile_fault faults' = None ->
               exists checkpoint',
                 loadCheckpoint faults' (fs afterFirstCycle) = Return checkpoint'
                 /\ pendingAgentIds checkpoint' = queuedAgentIds result
                 /\ forall logs' id,
                      In id (dirtyAgentIds checkpoint logs) ->
                      ~ In id (processedAgentIds result) ->
                      In id (dirtyAgentIds checkpoint' logs')).
Proof.
  eexists. split; [vm_compute; reflexivity|].
  apply (proj1 (overflow_is_queued noText noText) busyEnv oneAtATime testNowMs
           freshWorld afterFirstCycle).
  vm_compute. reflexivity.
Defined.

End CycleProps.

Module NumberFacts.

Local Unset Implicit Arguments.

Import JS.
Local Open Scope Q_scope.

Lemma Math_round_of (x y : Q) : x == y -> Math_round x = Math_round y.
Proof. intro E. unfold Math_round. now rewrite E. Qed.

End NumberFacts.

(* ------------------------------------------------------------------ *)
(** * The score contract *)
(* ------------------------------------------------------------------ *)

Module TrustScoreProps.

Local Unset Implicit Arguments.

Import JS TrustScore TrustScoreSpec.
Local Open Scope N_scope.

(** ** What each function leaves alone *)

Lemma nonpayable_inv {A} (m : Msg) (body : outcome Revert A) (a : A) :
  nonpayable m body = Return a -> value m = 0 /\ body = Return a.
Proof.
  unfold nonpayable. destruct (value m =? 0) eqn:E; [|discriminate].
  apply N.eqb_eq in E. now split.
Qed.

Lemma onlyUpdater_inv {A} (st : State) (m : Msg) (body : outcome Revert A) (a : A) :
  onlyUpdater st m body = Return a -> sender m = updater st /\ body = Return a.
Proof.
  unfold onlyUpdater. destruct (sender m =? updater st) eqn:E; [|discriminate].
  apply N.eqb_eq in E. now split.
Qed.

Lemma onlyOwner_inv {A} (st : State) (m : Msg) (body : outcome Revert A) (a : A) :
  onlyOwner st m body = Return a -> sender m = _owner st /\ body = Return a.
Proof.
  unfold onlyOwner. destruct (_owner st =? sender m) eqn:E; [|discriminate].
  apply N.eqb_eq in E. now split.
Qed.

(** What a successful [_validateAndUpdate] has checked and written. *)
Lemma validateAndUpdate_inv (env : Env) (st st' : State) (m : Msg)
    (agentId newScore totalFb posFb : uint256) :
  _validateAndUpdate env st m agentId newScore totalFb posFb = Return st' ->
  newScore <= MAX_SCORE /\ posFb <= totalFb
  /\ (exists a, ownerOf env (identityRegistry st) agentId = Answers a /\ a <> zeroAddress)
  /\ st' = emit (ScoreUpdated agentId newScore (timestamp m))
             (store agentId
                {| score := newScore; totalFeedback := totalFb;
                   positiveFeedback := posFb; lastUpdated := timestamp m;
                   exists_ := true |} st).
Proof.
  unfold _validateAndUpdate, _assertRegistered.
  destruct (MAX_SCORE <? newScore) eqn:S; [discriminate|].
  destruct (totalFb <? posFb) eqn:T; [discriminate|].
  apply N.ltb_ge in S, T.
  destruct (ownerOf env (identityRegistry st) agentId) as [a| |]; cbn [bind];
    try discriminate.
  destruct (a =? zeroAddress) eqn:Z; cbn [bind]; [discriminate|].
  apply N.eqb_neq in Z. intro H. injection H as <-.
  repeat split; try assumption. now exists a.
Qed.

Lemma validateAndUpdate_sound (env : Env) (st st' : State) (m : Msg)
    (agentId newScore totalFb posFb : uint256) :
  sound st ->
  _validateAndUpdate env st m agentId newScore totalFb posFb = Return st' ->
  sound st'.
Proof.
  intros [U R V] H. apply validateAndUpdate_inv in H as (S & T & _ & ->).
  split; cbn; try assumption.
  intro id. destruct (id =? agentId); cbn; [now split | apply V].
Qed.

Lemma validateAndUpdate_admin (env : Env) (st st' : State) (m : Msg)
    (agentId newScore totalFb posFb : uint256) :
  _validateAndUpdate env st m agentId newScore totalFb posFb = Return st' ->
  _owner st' = _owner st /\ updater st' = updater st /\ queryFee st' = queryFee st
  /\ identityRegistry st' = identityRegistry st /\ balance st' = balance st.
Proof.
  intro H. apply validateAndUpdate_inv in H as (_ & _ & _ & ->). now cbn.
Qed.

Lemma batchLoop_sound (env : Env) (m : Msg) (agentIds scores totals positives : list uint256)
    (todo : nat) :
  forall i st st',
  sound st ->
  batchLoop env m agentIds scores totals positives todo i st = Return st' ->
  sound st'.
Proof.
  induction todo as [|todo IH]; intros i st st' S H; cbn [batchLoop] in H.
  - now injection H as <-.
  - destruct (_validateAndUpdate _ _ _ _ _ _ _) as [st1|] eqn:V; cbn [bind] in H;
      [|discriminate].
    eapply IH; [eapply validateAndUpdate_sound; eassumption | exact H].
Qed.

Lemma batchLoop_admin (env : Env) (m : Msg) (agentIds scores totals positives : list uint256)
    (todo : nat) :
  forall i st st',
  batchLoop env m agentIds scores totals positives todo i st = Return st' ->
  _owner st' = _owner st /\ updater st' = updater st /\ queryFee st' = queryFee st
  /\ identityRegistry st' = identityRegistry st /\ balance st' = balance st.
Proof.
  induction todo as [|todo IH]; intros i st st' H; cbn [batchLoop] in H.
  - now injection H as <-.
  - destruct (_validateAndUpdate _ _ _ _ _ _ _) as [st1|] eqn:V; cbn [bind] in H;
      [|discriminate].
    destruct (validateAndUpdate_admin _ _ _ _ _ _ _ _ V) as (a & b & c & d & e).
    destruct (IH _ _ _ H) as (a' & b' & c' & d' & e').
    repeat split; congruence.
Qed.

(** The cases of a call that returns. *)
Ltac returned H :=
  apply nonpayable_inv in H as [?Hvalue H];
  first [ apply onlyUpdater_inv in H as [?Hsender H]
        | apply onlyOwner_inv in H as [?Hsender H]
        | idtac ].

Lemma run_sound (env : Env) (st st' : State) (m : Msg) (call : Call) :
  sound st -> run env st m call = Return st' -> sound st'.
Proof.
  intros S H. destruct call; cbn [run] in H.
  - unfold getDetailedReportPaid in H.
    destruct (value m <? queryFee (receive m st)); cbn [bind] in H; [discriminate|].
    destruct (exists_ (_scores (receive m st) agentId)); cbn [bind negb] in H;
      [|discriminate].
    injection H as <-. destruct S. now split.
  - unfold updateScore in H. returned H. eapply validateAndUpdate_sound; eassumption.
  - unfold batchUpdateScores in H. returned H.
    destruct (_ || _); [discriminate|]. eapply batchLoop_sound; eassumption.
  - unfold setUpdater in H. returned H.
    destruct (newUpdater =? zeroAddress) eqn:Z; [discriminate|].
    apply N.eqb_neq in Z. injection H as <-. destruct S. now split.
  - unfold setFee in H. returned H. injection H as <-. destruct S. now split.
  - unfold setIdentityRegistry in H. returned H.
    destruct (newRegistry =? zeroAddress) eqn:Z; [discriminate|].
    apply N.eqb_neq in Z. injection H as <-. destruct S. now split.
  - unfold withdraw in H. returned H.
    destruct (accepts env (_owner st) (balance st)); [|discriminate].
    injection H as <-. destruct S. now split.
  - unfold transferOwnership in H. returned H.
    destruct (newOwner =? zeroAddress); [discriminate|].
    injection H as <-. destruct S. now split.
  - unfold renounceOwnership in H. returned H. injection H as <-. destruct S. now split.
Qed.

Lemma constructor_sound (m : Msg) (initialOwner identityRegistry_ updater_ : address)
    (queryFee_ : uint256) (st : State) :
  constructor m initialOwner identityRegistry_ updater_ queryFee_ = Return st -> sound st.
Proof.
  unfold constructor. intro H. apply nonpayable_inv in H as [_ H].
  destruct (initialOwner =? zeroAddress); [discriminate|]. cbn [orb] in H.
  destruct (identityRegistry_ =? zeroAddress) eqn:R; [discriminate|].
  destruct (updater_ =? zeroAddress) eqn:U; [discriminate|]. cbn [orb] in H.
  apply N.eqb_neq in R, U. injection H as <-. now split.
Qed.

(** X1. In every state the contract reaches, whoever has called it and
    whatever the registry has answered, the updater and the registry are not
    the zero address, every record that exists has a score of at most
    [MAX_SCORE] and no more positive than total feedback, and every other
    key still holds the empty record. *)
Theorem reachable_states_are_sound (st : State) : reachable st -> sound st.
Proof.
  induction 1 as [m o r u f st H | env st m call R IH].
  - eapply constructor_sound; eassumption.
  - unfold transact. destruct (run env st m call) as [st'|] eqn:E; [|exact IH].
    eapply run_sound; eassumption.
Qed.

(** ** Who may change what *)

Lemma validateAndUpdate_others (env : Env) (st st' : State) (m : Msg)
    (agentId newScore totalFb posFb : uint256) :
  _validateAndUpdate env st m agentId newScore totalFb posFb = Return st' ->
  _scores st' agentId
  = {| score := newScore; totalFeedback := totalFb; positiveFeedback := posFb;
       lastUpdated := timestamp m; exists_ := true |}
  /\ forall other, other <> agentId -> _scores st' other = _scores st other.
Proof.
  intro H. apply validateAndUpdate_inv in H as (_ & _ & _ & ->). cbn. split.
  - now rewrite N.eqb_refl.
  - intros other N. apply N.eqb_neq in N. now rewrite N.
Qed.

(** X2. A call that returns has changed a score only if the updater sent
    it, and has changed the owner, the updater, the fee or the registry, or
    lowered the balance, only if the owner sent it. *)
Theorem writes_need_authority (env : Env) (st st' : State) (m : Msg) (call : Call) :
  run env st m call = Return st' ->
  (sender m <> updater st -> forall agentId, _scores st' agentId = _scores st agentId)
  /\ (sender m <> _owner st ->
        _owner st' = _owner st /\ updater st' = updater st /\ queryFee st' = queryFee st
        /\ identityRegistry st' = identityRegistry st /\ balance st <= balance st').
Proof.
  intro H. destruct call; cbn [run] in H.
  - unfold getDetailedReportPaid in H.
    destruct (value m <? queryFee (receive m st)); cbn [bind] in H; [discriminate|].
    destruct (exists_ (_scores (receive m st) agentId)); cbn [bind negb] in H;
      [|discriminate].
    injection H as <-. cbn. repeat split. lia.
  - unfold updateScore in H. returned H. split; [congruence|]. intros _.
    destruct (validateAndUpdate_admin _ _ _ _ _ _ _ _ H) as (a & b & c & d & e).
    repeat split; try assumption. lia.
  - unfold batchUpdateScores in H. returned H. split; [congruence|]. intros _.
    destruct (_ || _); [discriminate|].
    destruct (batchLoop_admin _ _ _ _ _ _ _ _ _ _ H) as (a & b & c & d & e).
    repeat split; try assumption. lia.
  - unfold setUpdater in H. returned H. split; [|congruence]. intros _ id.
    destruct (newUpdater =? zeroAddress); [discriminate|]. now injection H as <-.
  - unfold setFee in H. returned H. split; [|congruence]. intros _ id.
    now injection H as <-.
  - unfold setIdentityRegistry in H. returned H. split; [|congruence]. intros _ id.
    destruct (newRegistry =? zeroAddress); [discriminate|]. now injection H as <-.
  - unfold withdraw in H. returned H. split; [|congruence]. intros _ id.
    destruct (accepts env (_owner st) (balance st)); [|discriminate].
    now injection H as <-.
  - unfold transferOwnership in H. returned H. split; [|congruence]. intros _ id.
    destruct (newOwner =? zeroAddress); [discriminate|]. now injection H as <-.
  - unfold renounceOwnership in H. returned H. split; [|congruence]. intros _ id.
    now injection H as <-.
Qed.

(** ** Batches *)

Lemma batchLoop_shift (env : Env) (m : Msg) (a s t p : uint256)
    (agentIds scores totals positives : list uint256) (todo : nat) :
  forall i st,
  batchLoop env m (a :: agentIds) (s :: scores) (t :: totals) (p :: positives) todo (S i) st
  = batchLoop env m agentIds scores totals positives todo i st.
Proof.
  induction todo as [|todo IH]; intros i st; cbn [batchLoop]; [reflexivity|].
  cbn [nth]. destruct (_validateAndUpdate _ _ _ _ _ _ _); cbn [bind]; [apply IH | reflexivity].
Qed.

Lemma updateScore_authorized (env : Env) (st : State) (m : Msg)
    (agentId newScore totalFb posFb : uint256) :
  sender m = updater st -> value m = 0 ->
  updateScore env st m agentId newScore totalFb posFb
  = _validateAndUpdate env st m agentId newScore totalFb posFb.
Proof.
  intros S V. unfold updateScore, nonpayable, onlyUpdater.
  now rewrite V, S, !N.eqb_refl.
Qed.

Lemma batchLoop_oneByOne (env : Env) (m : Msg) (agentIds : list uint256) :
  forall scores totals positives st,
  sender m = updater st -> value m = 0 ->
  List.length scores = List.length agentIds ->
  List.length totals = List.length agentIds ->
  List.length positives = List.length agentIds ->
  batchLoop env m agentIds scores totals positives (List.length agentIds) 0 st
  = oneByOne env m (items agentIds scores totals positives) st.
Proof.
  induction agentIds as [|a agentIds IH]; intros scores totals positives st S V Ls Lt Lp.
  - reflexivity.
  - destruct scores as [|s scores]; [discriminate|].
    destruct totals as [|t totals]; [discriminate|].
    destruct positives as [|p positives]; [discriminate|].
    cbn [List.length batchLoop nth items oneByOne item_agentId item_score item_total
           item_positive].
    rewrite (updateScore_authorized _ _ _ _ _ _ _ S V).
    destruct (_validateAndUpdate env st m a s t p) as [st1|] eqn:E; cbn [bind];
      [|reflexivity].
    rewrite batchLoop_shift. apply IH; try (cbn in *; lia); try assumption.
    destruct (validateAndUpdate_admin _ _ _ _ _ _ _ _ E) as (_ & U & _). congruence.
Qed.

(** X3. Sent by the updater, a batch whose four arrays have one length does
    what [updateScore] does when called for each index in turn, up to the
    first call that reverts, and a batch whose arrays differ in length
    reverts with [ArrayLengthMismatch]; a batch that reverts leaves the
    state as it was, whatever the calls before the failing one would have
    written. *)
Theorem batch_is_updates_in_order (env : Env) (st : State) (m : Msg)
    (agentIds scores totals positives : list uint256) :
  sender m = updater st -> value m = 0 ->
  (List.length scores = List.length agentIds
   /\ List.length totals = List.length agentIds
   /\ List.length positives = List.length agentIds ->
   batchUpdateScores env st m agentIds scores totals positives
   = oneByOne env m (items agentIds scores totals positives) st)
  /\ (List.length scores <> List.length agentIds
      \/ List.length totals <> List.length agentIds
      \/ List.length positives <> List.length agentIds ->
      batchUpdateScores env st m agentIds scores totals positives
      = Throw ArrayLengthMismatch)
  /\ (forall reason,
        batchUpdateScores env st m agentIds scores totals positives = Throw reason ->
        transact env st m (BatchUpdateScores agentIds scores totals positives) = st).
Proof.
  intros S V. unfold batchUpdateScores at 1 2, nonpayable, onlyUpdater.
  rewrite V, S, !N.eqb_refl. cbn [negb]. repeat split.
  - intros (Ls & Lt & Lp).
    rewrite (proj2 (Nat.eqb_eq _ _) (eq_sym Ls)), (proj2 (Nat.eqb_eq _ _) (eq_sym Lt)),
      (proj2 (Nat.eqb_eq _ _) (eq_sym Lp)).
    cbn [negb orb]. now apply batchLoop_oneByOne.
  - intros H.
    destruct (Nat.eqb (List.length agentIds) (List.length scores)) eqn:Es;
      [|reflexivity].
    destruct (Nat.eqb (List.length agentIds) (List.length totals)) eqn:Et;
      [|reflexivity].
    destruct (Nat.eqb (List.length agentIds) (List.length positives)) eqn:Ep;
      [|reflexivity].
    apply Nat.eqb_eq in Es, Et, Ep. exfalso. lia.
  - intros reason H. unfold transact. cbn [run]. now rewrite H.
Qed.

(** ** Reading what was written *)

Lemma find_append {A} (f : A -> bool) (l1 l2 : list A) :
  find f (l1 ++ l2) = match find f l1 with Some x => Some x | None => find f l2 end.
Proof.
  induction l1 as [|x l1 IH]; cbn; [reflexivity|]. now destruct (f x).
Qed.

Lemma oneByOne_reads (env : Env) (m : Msg) (l : list Item) :
  forall st st',
  oneByOne env m l st = Return st' ->
  forall agentId,
  _scores st' agentId
  = match lastFor agentId l with
    | Some i => {| score := item_score i; totalFeedback := item_total i;
                   positiveFeedback := item_positive i; lastUpdated := timestamp m;
                   exists_ := true |}
    | None => _scores st agentId
    end.
Proof.
  unfold lastFor. induction l as [|i rest IH]; intros st st' H agentId; cbn [oneByOne] in H.
  - now injection H as <-.
  - destruct (updateScore env st m _ _ _ _) as [st1|] eqn:U; cbn [bind] in H;
      [|discriminate].
    rewrite (IH _ _ H agentId). cbn [rev]. rewrite find_append.
    destruct (find _ (rev rest)); [reflexivity|]. cbn [find].
    unfold updateScore in U. returned U.
    destruct (validateAndUpdate_others _ _ _ _ _ _ _ _ U) as [Here Others].
    destruct (item_agentId i =? agentId) eqn:E.
    + apply N.eqb_eq in E. subst agentId. exact Here.
    + apply N.eqb_neq in E. apply Others. congruence.
Qed.

(** X4. After a batch that returns, every agent of the batch reads back
    the score and the counts of the last item that names it, stamped with
    the time of the batch, and every other agent reads as before; an agent
    that has no record reads [ScoreNotFound]. *)
Theorem batch_then_read (env : Env) (st st' : State) (m m' : Msg)
    (agentIds scores totals positives : list uint256) :
  batchUpdateScores env st m agentIds scores totals positives = Return st' ->
  value m' = 0 ->
  forall agentId,
    match lastFor agentId (items agentIds scores totals positives) with
    | Some i =>
        getDetailedReport st' m' agentId
        = Return {| score := item_score i; totalFeedback := item_total i;
                    positiveFeedback := item_positive i; lastUpdated := timestamp m;
                    exists_ := true |}
        /\ getScore st' m' agentId = Return (item_score i)
    | None =>
        getDetailedReport st' m' agentId = getDetailedReport st m' agentId
        /\ getScore st' m' agentId = getScore st m' agentId
    end
    /\ (exists_ (_scores st' agentId) = false ->
        getScore st' m' agentId = Throw (ScoreNotFound agentId)
        /\ getDetailedReport st' m' agentId = Throw (ScoreNotFound agentId)).
Proof.
  intros H V agentId.
  assert (R : _scores st' agentId
              = match lastFor agentId (items agentIds scores totals positives) with
                | Some i => {| score := item_score i; totalFeedback := item_total i;
                               positiveFeedback := item_positive i;
                               lastUpdated := timestamp m; exists_ := true |}
                | None => _scores st agentId
                end).
  { pose proof H as H'. unfold batchUpdateScores in H'. returned H'.
    destruct (_ || _) eqn:L; [discriminate|].
    apply orb_false_elim in L as [L Lp]. apply orb_false_elim in L as [Ls Lt].
    apply negb_false_iff, Nat.eqb_eq in Ls, Lt, Lp.
    rewrite batchLoop_oneByOne in H' by (try assumption; symmetry; assumption).
    exact (oneByOne_reads _ _ _ _ _ H' agentId). }
  unfold getDetailedReport, getScore, nonpayable. rewrite V, N.eqb_refl. split.
  - rewrite R. destruct (lastFor _ _); cbn; split; reflexivity.
  - intros E. now rewrite E.
Qed.

(** ** Paid reads *)

(** X5. A paid report that comes with less than the fee reverts with
    [InsufficientFee], before the agent is looked up; with the fee or more it
    returns what the free report returns, keeps all the ether sent, emits
    [ScoreQueried] and changes nothing else. *)
Theorem paid_report_is_the_free_report (st : State) (m : Msg) (agentId : uint256) :
  let free := {| sender := sender m; value := 0; timestamp := timestamp m |} in
  (value m < queryFee st ->
   getDetailedReportPaid st m agentId
   = Throw (InsufficientFee (value m) (queryFee st)))
  /\ (queryFee st <= value m ->
      match getDetailedReport st free agentId with
      | Return record =>
          exists st',
            getDetailedReportPaid st m agentId = Return (st', record)
            /\ balance st' = balance st + value m
            /\ events st' = events st ++ [ScoreQueried agentId (sender m)]
            /\ _scores st' = _scores st /\ _owner st' = _owner st
            /\ updater st' = updater st /\ queryFee st' = queryFee st
            /\ identityRegistry st' = identityRegistry st
      | Throw reason => getDetailedReportPaid st m agentId = Throw reason
      end).
Proof.
  cbv zeta. unfold getDetailedReportPaid, getDetailedReport, nonpayable.
  cbn [value N.eqb receive queryFee _scores]. split.
  - intro L. apply N.ltb_lt in L. now rewrite L.
  - intro L. apply N.ltb_ge in L. rewrite L.
    destruct (exists_ (_scores st agentId)); cbn [negb]; [|reflexivity].
    eexists. split; [reflexivity|]. now cbn.
Qed.

(** ** The properties at the accounts of the tests *)

Import TrustScoreFixtures.

Lemma reachable_states_are_sound_witness :
  sound (transact testEnv fresh (from 2) (UpdateScore 1 950 10 9)).
Proof.
  apply reachable_states_are_sound. apply stepped.
  apply (deployed (from 1) 1 9 2 100). reflexivity.
Defined.

Lemma writes_need_authority_witness :
  let st' := transact testEnv fresh (from 2) (UpdateScore 1 950 10 9) in
  (sender (from 2) <> updater fresh ->
   forall agentId, _scores st' agentId = _scores fresh agentId)
  /\ (sender (from 2) <> _owner fresh ->
      _owner st' = _owner fresh /\ updater st' = updater fresh
      /\ queryFee st' = queryFee fresh
      /\ identityRegistry st' = identityRegistry fresh /\ balance fresh <= balance st').
Proof.
  exact (writes_need_authority testEnv fresh
           (transact testEnv fresh (from 2) (UpdateScore 1 950 10 9)) (from 2)
           (UpdateScore 1 950 10 9) eq_refl).
Defined.

Lemma batch_is_updates_in_order_witness :
  batchUpdateScores testEnv fresh (from 2) [1; 2] [950; 400] [10; 20] [9; 5]
  = oneByOne testEnv (from 2) (items [1; 2] [950; 400] [10; 20] [9; 5]) fresh.
Proof.
  apply (batch_is_updates_in_order testEnv fresh (from 2) [1; 2] [950; 400] [10; 20] [9; 5]
           eq_refl eq_refl).
  repeat split.
Defined.

Lemma batch_then_read_witness :
  let st' := transact testEnv fresh (from 2)
               (BatchUpdateScores [1; 2] [950; 400] [10; 20] [9; 5]) in
  getDetailedReport st' (from 3) 2
  = Return {| score := 400; totalFeedback := 20; positiveFeedback := 5;
              lastUpdated := timestamp (from 2); exists_ := true |}
  /\ getScore st' (from 3) 2 = Return 400.
Proof.
  exact (proj1 (batch_then_read testEnv fresh
                  (transact testEnv fresh (from 2)
                     (BatchUpdateScores [1; 2] [950; 400] [10; 20] [9; 5]))
                  (from 2) (from 3) [1; 2] [950; 400] [10; 20] [9; 5]
                  eq_refl eq_refl 2)).
Defined.

End TrustScoreProps.

(* ------------------------------------------------------------------ *)
(** * Ordering and deduplicating logs *)
(* ------------------------------------------------------------------ *)

Module LogProps.

Local Unset Implicit Arguments.

Import JS Indexer LogSpec.
Local Open Scope Z_scope.

(** ** [sortLogs] *)

Lemma byPosition_notAfter (a b : Log) : byPosition a b <= 0 <-> notAfter a b.
Proof.
  unfold byPosition, notAfter.
  destruct (blockNumber a =? blockNumber b) eqn:E; cbn [negb].
  - apply Z.eqb_eq in E. lia.
  - apply Z.eqb_neq in E. lia.
Qed.

Lemma notAfter_trans (a b c : Log) : notAfter a b -> notAfter b c -> notAfter a c.
Proof. unfold notAfter. lia. Qed.

Lemma notAfter_total (a b : Log) : notAfter a b \/ notAfter b a.
Proof. unfold notAfter. lia. Qed.

Lemma insertBy_byPosition_perm (x : Log) (l : list Log) :
  Permutation (x :: l) (insertBy byPosition x l).
Proof.
  induction l as [|y r IH]; cbn [insertBy]; [reflexivity|].
  destruct (byPosition x y <=? 0); [reflexivity|].
  rewrite perm_swap. now constructor.
Qed.

Lemma sortLogs_perm (l : list Log) : Permutation l (sortLogs l).
Proof.
  unfold sortLogs, Array_sort.
  induction l as [|x l IH]; cbn [fold_right]; [reflexivity|].
  rewrite <- insertBy_byPosition_perm. now constructor.
Qed.

Lemma insertBy_byPosition_sorted (x : Log) (l : list Log) :
  StronglySorted notAfter l -> StronglySorted notAfter (insertBy byPosition x l).
Proof.
  induction 1 as [|y r S IH F]; cbn [insertBy]; [repeat constructor|].
  destruct (byPosition x y <=? 0) eqn:E.
  - apply Z.leb_le, byPosition_notAfter in E.
    constructor; [now constructor|]. constructor; [exact E|].
    eapply Forall_impl; [|exact F]. intros z Hz. exact (notAfter_trans _ _ _ E Hz).
  - apply Z.leb_gt in E.
    assert (N : notAfter y x).
    { destruct (notAfter_total x y) as [C|C]; [|exact C].
      apply byPosition_notAfter in C. lia. }
    constructor; [exact IH|].
    eapply Permutation_Forall; [apply insertBy_byPosition_perm|]. now constructor.
Qed.

Lemma sortLogs_sorted (l : list Log) : StronglySorted notAfter (sortLogs l).
Proof.
  unfold sortLogs, Array_sort.
  induction l as [|x l IH]; cbn [fold_right]; [constructor|].
  now apply insertBy_byPosition_sorted.
Qed.

Lemma samePosition_spec (a b : Log) :
  samePosition a b = true <-> blockNumber a = blockNumber b /\ index a = index b.
Proof.
  unfold samePosition. rewrite andb_true_iff, !Z.eqb_eq. tauto.
Qed.

(** Insertion passes over no log at the position of the log inserted. *)
Lemma insertBy_filter (z x : Log) (l : list Log) :
  filter (samePosition z) (insertBy byPosition x l)
  = filter (samePosition z) (x :: l).
Proof.
  induction l as [|y r IH]; cbn [insertBy]; [reflexivity|].
  destruct (byPosition x y <=? 0) eqn:E; [reflexivity|].
  apply Z.leb_gt in E. cbn [filter] in *. rewrite IH.
  destruct (samePosition z x) eqn:Zx; [|reflexivity].
  destruct (samePosition z y) eqn:Zy; [|reflexivity].
  exfalso. apply samePosition_spec in Zx, Zy.
  assert (C : notAfter x y) by (unfold notAfter; lia).
  apply byPosition_notAfter in C. lia.
Qed.

Lemma sortLogs_stable (z : Log) (l : list Log) :
  filter (samePosition z) (sortLogs l) = filter (samePosition z) l.
Proof.
  unfold sortLogs, Array_sort.
  induction l as [|x l IH]; cbn [fold_right]; [reflexivity|].
  rewrite insertBy_filter. cbn [filter]. now rewrite IH.
Qed.

Lemma insertBy_first (x : Log) (l : list Log) :
  Forall (notAfter x) l -> insertBy byPosition x l = x :: l.
Proof.
  destruct l as [|y r]; [reflexivity|]. intro F. inversion F as [|? ? Hy _]; subst.
  cbn [insertBy]. apply byPosition_notAfter, Z.leb_le in Hy. now rewrite Hy.
Qed.

Lemma sortLogs_sorted_id (l : list Log) : StronglySorted notAfter l -> sortLogs l = l.
Proof.
  unfold sortLogs, Array_sort.
  induction 1 as [|x l S IH F]; cbn [fold_right]; [reflexivity|].
  rewrite IH. now apply insertBy_first.
Qed.

(** X6. [sortLogs] returns the logs it is given, each as often as it was
    given, ordered by block number and, within a block, by index; logs at
    one position keep the order they came in; and sorting twice is sorting
    once. *)
Theorem sortLogs_orders_by_position (logs : list Log) :
  Permutation logs (sortLogs logs)
  /\ StronglySorted notAfter (sortLogs logs)
  /\ (forall log, filter (samePosition log) (sortLogs logs)
                  = filter (samePosition log) logs)
  /\ sortLogs (sortLogs logs) = sortLogs logs.
Proof.
  repeat split.
  - apply sortLogs_perm.
  - apply sortLogs_sorted.
  - intro log. apply sortLogs_stable.
  - apply sortLogs_sorted_id, sortLogs_sorted.
Qed.

(** ** [dedupeLogs] *)

Lemma sameKey_spec (a b : Log) :
  sameKey a b = true <-> feedbackDedupKey a = feedbackDedupKey b.
Proof. apply String.eqb_eq. Qed.

Lemma seen_spec (key : string) (seen : list string) :
  existsb (String.eqb key) seen = true <-> In key seen.
Proof.
  rewrite existsb_exists. split.
  - intros (k & H & E). apply String.eqb_eq in E. now subst.
  - intro H. exists key. split; [exact H | apply String.eqb_refl].
Qed.

(** The loop, with [seen] the keys of [deduped]: what it adds to [deduped]
    are the logs of [logs] that are the first of their key and whose key is
    not seen. *)
Lemma dedupeLoop_spec (logs : list Log) :
  forall seen deduped,
  (forall key, In key seen <-> In key (map feedbackDedupKey deduped)) ->
  NoDup (map feedbackDedupKey deduped) ->
  exists added,
    dedupeLoop seen deduped logs = (deduped ++ added)%list
    /\ NoDup (map feedbackDedupKey (deduped ++ added))
    /\ (forall log, In log added <->
          firstWithKey log logs = Some log /\ ~ In (feedbackDedupKey log) seen).
Proof.
  induction logs as [|x rest IH]; intros seen deduped S N; cbn [dedupeLoop].
  - exists []. rewrite app_nil_r. split; [reflexivity|]. split; [exact N|].
    intro log. split; [intros [] | intros [H _]; discriminate].
  - destruct (existsb (String.eqb (feedbackDedupKey x)) seen) eqn:E.
    + apply seen_spec in E.
      destruct (IH seen deduped S N) as (added & R & D & A).
      exists added. split; [exact R|]. split; [exact D|].
      intro log. rewrite A. unfold firstWithKey. cbn [find].
      destruct (sameKey x log) eqn:X; [|tauto].
      apply sameKey_spec in X. split.
      * intros [_ K]. congruence.
      * intros [F K]. injection F as ->. contradiction.
    + assert (Nx : ~ In (feedbackDedupKey x) seen).
      { intro C. apply seen_spec in C. congruence. }
      destruct (IH (feedbackDedupKey x :: seen) (deduped ++ [x])%list) as (added & R & D & A).
      { intro key. rewrite map_app, in_app_iff. cbn. rewrite S. tauto. }
      { rewrite map_app. cbn [map]. apply NoDup_app; [exact N | repeat constructor; auto |].
        intros k Hk [<-|[]]. apply Nx, S, Hk. }
      exists (x :: added). rewrite <- app_assoc in R, D. cbn [app] in R, D.
      split; [exact R|]. split; [exact D|].
      intro log. cbn [In]. rewrite A. unfold firstWithKey. cbn [find In].
      destruct (sameKey x log) eqn:X.
      * apply sameKey_spec in X. split.
        -- intros [<-|[_ K]]; [now split | exfalso; apply K; now left].
        -- intros [F _]. injection F as ->. now left.
      * assert (X' : feedbackDedupKey x <> feedbackDedupKey log).
        { intro C. apply sameKey_spec in C. congruence. }
        split.
        -- intros [<-|[F K]]; [congruence|]. split; [exact F | tauto].
        -- intros [F K]. right. split; [exact F|]. intros [C|C]; [congruence | tauto].
Qed.

Lemma dedupeLoop_first (logs : list Log) :
  NoDup (map feedbackDedupKey (dedupeLoop [] [] logs))
  /\ forall log, In log (dedupeLoop [] [] logs) <-> firstWithKey log logs = Some log.
Proof.
  destruct (dedupeLoop_spec logs [] []) as (added & R & D & A).
  - intro key. reflexivity.
  - constructor.
  - cbn [app] in R, D. rewrite R. split; [exact D|].
    intro log. rewrite A. cbn. tauto.
Qed.

Lemma firstWithKey_distinct (logs : list Log) :
  NoDup (map feedbackDedupKey logs) ->
  forall log, In log logs -> firstWithKey log logs = Some log.
Proof.
  unfold firstWithKey.
  induction logs as [|x rest IH]; intros N log H; [destruct H|].
  cbn [map] in N. inversion N as [|? ? Nx Nr]; subst. cbn [find].
  destruct H as [<-|H].
  - unfold sameKey. now rewrite String.eqb_refl.
  - destruct (sameKey x log) eqn:X; [|now apply IH].
    apply sameKey_spec in X. exfalso. apply Nx. rewrite X. now apply in_map.
Qed.

Lemma firstWithKey_In (log : Log) (logs : list Log) :
  firstWithKey log logs = Some log -> In log logs.
Proof. intro H. apply find_some in H. tauto. Qed.

Lemma dedupeLoop_distinct (logs : list Log) :
  forall seen deduped,
  (forall log, In log logs -> ~ In (feedbackDedupKey log) seen) ->
  NoDup (map feedbackDedupKey logs) ->
  dedupeLoop seen deduped logs = (deduped ++ logs)%list.
Proof.
  induction logs as [|x rest IH]; intros seen deduped F N; cbn [dedupeLoop].
  - now rewrite app_nil_r.
  - cbn [map] in N. inversion N as [|? ? Nx Nr]; subst.
    destruct (existsb _ seen) eqn:E.
    + apply seen_spec in E. exfalso. exact (F x (or_introl eq_refl) E).
    + rewrite IH; [now rewrite <- app_assoc | | exact Nr].
      intros log H [C|C].
      * apply Nx. rewrite C. now apply in_map.
      * exact (F log (or_intror H) C).
Qed.

(** X7. [dedupeLogs] keeps of every key the first log that has it and no
    other: a log is in the result exactly when it is the first of its key
    in the input, so no two logs of the result share a key and every key of
    the input is kept. The result is in the order of [sortLogs], and
    deduplicating it again changes nothing. *)
Theorem dedupeLogs_keeps_first_of_each_key (logs : list Log) :
  (forall log, In log (dedupeLogs logs) <-> firstWithKey log logs = Some log)
  /\ NoDup (map feedbackDedupKey (dedupeLogs logs))
  /\ (forall log, In log logs ->
        exists kept, In kept (dedupeLogs logs)
                     /\ feedbackDedupKey kept = feedbackDedupKey log)
  /\ StronglySorted notAfter (dedupeLogs logs)
  /\ dedupeLogs (dedupeLogs logs) = dedupeLogs logs.
Proof.
  destruct (dedupeLoop_first logs) as [D F]. unfold dedupeLogs.
  assert (P : Permutation (dedupeLoop [] [] logs) (sortLogs (dedupeLoop [] [] logs)))
    by apply sortLogs_perm.
  assert (N : NoDup (map feedbackDedupKey (sortLogs (dedupeLoop [] [] logs)))).
  { eapply Permutation_NoDup; [apply Permutation_map, P | exact D]. }
  repeat split.
  - intro H. apply F. eapply Permutation_in; [symmetry; exact P | exact H].
  - intro H. eapply Permutation_in; [exact P | apply F, H].
  - exact N.
  - intros log H. unfold firstWithKey in F.
    destruct (find (fun other => sameKey other log) logs) as [kept|] eqn:E.
    + pose proof (find_some _ _ E) as [K S]. apply sameKey_spec in S.
      exists kept. split; [|exact S].
      eapply Permutation_in; [exact P|]. apply F.
      unfold sameKey in *. rewrite S. exact E.
    + exfalso. pose proof (find_none _ _ E log H) as C.
      unfold sameKey in C. now rewrite String.eqb_refl in C.
  - apply sortLogs_sorted.
  - rewrite (dedupeLoop_distinct _ [] []); [| intros ? ? [] | exact N].
    cbn [app]. apply sortLogs_sorted_id, sortLogs_sorted.
Qed.

End LogProps.

(* ------------------------------------------------------------------ *)
(** * The batch of a cycle *)
(* ------------------------------------------------------------------ *)

Module BatchProps.

Local Unset Implicit Arguments.

Import JS Indexer IndexerSpec CheckpointSpec CycleSpec BatchSpec.
Local Open Scope Z_scope.

(** ** Batches the contract accepts *)

Lemma find_unique (key : TrustScoreSpec.Item -> N) (l : list TrustScoreSpec.Item)
    (item : TrustScoreSpec.Item) :
  NoDup (map key l) -> In item l ->
  find (fun other => (key other =? key item)%N) l = Some item.
Proof.
  induction l as [|x rest IH]; intros D H; [destruct H|].
  cbn [map] in D. inversion D as [|? ? Nx Nr]; subst. cbn [find].
  destruct H as [<-|H]; [now rewrite N.eqb_refl|].
  destruct (key x =? key item)%N eqn:E; [|now apply IH].
  apply N.eqb_eq in E. exfalso. apply Nx. rewrite E. now apply in_map.
Qed.

Lemma lastFor_unique (l : list TrustScoreSpec.Item) (item : TrustScoreSpec.Item) :
  NoDup (map TrustScoreSpec.item_agentId l) -> In item l ->
  TrustScoreSpec.lastFor (TrustScoreSpec.item_agentId item) l = Some item.
Proof.
  intros D H. unfold TrustScoreSpec.lastFor.
  apply (find_unique TrustScoreSpec.item_agentId).
  - rewrite map_rev. apply NoDup_rev, D.
  - apply in_rev. now rewrite rev_involutive.
Qed.

Lemma items_agentIds (agentIds scores totals positives : list N) :
  List.length scores = List.length agentIds ->
  List.length totals = List.length agentIds ->
  List.length positives = List.length agentIds ->
  map TrustScoreSpec.item_agentId (TrustScoreSpec.items agentIds scores totals positives)
  = agentIds.
Proof.
  revert scores totals positives.
  induction agentIds as [|a agentIds IH]; intros scores totals positives Ls Lt Lp;
    [reflexivity|].
  destruct scores as [|s scores]; [discriminate|].
  destruct totals as [|t totals]; [discriminate|].
  destruct positives as [|p positives]; [discriminate|].
  cbn [TrustScoreSpec.items map TrustScoreSpec.item_agentId]. f_equal.
  apply IH; cbn in *; lia.
Qed.

Lemma validateAndUpdate_passes (chain : TrustScore.Env) (st : TrustScore.State)
    (m : TrustScore.Msg) (item : TrustScoreSpec.Item) :
  passes chain (TrustScore.identityRegistry st) item ->
  exists st',
    TrustScore._validateAndUpdate chain st m (TrustScoreSpec.item_agentId item)
      (TrustScoreSpec.item_score item) (TrustScoreSpec.item_total item)
      (TrustScoreSpec.item_positive item) = Return st'.
Proof.
  intros (S & P & a & R & Z).
  unfold TrustScore._validateAndUpdate, TrustScore._assertRegistered.
  apply N.ltb_ge in S, P. rewrite S, P, R.
  apply N.eqb_neq in Z. rewrite Z. cbn [bind]. eauto.
Qed.

Lemma oneByOne_passes (chain : TrustScore.Env) (m : TrustScore.Msg)
    (l : list TrustScoreSpec.Item) :
  forall st,
  TrustScore.sender m = TrustScore.updater st -> TrustScore.value m = 0%N ->
  Forall (passes chain (TrustScore.identityRegistry st)) l ->
  exists st', TrustScoreSpec.oneByOne chain m l st = Return st'.
Proof.
  induction l as [|item rest IH]; intros st S V F; cbn [TrustScoreSpec.oneByOne].
  - eauto.
  - inversion F as [|? ? Fi Fr]; subst.
    rewrite (TrustScoreProps.updateScore_authorized _ _ _ _ _ _ _ S V).
    destruct (validateAndUpdate_passes chain st m item Fi) as [st1 E]. rewrite E.
    cbn [bind].
    destruct (TrustScoreProps.validateAndUpdate_admin _ _ _ _ _ _ _ _ E)
      as (_ & U & _ & R & _).
    apply IH; [congruence | exact V | now rewrite R].
Qed.

Lemma items_pass (chain : TrustScore.Env) (registry : TrustScore.address)
    (agentIds scores totals positives : list Z) :
  List.length scores = List.length agentIds ->
  Forall (fun score => 0 <= score <= 1000) scores ->
  Forall2 (fun total positive => 0 <= positive <= total) totals positives ->
  (forall agentId, In agentId agentIds ->
     exists a, TrustScore.ownerOf chain registry (Z.to_N agentId) = TrustScore.Answers a
               /\ a <> TrustScore.zeroAddress) ->
  Forall (passes chain registry)
    (TrustScoreSpec.items (encode agentIds) (encode scores) (encode totals)
       (encode positives)).
Proof.
  intros Ls Rs Rc. revert agentIds scores Ls Rs.
  induction Rc as [|t p totals positives C Rc IH]; intros agentIds scores Ls Rs Reg.
  - destruct agentIds, scores; constructor.
  - destruct agentIds as [|a agentIds]; [constructor|].
    destruct scores as [|s scores]; [constructor|].
    inversion Rs as [|? ? Hs Rs']; subst.
    cbn [encode map TrustScoreSpec.items]. constructor.
    + unfold passes. cbn. repeat split.
      * unfold TrustScore.MAX_SCORE. lia.
      * lia.
      * apply Reg. now left.
    + apply IH; [cbn in Ls; lia | exact Rs' |].
      intros id H. apply Reg. now right.
Qed.

Lemma encode_NoDup (l : list Z) :
  StronglySorted Z.lt l -> Forall (fun z => 0 <= z) l -> NoDup (encode l).
Proof.
  induction 1 as [|x l S IH F]; intro P; [constructor|].
  inversion P as [|? ? Px Pl]; subst. cbn [encode map]. constructor; [|now apply IH].
  intro C. apply in_map_iff in C as (y & E & Hy).
  rewrite Forall_forall in F, Pl. specialize (F y Hy). specialize (Pl y Hy). lia.
Qed.

Lemma emptyBatch_wellShaped (maxScore : Z) : wellShaped maxScore emptyBatch.
Proof. split; cbn; try reflexivity; constructor. Qed.

Section Builtins.

Variable StringToNumber : string -> option Q.
Variable Date_parse : string -> option Q.

Lemma finish_counts (cfg : Scoring.Config) (acc : Scoring.Acc) :
  ScoringSpec.acc_ok acc ->
  0 <= Scoring.positiveFeedback (Scoring.finish cfg acc)
    <= Scoring.totalFeedback (Scoring.finish cfg acc).
Proof.
  intros A. unfold Scoring.finish.
  destruct (Qeq_bool (Scoring.acc_weightedTotal acc) 0); cbn; [lia|].
  destruct A. lia.
Qed.

(** What one scored agent adds to the arrays. *)
Lemma scored_in_range (feedbacks : list Scoring.Feedback) (config : Scoring.ConfigInput)
    (nowMs : Q) (details : Scoring.ScoringResult) :
  Scoring.scoreFeedbackDetailed StringToNumber Date_parse feedbacks config nowMs
    = Return details ->
  0 <= Scoring.score details
       <= Scoring.maxScore (Scoring.normalizeConfig StringToNumber config)
  /\ 0 <= Scoring.positiveFeedback details <= Scoring.totalFeedback details.
Proof.
  intro E.
  apply ScoringProps.scoreFeedbackDetailed_inv in E as (acc & A & -> & _).
  split; [|now apply finish_counts].
  apply ScoringProps.finish_bounds.
  apply ScoringSpec.maxScore_pos, ScoringProps.normalizeConfig_normalized.
Qed.

Lemma processAgents_wellShaped (env : Env) (config : IndexerConfig) (nowMs : Q)
    (latest : Z) (agents : list Z) :
  forall batch cache batch',
  wellShaped
    (Scoring.maxScore
       (Scoring.normalizeConfig StringToNumber (Scoring.asInput (scoringConfig config))))
    batch ->
  processAgents StringToNumber Date_parse env config nowMs latest agents batch cache
    = Return batch' ->
  wellShaped
    (Scoring.maxScore
       (Scoring.normalizeConfig StringToNumber (Scoring.asInput (scoringConfig config))))
    batch'.
Proof.
  induction agents as [|a rest IH]; intros batch cache batch' W E; cbn [processAgents] in E.
  - now injection E as <-.
  - destruct (collectFeedbackForAgent env a (startBlock config) latest cache)
      as [collected|]; cbn [bind] in E; [|discriminate].
    destruct (Scoring.scoreFeedbackDetailed _ _ _ _ _) as [details|] eqn:S;
      cbn [bind exnAt] in E; [|discriminate].
    apply scored_in_range in S as [Sr Cr].
    refine (IH _ _ _ _ E). destruct W as [Ls Lt Lp Rs Rc].
    split; cbn [agentIds scores totals positives]; rewrite ?length_app; cbn [List.length];
      try lia.
    + apply Forall_app. split; [exact Rs | now constructor].
    + apply Forall2_app; [exact Rc | now constructor].
Qed.

(** The dirty agents of a plan: non-negative and strictly ascending. *)
Lemma planCycle_sorted (env : Env) (config : IndexerConfig) (nowMs : Q)
    (files : FileSystem) (plan : Plan) :
  planCycle StringToNumber Date_parse env config nowMs files = Return plan ->
  StronglySorted Z.lt (plan_sortedDirtyAgents plan)
  /\ Forall (fun z => 0 <= z) (plan_sortedDirtyAgents plan).
Proof.
  intro P.
  apply CycleProps.planCycle_inv in P
    as (checkpoint & zs & L & _ & _ & _ & Hzs & Srt & _ & _).
  apply CycleProps.loadCheckpoint_wellFormed in L as W.
  apply (@CycleProps.dirtyAgentIds_spec checkpoint (plan_newlyObservedLogs plan)) in W
    as [[DN DC] _].
  destruct (@CycleProps.toBigInts_canonical _ DC) as (zs' & Hzs' & M & Pos).
  rewrite Hzs in Hzs'. injection Hzs' as <-.
  assert (Perm : Permutation zs (plan_sortedDirtyAgents plan))
    by (rewrite Srt; apply CycleProps.Array_sort_perm).
  assert (NDz : NoDup zs).
  { apply (NoDup_map_inv BigIntText.toString). now rewrite M. }
  split.
  - apply CycleProps.sorted_distinct_strict;
      [rewrite Srt; apply CycleProps.Array_sort_sorted|].
    exact (Permutation_NoDup Perm NDz).
  - exact (Permutation_Forall Perm Pos).
Qed.

Lemma planCycle_wellShaped (env : Env) (config : IndexerConfig) (nowMs : Q)
    (files : FileSystem) (plan : Plan) :
  planCycle StringToNumber Date_parse env config nowMs files = Return plan ->
  wellShaped
    (Scoring.maxScore
       (Scoring.normalizeConfig StringToNumber (Scoring.asInput (scoringConfig config))))
    (plan_batch plan).
Proof.
  unfold planCycle.
  destruct (loadCheckpoint (faults env) files) as [checkpoint|]; cbn [bind];
    [|discriminate].
  destruct (getBlockNumber env) as [latest|]; cbn [bind rpcCall]; [|discriminate].
  match goal with
  | |- context [bind ?m _] => destruct m as [logs|]
  end; cbn [bind]; [|discriminate].
  destruct (toBigInts (dirtyAgentIds checkpoint logs)) as [zs|]; cbn [bind exnAt];
    [|discriminate].
  destruct (processAgents _ _ _ _ _ _ _ _ _) as [batch|] eqn:P; cbn [bind];
    [|discriminate].
  intro H. injection H as <-. cbn [plan_batch].
  eapply processAgents_wellShaped; [apply emptyBatch_wellShaped | exact P].
Qed.

Lemma firstn_In (y : Z) (n : nat) (l : list Z) : In y (firstn n l) -> In y l.
Proof.
  intro H. rewrite <- (firstn_skipn n l). apply in_or_app. now left.
Qed.

Lemma firstn_sorted (n : nat) (l : list Z) :
  StronglySorted Z.lt l -> StronglySorted Z.lt (firstn n l).
Proof.
  intro S. revert n. induction S as [|x l S IH F]; intro n.
  - rewrite firstn_nil. constructor.
  - destruct n as [|n]; cbn [firstn]; [constructor|].
    constructor; [apply IH|].
    rewrite Forall_forall in *. intros y Hy. apply F. eapply firstn_In, Hy.
Qed.

Lemma firstn_Forall (P : Z -> Prop) (n : nat) (l : list Z) :
  Forall P l -> Forall P (firstn n l).
Proof.
  rewrite !Forall_forall. intros F y Hy. apply F. eapply firstn_In, Hy.
Qed.

(** What a cycle has sent when it ends, however it ends. *)
Lemma cycle_sent (env : Env) (configOverrides : ConfigOverrides) (nowMs : Q)
    (world world' : World) (r : outcome Failure CycleResult) :
  runIndexerCycle StringToNumber Date_parse env configOverrides nowMs world = (world', r) ->
  mined world' = mined world
  \/ exists config batch,
       resolveRuntimeConfig StringToNumber env configOverrides = Return config
       /\ mined world' = (mined world ++ [batch])%list
       /\ agentIds batch <> []
       /\ (List.length (agentIds batch) <= Z.to_nat (maxBatchSize config))%nat
       /\ StronglySorted Z.lt (agentIds batch)
       /\ Forall (fun z => 0 <= z) (agentIds batch)
       /\ wellShaped (Scoring.maxScore (scoringConfig config)) batch.
Proof.
  unfold runIndexerCycle.
  destruct (openCycle StringToNumber env configOverrides) as [config|] eqn:O;
    cbn [bind].
  2:{ intro H. injection H as <- _. now left. }
  apply CycleProps.openCycle_inv in O.
  destruct (planCycle _ _ _ _ _ _) as [plan|] eqn:P.
  2:{ intro H. injection H as <- _. now left. }
  assert (Sent : forall world1 s, submitBatch env world (plan_batch plan) = (world1, s) ->
            mined world1 = mined world
            \/ (mined world1 = (mined world ++ [plan_batch plan])%list
                /\ agentIds (plan_batch plan) <> [])).
  { intros world1 s. unfold submitBatch.
    destruct (agentIds (plan_batch plan)) as [|a l] eqn:A.
    - intro H. injection H as <- _. now left.
    - destruct (batchUpdateScores env (plan_batch plan)); cbn [rpcCall failAt].
      + destruct (waitReceipt env); cbn [rpcCall failAt]; intro H; injection H as <- _;
          right; split; [reflexivity | discriminate | reflexivity | discriminate].
      + intro H. injection H as <- _. now left. }
  assert (Batch :
    agentIds (plan_batch plan) <> [] ->
    exists config' batch,
      resolveRuntimeConfig StringToNumber env configOverrides = Return config'
      /\ (mined world ++ [plan_batch plan])%list = (mined world ++ [batch])%list
      /\ agentIds batch <> []
      /\ (List.length (agentIds batch) <= Z.to_nat (maxBatchSize config'))%nat
      /\ StronglySorted Z.lt (agentIds batch)
      /\ Forall (fun z => 0 <= z) (agentIds batch)
      /\ wellShaped (Scoring.maxScore (scoringConfig config')) batch).
  { intro NE. exists config, (plan_batch plan).
    destruct (planCycle_sorted _ _ _ _ _ P) as [SS Pos].
    pose proof P as P'.
    apply CycleProps.planCycle_inv in P' as (_ & _ & _ & _ & _ & _ & _ & _ & Ids & _).
    pose proof (planCycle_wellShaped _ _ _ _ _ P) as W.
    assert (Nz : Scoring.normalizeConfig StringToNumber (Scoring.asInput (scoringConfig config))
                 = scoringConfig config).
    { apply ScoringProps.normalizeConfig_asInput.
      revert O. unfold resolveRuntimeConfig.
      destruct (if given_provider configOverrides then _ else _); cbn [bind];
        [|discriminate].
      destruct (if given_updaterSigner configOverrides then _ else _); cbn [bind];
        [|discriminate].
      destruct (String.eqb (given_trustScoreAddress configOverrides) ""); [discriminate|].
      destruct (String.eqb (given_reputationRegistryAddress configOverrides) "");
        [discriminate|].
      intro H. injection H as <-. cbn [scoringConfig].
      apply ScoringProps.normalizeConfig_normalized. }
    rewrite Nz in W.
    split; [exact O|]. split; [reflexivity|]. split; [exact NE|].
    split; [rewrite Ids; apply firstn_le_length|].
    split; [rewrite Ids; now apply firstn_sorted|].
    split; [rewrite Ids; now apply firstn_Forall|].
    exact W. }
  destruct (submitBatch env world (plan_batch plan)) as [world1 [hashes|f]] eqn:S.
  2:{ intro H. injection H as <- _.
      destruct (Sent _ _ eq_refl) as [E|[E NE]]; [now left|].
      right. rewrite E. now apply Batch. }
  destruct (saveCheckpoint _ _ _) as [files saved].
  destruct (Sent _ _ eq_refl) as [E|[E NE]].
  - destruct saved; intro H; injection H as <- _; now left.
  - destruct saved; intro H; injection H as <- _; right; cbn [mined]; rewrite E;
      now apply Batch.
Qed.


(** X9. Every batch a cycle sends passes the checks of the contract when
    the configured [maxScore] is at most 1000: sent by the updater without
    ether, with every agent of the batch registered, [batchUpdateScores]
    returns, and afterwards every agent of the batch reads back the score
    and the counts the cycle computed for it. *)
Theorem contract_accepts_cycle_batch (env : Env) (configOverrides : ConfigOverrides)
    (nowMs : Q) (world world' : World) (r : outcome Failure CycleResult)
    (config : IndexerConfig) (batch : Batch)
    (chain : TrustScore.Env) (st : TrustScore.State) (m reader : TrustScore.Msg) :
  runIndexerCycle StringToNumber Date_parse env configOverrides nowMs world = (world', r) ->
  resolveRuntimeConfig StringToNumber env configOverrides = Return config ->
  mined world' = (mined world ++ [batch])%list ->
  Scoring.maxScore (scoringConfig config) <= 1000 ->
  TrustScore.sender m = TrustScore.updater st -> TrustScore.value m = 0%N ->
  TrustScore.value reader = 0%N ->
  (forall agentId, In agentId (agentIds batch) ->
     exists a, TrustScore.ownerOf chain (TrustScore.identityRegistry st) (Z.to_N agentId)
               = TrustScore.Answers a
               /\ a <> TrustScore.zeroAddress) ->
  exists st',
    TrustScore.batchUpdateScores chain st m (encode (agentIds batch))
      (encode (scores batch)) (encode (totals batch)) (encode (positives batch))
    = Return st'
    /\ forall item,
         In item (TrustScoreSpec.items (encode (agentIds batch)) (encode (scores batch))
                    (encode (totals batch)) (encode (positives batch))) ->
         TrustScore.getDetailedReport st' reader (TrustScoreSpec.item_agentId item)
         = Return {| TrustScore.score := TrustScoreSpec.item_score item;
                     TrustScore.totalFeedback := TrustScoreSpec.item_total item;
                     TrustScore.positiveFeedback := TrustScoreSpec.item_positive item;
                     TrustScore.lastUpdated := TrustScore.timestamp m;
                     TrustScore.exists_ := true |}.
Proof.
  intros Run Cfg Sent Max S V Vr Reg.
  destruct (cycle_sent _ _ _ _ _ _ Run) as [Same|(config' & batch' & Cfg' & Sent' & _ & _
                                                  & Sorted & Pos & W)].
  { exfalso. rewrite Same in Sent. apply (f_equal (@List.length Batch)) in Sent.
    rewrite length_app in Sent. cbn in Sent. lia. }
  rewrite Cfg in Cfg'. injection Cfg' as <-.
  rewrite Sent in Sent'. apply app_inj_tail in Sent' as [_ <-].
  destruct W as [Ls Lt Lp Rs Rc].
  assert (Ls' : List.length (encode (scores batch)) = List.length (encode (agentIds batch)))
    by (unfold encode; now rewrite !length_map).
  assert (Lt' : List.length (encode (totals batch)) = List.length (encode (agentIds batch)))
    by (unfold encode; now rewrite !length_map).
  assert (Lp' : List.length (encode (positives batch))
                = List.length (encode (agentIds batch)))
    by (unfold encode; now rewrite !length_map).
  assert (Same : TrustScore.batchUpdateScores chain st m (encode (agentIds batch))
                   (encode (scores batch)) (encode (totals batch))
                   (encode (positives batch))
                 = TrustScoreSpec.oneByOne chain m
                     (TrustScoreSpec.items (encode (agentIds batch)) (encode (scores batch))
                        (encode (totals batch)) (encode (positives batch))) st).
  { unfold TrustScore.batchUpdateScores, TrustScore.nonpayable, TrustScore.onlyUpdater.
    rewrite V, S, !N.eqb_refl. cbn [negb].
    rewrite (proj2 (Nat.eqb_eq _ _) (eq_sym Ls')), (proj2 (Nat.eqb_eq _ _) (eq_sym Lt')),
      (proj2 (Nat.eqb_eq _ _) (eq_sym Lp')).
    cbn [negb orb]. now apply TrustScoreProps.batchLoop_oneByOne. }
  destruct (oneByOne_passes chain m
              (TrustScoreSpec.items (encode (agentIds batch)) (encode (scores batch))
                 (encode (totals batch)) (encode (positives batch))) st S V)
    as [st' E].
  { apply items_pass; try assumption.
    eapply Forall_impl; [|exact Rs]. cbn. intros; lia. }
  exists st'. split; [now rewrite Same|].
  intros item H.
  unfold TrustScore.getDetailedReport, TrustScore.nonpayable. rewrite Vr, N.eqb_refl.
  rewrite (TrustScoreProps.oneByOne_reads _ _ _ _ _ E).
  rewrite lastFor_unique; [reflexivity | | exact H].
  rewrite items_agentIds by assumption. now apply encode_NoDup.
Qed.

End Builtins.

(** ** The properties at the first cycle of the overflow scenario *)

Import CycleFixtures ScoringFixtures CycleRunFixtures.

Lemma first_cycle_runs :
  runIndexerCycle noText noText busyEnv oneAtATime testNowMs freshWorld
  = (afterFirstCycle, Return firstResult).
Proof. vm_compute. reflexivity. Qed.

Lemma first_cycle_config :
  resolveRuntimeConfig noText busyEnv oneAtATime = Return firstConfig.
Proof. vm_compute. reflexivity. Qed.


Lemma contract_accepts_cycle_batch_witness :
  exists st',
    TrustScore.batchUpdateScores openRegistry TrustScoreFixtures.fresh
      (TrustScoreFixtures.from 2%N) (encode (agentIds firstBatch))
      (encode (scores firstBatch)) (encode (totals firstBatch))
      (encode (positives firstBatch))
    = Return st'
    /\ forall item,
         In item (TrustScoreSpec.items (encode (agentIds firstBatch))
                    (encode (scores firstBatch)) (encode (totals firstBatch))
                    (encode (positives firstBatch))) ->
         TrustScore.getDetailedReport st' (TrustScoreFixtures.from 3%N)
           (TrustScoreSpec.item_agentId item)
         = Return {| TrustScore.score := TrustScoreSpec.item_score item;
                     TrustScore.totalFeedback := TrustScoreSpec.item_total item;
                     TrustScore.positiveFeedback := TrustScoreSpec.item_positive item;
                     TrustScore.lastUpdated :=
                       TrustScore.timestamp (TrustScoreFixtures.from 2%N);
                     TrustScore.exists_ := true |}.
Proof.
  apply (contract_accepts_cycle_batch noText noText busyEnv oneAtATime testNowMs
           freshWorld afterFirstCycle (Return firstResult) firstConfig firstBatch
           openRegistry TrustScoreFixtures.fresh (TrustScoreFixtures.from 2%N)
           (TrustScoreFixtures.from 3%N) first_cycle_runs first_cycle_config eq_refl).
  - vm_compute. discriminate.
  - reflexivity.
  - reflexivity.
  - reflexivity.
  - intros agentId _. exists 1%N. split; [reflexivity | discriminate].
Defined.

End BatchProps.

(* ------------------------------------------------------------------ *)
(** * Retries *)
(* ------------------------------------------------------------------ *)

Module BackoffProps.

Local Unset Implicit Arguments.

Import JS Indexer Backoff BackoffSpec.
Local Open Scope Z_scope.

Lemma delayBefore_next (initial maxDelay : Z) (i : nat) :
  0 < initial -> 0 < maxDelay ->
  Z.min (delayBefore initial maxDelay i * 2) maxDelay = delayBefore initial maxDelay (S i).
Proof.
  intros I M.
  change (delayBefore initial maxDelay (S i))
    with (Z.min (initial * 2 ^ Z.of_nat (S i)) maxDelay).
  replace (initial * 2 ^ Z.of_nat (S i)) with (initial * 2 ^ Z.of_nat i * 2)
    by (rewrite Nat2Z.inj_succ, Z.pow_succ_r by lia; ring).
  destruct i as [|i]; cbn [delayBefore].
  - f_equal. change (2 ^ Z.of_nat 0) with 1. ring.
  - assert (P : 0 < initial * 2 ^ Z.of_nat (S i)).
    { apply Z.mul_pos_pos; [exact I | apply Z.pow_pos_nonneg; lia]. }
    lia.
Qed.

Lemma delayBefore_bounds (initial maxDelay : Z) (i : nat) :
  0 < initial -> 0 < maxDelay ->
  0 < delayBefore initial maxDelay i <= Z.max initial maxDelay.
Proof.
  intros I M. destruct i as [|i]; cbn [delayBefore]; [lia|].
  assert (P : 0 < initial * 2 ^ Z.of_nat (S i)).
  { apply Z.mul_pos_pos; [exact I | apply Z.pow_pos_nonneg; lia]. }
  lia.
Qed.

Lemma retriesOf_next {A} (operation : nat -> outcome Raised A) (initial maxDelay : Z)
    (n : nat) (thrown : Raised) :
  operation n = Throw thrown ->
  (retriesOf operation initial maxDelay n
     ++ [{| attempts := Z.of_nat n + 1;
            delayMs := delayBefore initial maxDelay n;
            error := thrown |}])%list
  = retriesOf operation initial maxDelay (S n).
Proof.
  intro E. unfold retriesOf. rewrite seq_S, map_app. cbn [map plus]. now rewrite E.
Qed.

Section Builtins.

Variable StringToNumber : string -> option Q.

Lemma retryLimit_nonneg (options : Options) (n : Z) :
  retryLimit StringToNumber options = Some n -> 0 <= n.
Proof.
  unfold retryLimit.
  assert (G : match Number StringToNumber (maxRetries options) with
              | Some parsed =>
                  if Number_isInteger parsed && Qleb 0 parsed then Some (Qfloor parsed)
                  else None
              | None => None
              end = Some n -> 0 <= n).
  { destruct (Number StringToNumber (maxRetries options)) as [parsed|]; [|discriminate].
    destruct (Number_isInteger parsed && Qleb 0 parsed) eqn:E; [|discriminate].
    apply andb_true_iff in E as [_ E]. apply JSFacts.Qleb_true in E.
    intro H. injection H as <-.
    apply Qfloor_resp_le in E. exact E. }
  destruct (maxRetries options); exact G.
Qed.

(** The loop from its [calls]-th call on. *)
Lemma retryLoop_settled {A} (operation : nat -> outcome Raised A)
    (retryable : Raised -> bool) (limit : option Z) (initial maxDelay : Z) (fuel : nat) :
  0 < initial -> 0 < maxDelay ->
  forall calls s,
  retryLoop fuel operation retryable limit maxDelay calls
    (delayBefore initial maxDelay calls) (retriesOf operation initial maxDelay calls)
    = Some s ->
  exists k,
    (calls <= k < calls + fuel)%nat
    /\ (forall i, (calls <= i < k)%nat ->
          failsRetryably operation retryable i
          /\ forall n, limit = Some n -> Z.of_nat i < n)
    /\ result s = operation k
    /\ retries s = retriesOf operation initial maxDelay k
    /\ (final retryable (operation k)
        \/ (failsRetryably operation retryable k
            /\ exists n, limit = Some n /\ n <= Z.of_nat k)).
Proof.
  intros I M. induction fuel as [|fuel IH]; intros calls s H; cbn [retryLoop] in H;
    [discriminate|].
  destruct (operation calls) as [a|thrown] eqn:E.
  - injection H as <-. exists calls. cbn [result retries]. rewrite E.
    repeat split; try lia. now left.
  - destruct (retryable thrown) eqn:R; cbn [negb] in H.
    2:{ injection H as <-. exists calls. cbn [result retries]. rewrite E.
        repeat split; try lia. now left. }
    destruct (match limit with Some n => n <=? Z.of_nat calls | None => false end) eqn:L.
    + injection H as <-. exists calls. cbn [result retries].
      repeat split; try lia; try (symmetry; exact E).
      right. split; [now exists thrown|].
      destruct limit as [n|]; [|discriminate]. exists n. apply Z.leb_le in L. now split.
    + rewrite delayBefore_next, (retriesOf_next _ _ _ _ _ E) in H by assumption.
      destruct (IH _ _ H) as (k & Hk & Before & Res & Ret & Last).
      exists k. repeat split; try assumption; try lia.
      * destruct (Nat.eq_dec i calls) as [->|N]; [now exists thrown | apply Before; lia].
      * destruct (Nat.eq_dec i calls) as [->|N]; [|apply Before; lia].
        intros n Hn. subst limit. apply Z.leb_gt in L. exact L.
Qed.

(** X10. When [withExponentialBackoff] settles, it has called the operation
    some [k + 1] times: the first [k] calls threw errors the test accepts,
    each was reported and followed by a sleep, the first of the initial
    delay and each later one of twice the one before, capped at the maximal
    delay; the result is that of the last call. That last call returned or
    threw an error the test rejects, unless the limit of retries was reached,
    which then is exactly [k]; without a limit, no error the test accepts is
    ever passed on. Both delays are positive. *)
Theorem backoff_settles_as_scheduled {A} (fuel : nat)
    (operation : nat -> outcome Raised A) (options : Options) (s : Settled A) :
  withExponentialBackoff StringToNumber fuel operation options = Some s ->
  let initial :=
    toPositiveInt StringToNumber (initialDelayMs options) DEFAULT_BACKOFF_START_MS in
  let maxDelay :=
    toPositiveInt StringToNumber (maxDelayMs options) DEFAULT_BACKOFF_MAX_MS in
  0 < initial /\ 0 < maxDelay
  /\ exists k,
       (k < fuel)%nat
       /\ result s = operation k
       /\ retries s = retriesOf operation initial maxDelay k
       /\ (forall i, (i < k)%nat -> failsRetryably operation (testOf options) i)
       /\ (forall retry, In retry (retries s) ->
             0 < delayMs retry <= Z.max initial maxDelay)
       /\ (final (testOf options) (result s)
           \/ retryLimit StringToNumber options = Some (Z.of_nat k))
       /\ (retryLimit StringToNumber options = None -> final (testOf options) (result s)).
Proof.
  intros H initial maxDelay. unfold withExponentialBackoff in H.
  fold (testOf options) initial maxDelay in H.
  assert (I : 0 < initial) by (apply CycleProps.toPositiveInt_positive; reflexivity).
  assert (M : 0 < maxDelay) by (apply CycleProps.toPositiveInt_positive; reflexivity).
  split; [exact I|]. split; [exact M|].
  pose proof (retryLoop_settled operation (testOf options)
                (retryLimit StringToNumber options) initial maxDelay fuel I M 0%nat s H)
    as (k & Range & Before & Res & Ret & Last).
  exists k.
  assert (Fuel : (k < fuel)%nat) by lia.
  split; [exact Fuel|]. split; [exact Res|]. split; [exact Ret|].
  split; [intros i Hi; apply Before; lia|].
  split.
  { intros retry Hr. rewrite Ret in Hr. unfold retriesOf in Hr.
    apply in_map_iff in Hr as (i & <- & _). cbn [delayMs].
    now apply delayBefore_bounds. }
  rewrite Res. split.
  - destruct Last as [Fin|(_ & n & Hn & Le)]; [now left|].
    right. rewrite Hn. f_equal.
    assert (Ge : forall i, (i < k)%nat -> Z.of_nat i < n)
      by (intros i Hi; apply Before; [lia | exact Hn]).
    pose proof (retryLimit_nonneg _ _ Hn) as N0.
    destruct k as [|k]; [lia|]. specialize (Ge k). lia.
  - intros None. destruct Last as [Fin|(_ & n & Hn & _)]; [exact Fin | congruence].
Qed.

(** The loop goes on while calls fail retryably below the limit. *)
Lemma retryLoop_skips {A} (operation : nat -> outcome Raised A)
    (retryable : Raised -> bool) (limit : option Z) (initial maxDelay : Z) (k : nat) :
  0 < initial -> 0 < maxDelay ->
  forall fuel calls,
  (calls <= k)%nat ->
  (forall i, (calls <= i < k)%nat ->
     failsRetryably operation retryable i
     /\ forall n, limit = Some n -> Z.of_nat i < n) ->
  retryLoop (fuel + (k - calls)) operation retryable limit maxDelay calls
    (delayBefore initial maxDelay calls) (retriesOf operation initial maxDelay calls)
  = retryLoop fuel operation retryable limit maxDelay k
      (delayBefore initial maxDelay k) (retriesOf operation initial maxDelay k).
Proof.
  intros I M fuel calls Le. remember (k - calls)%nat as d eqn:D.
  revert calls Le D. induction d as [|d IH]; intros calls Le D Before.
  - replace calls with k by lia. now rewrite Nat.add_0_r.
  - rewrite Nat.add_succ_r. cbn [retryLoop].
    destruct (Before calls) as [(thrown & E & R) Lim]; [lia|].
    rewrite E, R. cbn [negb].
    assert (L : match limit with Some n => n <=? Z.of_nat calls | None => false end
                = false).
    { destruct limit as [n|]; [|reflexivity]. apply Z.leb_gt. now apply Lim. }
    rewrite L, delayBefore_next, (retriesOf_next _ _ _ _ _ E) by assumption.
    apply IH; [lia | lia |]. intros i Hi. apply Before. lia.
Qed.

(** X11. When the calls before the [k]-th all throw errors the test
    accepts and [k] is within the limit of retries, [withExponentialBackoff]
    settles as soon as it is given more than [k] iterations: with the result
    of the [k]-th call when that call returns or throws an error the test
    rejects, and with the error of the [k]-th call when [k] is the limit.
    When every call throws an error the test accepts and there is no limit,
    it never settles. *)
Theorem backoff_stops_at_the_first_final_call {A}
    (operation : nat -> outcome Raised A) (options : Options) (k : nat) :
  let initial :=
    toPositiveInt StringToNumber (initialDelayMs options) DEFAULT_BACKOFF_START_MS in
  let maxDelay :=
    toPositiveInt StringToNumber (maxDelayMs options) DEFAULT_BACKOFF_MAX_MS in
  ((forall i, (i < k)%nat -> failsRetryably operation (testOf options) i) ->
   (forall n, retryLimit StringToNumber options = Some n -> Z.of_nat k <= n) ->
   final (testOf options) (operation k)
   \/ retryLimit StringToNumber options = Some (Z.of_nat k) ->
   forall fuel, (k < fuel)%nat ->
   withExponentialBackoff StringToNumber fuel operation options
   = Some {| result := operation k;
             retries := retriesOf operation initial maxDelay k |})
  /\ ((forall i, failsRetryably operation (testOf options) i) ->
      retryLimit StringToNumber options = None ->
      forall fuel, withExponentialBackoff StringToNumber fuel operation options = None).
Proof.
  intros initial maxDelay.
  assert (I : 0 < initial) by (apply CycleProps.toPositiveInt_positive; reflexivity).
  assert (M : 0 < maxDelay) by (apply CycleProps.toPositiveInt_positive; reflexivity).
  unfold withExponentialBackoff. fold (testOf options) initial maxDelay. split.
  - intros Before Within Last fuel Hf.
    replace fuel with ((fuel - k) + (k - 0))%nat by lia.
    change [] with (retriesOf operation initial maxDelay 0).
    change initial with (delayBefore initial maxDelay 0) at 1.
    rewrite retryLoop_skips; try assumption; try lia.
    2:{ intros i Hi. split; [apply Before; lia|].
        intros n Hn. specialize (Within n Hn). lia. }
    destruct (fuel - k)%nat as [|f] eqn:F; [lia|]. cbn [retryLoop].
    destruct (operation k) as [a|thrown] eqn:E; [reflexivity|].
    destruct (testOf options thrown) eqn:R; cbn [negb]; [|reflexivity].
    destruct Last as [Fin|Lim]; [cbn in Fin; congruence|].
    rewrite Lim, Z.leb_refl. reflexivity.
  - intros All NoLimit fuel. rewrite NoLimit.
    change [] with (retriesOf operation initial maxDelay 0).
    change initial with (delayBefore initial maxDelay 0) at 1.
    generalize 0%nat as calls.
    induction fuel as [|fuel IH]; intro calls; cbn [retryLoop]; [reflexivity|].
    destruct (All calls) as (thrown & E & R). rewrite E, R. cbn [negb].
    rewrite delayBefore_next, (retriesOf_next _ _ _ _ _ E) by assumption. apply IH.
Qed.

End Builtins.

(** ** The properties at a call that fails three times *)

Import BackoffFixtures ScoringFixtures.

Lemma flaky_settles :
  withExponentialBackoff noText 5 flaky cycleOptions
  = Some {| result := flaky 3; retries := retriesOf flaky 1000 60000 3 |}.
Proof. vm_compute. reflexivity. Qed.

Lemma backoff_settles_as_scheduled_witness :
  let s := {| result := flaky 3; retries := retriesOf flaky 1000 60000 3 |} in
  exists k,
    (k < 5)%nat
    /\ result s = flaky k
    /\ retries s = retriesOf flaky 1000 60000 k
    /\ (forall i, (i < k)%nat -> failsRetryably flaky (testOf cycleOptions) i)
    /\ (forall retry, In retry (retries s) -> 0 < delayMs retry <= Z.max 1000 60000).
Proof.
  intro s.
  destruct (backoff_settles_as_scheduled noText 5 flaky cycleOptions s flaky_settles)
    as (_ & _ & k & K & R & Rs & F & D & _).
  exists k. split; [exact K|]. split; [exact R|]. split; [exact Rs|].
  split; [exact F | exact D].
Defined.

End BackoffProps.

(* ------------------------------------------------------------------ *)
(** * The steps of a completed cycle *)
(* ------------------------------------------------------------------ *)

Module CycleSteps.

Local Unset Implicit Arguments.

Import JS Indexer IndexerSpec CheckpointSpec CycleSpec BatchSpec.
Local Open Scope Z_scope.

Lemma sorted_NoDup (l : list Z) : StronglySorted Z.lt l -> NoDup l.
Proof.
  induction 1 as [|x l S IH F]; constructor; [|exact IH].
  intro C. rewrite Forall_forall in F. specialize (F x C). lia.
Qed.

Lemma skipn_In (y : Z) (n : nat) (l : list Z) : In y (skipn n l) -> In y l.
Proof.
  intro H. rewrite <- (firstn_skipn n l). apply in_or_app. now right.
Qed.

Lemma skipn_NoDup (n : nat) (l : list Z) : NoDup l -> NoDup (skipn n l).
Proof.
  intro D. rewrite <- (firstn_skipn n l) in D. exact (NoDup_app_remove_l _ _ D).
Qed.

Lemma toString_NoDup (l : list Z) :
  Forall (fun z => 0 <= z) l -> NoDup l -> NoDup (map BigIntText.toString l).
Proof.
  intros P D. induction D as [|x l N D IH]; cbn [map]; constructor.
  - inversion P as [|? ? Px Pl]; subst. intro C. apply in_map_iff in C as (y & E & Hy).
    rewrite Forall_forall in Pl.
    apply BigIntTextFacts.toString_inj in E; [congruence | apply Pl, Hy | exact Px].
  - apply IH. now inversion P.
Qed.

Section Builtins.

Variable StringToNumber : string -> option Q.
Variable Date_parse : string -> option Q.

Lemma planCycle_queued (env : Env) (config : IndexerConfig) (nowMs : Q)
    (files : FileSystem) (plan : Plan) :
  planCycle StringToNumber Date_parse env config nowMs files = Return plan ->
  Forall canonical (plan_queuedAgentIds plan) /\ NoDup (plan_queuedAgentIds plan).
Proof.
  intro P. destruct (BatchProps.planCycle_sorted _ _ _ _ _ _ _ P) as [SS Pos].
  apply CycleProps.planCycle_inv in P as (_ & _ & _ & _ & _ & _ & _ & _ & _ & ->).
  unfold slice_from. split.
  - apply Forall_forall. intros s H. apply in_map_iff in H as (z & <- & Hz).
    exists z. split; [|reflexivity]. rewrite Forall_forall in Pos.
    apply Pos. eapply skipn_In, Hz.
  - apply toString_NoDup.
    + apply Forall_forall. intros z Hz. rewrite Forall_forall in Pos.
      apply Pos. eapply skipn_In, Hz.
    + apply skipn_NoDup, sorted_NoDup, SS.
Qed.

(** The steps a cycle that returns has gone through. *)
Lemma cycle_completed (env : Env) (configOverrides : ConfigOverrides) (nowMs : Q)
    (world world' : World) (result : CycleResult) :
  runIndexerCycle StringToNumber Date_parse env configOverrides nowMs world
    = (world', Return result) ->
  exists config plan world1,
    resolveRuntimeConfig StringToNumber env configOverrides = Return config
    /\ planCycle StringToNumber Date_parse env config nowMs (fs world) = Return plan
    /\ submitBatch env world (plan_batch plan) = (world1, Return (txHashes result))
    /\ mined world' = mined world1
    /\ fs world'
       = {| checkpointFile :=
              Some (JSON_stringify
                      {| lastProcessedBlock :=
                           if 0 <=? plan_latestBlock plan
                           then Some (plan_latestBlock plan) else None;
                         pendingAgentIds := plan_queuedAgentIds plan |});
            tmpFile := None |}
    /\ fromBlock result = plan_fromBlock plan
    /\ latestBlock result = plan_latestBlock plan
    /\ queuedAgentIds result = plan_queuedAgentIds plan
    /\ processedAgentIds result = map BigIntText.toString (agentIds (plan_batch plan))
    /\ dirtyAgentCount result = Z.of_nat (List.length (plan_sortedDirtyAgents plan))
    /\ processedAgentCount result = Z.of_nat (List.length (agentIds (plan_batch plan))).
Proof.
  unfold runIndexerCycle.
  destruct (openCycle StringToNumber env configOverrides) as [config|] eqn:O;
    cbn [bind]; [|discriminate].
  apply CycleProps.openCycle_inv in O.
  destruct (planCycle _ _ _ _ _ _) as [plan|] eqn:P; [|discriminate].
  destruct (submitBatch env world (plan_batch plan)) as [world1 [hashes|f]] eqn:S;
    [|discriminate].
  destruct (saveCheckpoint _ _ _) as [files [u|e]] eqn:V; [|discriminate].
  intro H. injection H as <- <-.
  exists config, plan, world1. cbn.
  destruct (planCycle_queued _ _ _ _ _ P) as [QC QD].
  unfold saveCheckpoint in V.
  rewrite (@CycleProps.normalizeCheckpoint_saved (plan_latestBlock plan) _ QC QD) in V.
  destruct (mkdir_fault (faults env)); [discriminate|].
  destruct (writeFile_fault (faults env)); [discriminate|].
  destruct (rename_fault (faults env)); [discriminate|].
  injection V as <-. cbn [tmpFile]. repeat split; assumption.
Qed.


End Builtins.

(** ** The property at the first cycle of the overflow scenario *)

Import CycleFixtures ScoringFixtures CycleRunFixtures.


End CycleSteps.

(* ------------------------------------------------------------------ *)
(** * Collecting feedback *)
(* ------------------------------------------------------------------ *)

Module CollectProps.

Local Unset Implicit Arguments.

Import JS Indexer IndexerSpec CycleSpec CollectSpec.
Local Open Scope Z_scope.

Lemma Map_get_cons (cache : Cache) (block key : Z) (ms : Q) :
  Map_get ((block, ms) :: cache) key
  = if block =? key then Some ms else Map_get cache key.
Proof. reflexivity. Qed.

Lemma collectLoop_entries (env : Env) (agentId : Z) (logs : list Log) :
  forall cache feedback result cache',
  agrees env cache ->
  collectLoop env agentId logs cache feedback = Return (result, cache') ->
  agrees env cache'
  /\ exists entries,
       result = (feedback ++ entries)%list /\ Forall2 (collectedFrom env) logs entries.
Proof.
  induction logs as [|log rest IH]; intros cache feedback result cache' A H;
    cbn [collectLoop] in H.
  - injection H as <- <-. split; [exact A|]. exists []. rewrite app_nil_r.
    split; [reflexivity | constructor].
  - destruct (Map_get cache (blockNumber log)) as [ms|] eqn:G; cbn [bind] in H.
    + rewrite G in H. destruct (A _ _ G) as (seconds & B & ->).
      destruct (IH _ _ _ _ A H) as (A' & entries & -> & F).
      split; [exact A'|]. exists (entryOf log seconds :: entries).
      rewrite <- app_assoc. split; [reflexivity|].
      constructor; [now exists seconds | exact F].
    + destruct (getBlock env (blockNumber log)) as [[seconds|]|] eqn:B;
        cbn [bind rpcCall failAt] in H; try discriminate.
      rewrite Map_get_cons, Z.eqb_refl in H.
      assert (A1 : agrees env ((blockNumber log, (seconds * 1000)%Q) :: cache)).
      { intros block ms. rewrite Map_get_cons.
        destruct (blockNumber log =? block) eqn:E; [|apply A].
        apply Z.eqb_eq in E. subst block. intro K. injection K as <-. now exists seconds. }
      destruct (IH _ _ _ _ A1 H) as (A' & entries & -> & F).
      split; [exact A'|]. exists (entryOf log seconds :: entries).
      rewrite <- app_assoc. split; [reflexivity|].
      constructor; [now exists seconds | exact F].
Qed.

Lemma collect_entries (env : Env) (agentId fromBlock toBlock : Z) (cache cache' : Cache)
    (feedback : list Scoring.Feedback) :
  agrees env cache ->
  collectFeedbackForAgent env agentId fromBlock toBlock cache = Return (feedback, cache') ->
  agrees env cache'
  /\ exists logs,
       queryFeedbackLogsForAgent env agentId fromBlock toBlock = Return logs
       /\ Forall2 (collectedFrom env) logs feedback.
Proof.
  intros A. unfold collectFeedbackForAgent.
  destruct (queryFeedbackLogsForAgent env agentId fromBlock toBlock) as [logs|];
    cbn [bind]; [|discriminate].
  intro H. destruct (collectLoop_entries _ _ _ _ _ _ _ A H) as (A' & entries & E & F).
  cbn [app] in E. subst entries. split; [exact A'|]. now exists logs.
Qed.



Lemma agrees_empty (env : Env) : agrees env [].
Proof. intros block ms H. discriminate. Qed.

Section Builtins.

Variable StringToNumber : string -> option Q.
Variable Date_parse : string -> option Q.

(** What the scoring engine reads in a collected entry. *)
Lemma entryOf_read (log : Log) (seconds : Q) :
  (0 < seconds)%Q ->
  Scoring.parseFeedbackTimestampMs Date_parse (entryOf log seconds)
  = Return (if Qltb (seconds * 1000) (10 ^ 12) then (seconds * 1000 * 1000)%Q
            else (seconds * 1000)%Q)
  /\ Scoring.parseFeedbackSentiment (entryOf log seconds) = Return (0 <? args_value log).
Proof.
  intro P. unfold Scoring.parseFeedbackTimestampMs, Scoring.parseFeedbackSentiment.
  cbn [entryOf Scoring.timestamp Scoring.createdAt Scoring.time Scoring.isPositive nullish].
  assert (L : Qleb (seconds * 1000) 0 = false) by (apply JSFacts.Qleb_false; lra).
  now rewrite L.
Qed.

(** X13. The feedback collected for an agent has one entry for each of its
    deduplicated logs, in their order: positive exactly when the value of
    the log is above zero, and stamped with the time of the log's block in
    milliseconds, the block's seconds times 1000, fetched or taken from a
    cache that agrees with the node. The scoring engine reads that stamp as
    it is when the block's time is 1e9 seconds or later, and multiplies it
    by 1000 once more when the block's time is earlier. *)
Theorem collected_feedback_mirrors_logs (env : Env) (agentId fromBlock toBlock : Z)
    (cache cache' : Cache) (feedback : list Scoring.Feedback) :
  agrees env cache ->
  collectFeedbackForAgent env agentId fromBlock toBlock cache = Return (feedback, cache') ->
  agrees env cache'
  /\ exists logs,
       queryFeedbackLogsForAgent env agentId fromBlock toBlock = Return logs
       /\ Forall2 (collectedFrom env) logs feedback
       /\ forall log seconds,
            In log logs -> getBlock env (blockNumber log) = Return (Some seconds) ->
            (0 < seconds)%Q ->
            Scoring.parseFeedbackSentiment (entryOf log seconds)
            = Return (0 <? args_value log)
            /\ ((10 ^ 9 <= seconds)%Q ->
                Scoring.parseFeedbackTimestampMs Date_parse (entryOf log seconds)
                = Return (seconds * 1000)%Q)
            /\ ((seconds < 10 ^ 9)%Q ->
                Scoring.parseFeedbackTimestampMs Date_parse (entryOf log seconds)
                = Return (seconds * 1000 * 1000)%Q).
Proof.
  intros A H. destruct (collect_entries _ _ _ _ _ _ _ A H) as (A' & logs & Q & F).
  split; [exact A'|]. exists logs. split; [exact Q|]. split; [exact F|].
  intros log seconds _ _ P. destruct (entryOf_read log seconds P) as [T S].
  split; [exact S|]. split; intro R; rewrite T.
  - assert (L : Qltb (seconds * 1000) (10 ^ 12) = false).
    { apply JSFacts.Qltb_false. change (10 ^ 12)%Q with (10 ^ 9 * 1000)%Q. lra. }
    now rewrite L.
  - assert (L : Qltb (seconds * 1000) (10 ^ 12) = true).
    { apply JSFacts.Qltb_true. change (10 ^ 12)%Q with (10 ^ 9 * 1000)%Q. lra. }
    now rewrite L.
Qed.

(** ** Scoring what was collected *)




End Builtins.

(** ** The properties at the agents of the overflow scenario *)

Import CycleFixtures ScoringFixtures CycleRunFixtures.

Lemma collected_feedback_mirrors_logs_witness :
  agrees busyEnv [(5, (blockSeconds * 1000)%Q)]
  /\ exists logs,
       queryFeedbackLogsForAgent busyEnv 3 1 10 = Return logs
       /\ Forall2 (collectedFrom busyEnv) logs [entryOf (logOf 3) blockSeconds].
Proof.
  assert (Run : collectFeedbackForAgent busyEnv 3 1 10 []
                = Return ([entryOf (logOf 3) blockSeconds],
                          [(5, (blockSeconds * 1000)%Q)]))
    by (vm_compute; reflexivity).
  destruct (collected_feedback_mirrors_logs noText busyEnv 3 1 10 [] _ _
              (agrees_empty busyEnv) Run) as (A & logs & Q & F & _).
  split; [exact A|]. exists logs. split; [exact Q | exact F].
Defined.


End CollectProps.

(* ------------------------------------------------------------------ *)
(** * The dirty set of a cycle *)
(* ------------------------------------------------------------------ *)

Module DirtySet.

Local Unset Implicit Arguments.

Import JS Indexer IndexerSpec CheckpointSpec CycleSpec BatchSpec.
Local Open Scope Z_scope.

Lemma addObserved_exact (logs : list Log) :
  forall dirty id,
  In id (addObserved dirty logs) <->
  In id dirty
  \/ exists log, In log logs /\ normalizeAgentIdString (args_agentId log) = Some id.
Proof.
  induction logs as [|log rest IH]; intros dirty id; cbn [addObserved].
  - split; [now left | intros [H|(log & [] & _)]; exact H].
  - destruct (normalizeAgentIdString (args_agentId log)) as [s|] eqn:E.
    + assert (N : String.eqb s "" = false).
      { apply CheckpointProps.canonical_nonempty.
        exact (CheckpointProps.normalizeAgentIdString_canonical _ E). }
      rewrite N, IH, CycleProps.Set_add_In. split.
      * intros [[H| ->]|(l & Hl & El)]; [now left | |].
        -- right. exists log. split; [now left | exact E].
        -- right. exists l. split; [now right | exact El].
      * intros [H|(l & [<-|Hl] & El)].
        -- left. now left.
        -- left. right. congruence.
        -- right. now exists l.
    + rewrite IH. split.
      * intros [H|(l & Hl & El)]; [now left|]. right. exists l. split; [now right | exact El].
      * intros [H|(l & [<-|Hl] & El)]; [now left | congruence |]. right. now exists l.
Qed.

Lemma dirtyAgentIds_exact (checkpoint : Checkpoint) (logs : list Log) (id : string) :
  wellFormed checkpoint ->
  (In id (dirtyAgentIds checkpoint logs) <->
   In id (pendingAgentIds checkpoint)
   \/ exists log, In log logs /\ normalizeAgentIdString (args_agentId log) = Some id).
Proof.
  intros [_ C _]. unfold dirtyAgentIds, Set_of. rewrite addObserved_exact.
  destruct (@CycleProps.Set_of_spec (pendingAgentIds checkpoint) []) as [_ I];
    [split; constructor | exact C |].
  rewrite I. cbn [In]. tauto.
Qed.

Section Builtins.

Variable StringToNumber : string -> option Q.
Variable Date_parse : string -> option Q.

(** X15. The agents a completed cycle handles are exactly the dirty ones:
    an identifier is processed or queued by the cycle exactly when it was
    pending in the checkpoint the cycle loaded or is the agent of one of
    the feedback logs the cycle observed. None is handled twice, and the
    dirty count is the number of processed and queued agents together. *)
Theorem cycle_handles_exactly_the_dirty_agents (env : Env)
    (configOverrides : ConfigOverrides) (nowMs : Q) (world world' : World)
    (result : CycleResult) :
  runIndexerCycle StringToNumber Date_parse env configOverrides nowMs world
    = (world', Return result) ->
  exists checkpoint logs,
    loadCheckpoint (faults env) (fs world) = Return checkpoint
    /\ (if fromBlock result <=? latestBlock result
        then queryFeedbackLogs env (fromBlock result) (latestBlock result)
        else Return []) = Return logs
    /\ (forall id,
          In id (processedAgentIds result ++ queuedAgentIds result) <->
          In id (pendingAgentIds checkpoint)
          \/ exists log, In log logs
                         /\ normalizeAgentIdString (args_agentId log) = Some id)
    /\ NoDup (processedAgentIds result ++ queuedAgentIds result)
    /\ dirtyAgentCount result
       = Z.of_nat (List.length (processedAgentIds result)
                   + List.length (queuedAgentIds result)).
Proof.
  intro Run.
  destruct (CycleSteps.cycle_completed _ _ _ _ _ _ _ _ Run)
    as (config & plan & world1 & Cfg & P & _ & _ & _ & Fb & Lb & Q & Pr & Dc & _).
  pose proof P as P'.
  apply CycleProps.planCycle_inv in P'
    as (checkpoint & zs & Load & _ & _ & Logs & Big & Sorted & Ids & Queued).
  exists checkpoint, (plan_newlyObservedLogs plan).
  split; [exact Load|]. split; [rewrite Fb, Lb; exact Logs|].
  pose proof (CycleProps.loadCheckpoint_wellFormed _ _ Load) as WF.
  destruct (CycleProps.dirtyAgentIds_spec (plan_newlyObservedLogs plan) WF) as [[ND Can] _].
  destruct (CycleProps.toBigInts_canonical Can) as (zs' & Big' & Texts & Pos).
  assert (zs' = zs) by congruence. subst zs'.
  assert (All : (processedAgentIds result ++ queuedAgentIds result)%list
                = map BigIntText.toString (plan_sortedDirtyAgents plan)).
  { rewrite Pr, Q, Queued, Ids. unfold slice_to, slice_from.
    rewrite <- map_app. now rewrite firstn_skipn. }
  assert (Perm : Permutation (dirtyAgentIds checkpoint (plan_newlyObservedLogs plan))
                   (map BigIntText.toString (plan_sortedDirtyAgents plan))).
  { rewrite <- Texts, Sorted. apply Permutation_map, CycleProps.Array_sort_perm. }
  rewrite All. split; [|split].
  - intro id. rewrite <- (dirtyAgentIds_exact checkpoint _ id WF). split; intro H.
    + eapply Permutation_in; [symmetry; exact Perm | exact H].
    + eapply Permutation_in; [exact Perm | exact H].
  - eapply Permutation_NoDup; [exact Perm | exact ND].
  - rewrite Dc, <- length_app, All. now rewrite length_map.
Qed.

End Builtins.

(** ** The property at the first cycle of the overflow scenario *)

Import CycleFixtures ScoringFixtures CycleRunFixtures.

Lemma cycle_handles_exactly_the_dirty_agents_witness :
  exists checkpoint logs,
    loadCheckpoint (faults busyEnv) (fs freshWorld) = Return checkpoint
    /\ (if fromBlock firstResult <=? latestBlock firstResult
        then queryFeedbackLogs busyEnv (fromBlock firstResult) (latestBlock firstResult)
        else Return []) = Return logs
    /\ (forall id,
          In id (processedAgentIds firstResult ++ queuedAgentIds firstResult) <->
          In id (pendingAgentIds checkpoint)
          \/ exists log, In log logs
                         /\ normalizeAgentIdString (args_agentId log) = Some id)
    /\ NoDup (processedAgentIds firstResult ++ queuedAgentIds firstResult)
    /\ dirtyAgentCount firstResult
       = Z.of_nat (List.length (processedAgentIds firstResult)
                   + List.length (queuedAgentIds firstResult)).
Proof.
  exact (cycle_handles_exactly_the_dirty_agents noText noText busyEnv oneAtATime
           testNowMs freshWorld afterFirstCycle firstResult BatchProps.first_cycle_runs).
Defined.

End DirtySet.

(* ------------------------------------------------------------------ *)
(** * Agent identifiers *)
(* ------------------------------------------------------------------ *)

Module ValidationProps.

Local Unset Implicit Arguments.

Import JS BigIntText BigIntTextSpec BigIntTextFacts Validation ValidationSpec.
Local Open Scope string_scope.

Lemma parse_digits_all_digits (s : string) :
  forall acc n, parse_digits 10 acc s = Some n -> all_digits s = true.
Proof.
  induction s as [|c r IH]; intros acc n H; [reflexivity|].
  cbn [parse_digits] in H. cbn [all_digits]. unfold is_digit.
  destruct (digit_of 10 c) as [d|]; [|discriminate]. exact (IH _ _ H).
Qed.

Lemma all_digits_parse (s : string) :
  all_digits s = true -> forall acc, exists n, parse_digits 10 acc s = Some n.
Proof.
  induction s as [|c r IH]; intros H acc; [now exists acc|].
  cbn [all_digits] in H. apply andb_true_iff in H as [C R]. unfold is_digit in C.
  cbn [parse_digits]. destruct (digit_of 10 c) as [d|]; [|discriminate].
  apply IH, R.
Qed.

Lemma all_decimal_digits_spec (s : string) :
  all_decimal_digits s = true <-> s <> "" /\ all_digits s = true.
Proof.
  unfold all_decimal_digits. destruct s as [|c r].
  - split; [discriminate | intros [N _]; congruence].
  - destruct (parse_digits 10 0 (String c r)) as [n|] eqn:E.
    + split; [|reflexivity]. intros _. split; [discriminate|].
      exact (parse_digits_all_digits _ _ _ E).
    + split; [discriminate|]. intros [_ D].
      destruct (all_digits_parse _ D 0%N) as [n F]. congruence.
Qed.

Lemma digit_not_sign (c : ascii) :
  is_digit c = true ->
  Ascii.eqb c "+" = false /\ Ascii.eqb c "-" = false
  /\ Ascii.eqb c "x" = false /\ Ascii.eqb c "X" = false
  /\ Ascii.eqb c "o" = false /\ Ascii.eqb c "O" = false
  /\ Ascii.eqb c "b" = false /\ Ascii.eqb c "B" = false.
Proof.
  destruct c as [[] [] [] [] [] [] [] []]; vm_compute; intro H;
    try discriminate H; repeat split.
Qed.

(** On a numeral [BigInt] reads the decimal value. *)
Lemma StringToBigInt_numeral (s : string) :
  s <> "" -> all_digits s = true -> StringToBigInt s = parse_number 10 s.
Proof.
  intros N D. unfold StringToBigInt. rewrite (trim_digits _ D).
  destruct s as [|c r]; [congruence|].
  cbn [all_digits] in D. apply andb_true_iff in D as [C R].
  destruct (digit_not_sign _ C) as (P & M & _). rewrite P, M.
  destruct (Ascii.eqb c "0"); [|reflexivity].
  destruct r as [|x r']; [reflexivity|].
  cbn [all_digits] in R. apply andb_true_iff in R as [X _].
  destruct (digit_not_sign _ X) as (_ & _ & A1 & A2 & A3 & A4 & A5 & A6).
  now rewrite A1, A2, A3, A4, A5, A6.
Qed.

Lemma toString_digits (z : Z) : (0 <= z)%Z -> all_digits (toString z) = true.
Proof.
  intro H. destruct z; [| |lia]; apply string_of_uint_digits.
Qed.

Lemma zeros_digits (k : nat) : all_digits (zeros k) = true.
Proof. induction k; [reflexivity | exact IHk]. Qed.

Lemma all_digits_app (s t : string) :
  all_digits (s ++ t) = all_digits s && all_digits t.
Proof.
  induction s as [|c r IH]; [reflexivity|]. cbn. now rewrite IH, andb_assoc.
Qed.

Lemma parse_digits_zeros (k : nat) (s : string) :
  parse_digits 10 0 (zeros k ++ s) = parse_digits 10 0 s.
Proof. induction k; [reflexivity | exact IHk]. Qed.

Lemma parse_digits_toString (z : Z) :
  (0 <= z)%Z -> parse_digits 10 0 (toString z) = Some (Z.to_N z).
Proof.
  intro H. pose proof (parse_number_toString (Z.to_N z)) as P.
  assert (E : toString z = NilEmpty.string_of_uint (N.to_uint (Z.to_N z)))
    by (destruct z; [reflexivity | reflexivity | lia]).
  rewrite E. unfold parse_number in P.
  destruct (NilEmpty.string_of_uint (N.to_uint (Z.to_N z))) eqn:S.
  - discriminate.
  - destruct (parse_digits 10 0 (String a s)) as [n|]; [|discriminate].
    cbn in P. injection P as P. f_equal. lia.
Qed.

(** The numeral of a decimal number, with its leading zeros. *)
Lemma numeral_shape (d : Decimal.uint) :
  exists k, NilEmpty.string_of_uint d
            = zeros k ++ NilEmpty.string_of_uint (Decimal.nzhead d).
Proof.
  induction d; try (now exists O).
  destruct IHd as [k E]. exists (S k). cbn. now rewrite E.
Qed.

Lemma is_digit_char (c : ascii) :
  is_digit c = true ->
  exists cons : Decimal.uint -> Decimal.uint,
    forall d, uint_of_char c (Some d) = Some (cons d).
Proof.
  destruct c as [[] [] [] [] [] [] [] []]; vm_compute; intro H;
    try discriminate H; eexists; intro d; reflexivity.
Qed.

Lemma all_digits_uint (s : string) :
  all_digits s = true -> exists d, NilEmpty.uint_of_string s = Some d.
Proof.
  induction s as [|c r IH]; [now exists Decimal.Nil|].
  cbn [all_digits]. rewrite andb_true_iff. intros [C R].
  destruct (IH R) as [d E]. destruct (is_digit_char _ C) as [cons K].
  exists (cons d). cbn [NilEmpty.uint_of_string]. now rewrite E, K.
Qed.

(** A numeral is the canonical text of its value after some zeros. *)
Lemma numeral_canonical (s : string) (n : N) :
  s <> "" -> parse_digits 10 0 s = Some n ->
  exists k, s = zeros k ++ toString (Z.of_N n).
Proof.
  intros N P.
  destruct (all_digits_uint _ (parse_digits_all_digits _ _ _ P)) as [d U].
  apply NilEmpty.sus in U. subst s.
  rewrite parse_digits_decimal in P. injection P as P.
  assert (T : toString (Z.of_N n) = NilEmpty.string_of_uint (Decimal.unorm d)).
  { assert (E : toString (Z.of_N n) = NilEmpty.string_of_uint (N.to_uint n)).
    { destruct n; reflexivity. }
    rewrite E. f_equal. rewrite <- P.
    apply DecimalN.Unsigned.to_of. }
  rewrite T. destruct (numeral_shape d) as [k E]. unfold Decimal.unorm.
  destruct (Decimal.nzhead d) eqn:Z; try (now exists k).
  destruct k as [|k].
  - cbn in E. congruence.
  - exists k. rewrite E. clear. induction k; [reflexivity|].
    cbn in *. now rewrite IHk.
Qed.

Lemma parseAgentIdParam_range (raw : string) (z : Z) :
  parseAgentIdParam raw = Return z ->
  (0 <= z <= UINT256_MAX)%Z /\ raw <> ""
  /\ exists n, parse_digits 10 0 raw = Some n /\ z = Z.of_N n.
Proof.
  unfold parseAgentIdParam.
  destruct (String.length raw =? 0)%nat; [discriminate|].
  destruct (all_decimal_digits raw) eqn:D; [|discriminate]. cbn [negb].
  apply all_decimal_digits_spec in D as [N D].
  rewrite (StringToBigInt_numeral _ N D). unfold parse_number.
  destruct raw as [|c r]; [congruence|].
  destruct (parse_digits 10 0 (String c r)) as [n|]; [|discriminate]. cbn [option_map].
  destruct (UINT256_MAX <? Z.of_N n)%Z eqn:U; [discriminate|].
  intro H. injection H as <-. apply Z.ltb_ge in U.
  split; [lia|]. split; [discriminate|]. now exists n.
Qed.

Lemma parseAgentIdParam_numeral (k : nat) (z : Z) :
  (0 <= z <= UINT256_MAX)%Z -> parseAgentIdParam (zeros k ++ toString z) = Return z.
Proof.
  intros [L U]. unfold parseAgentIdParam.
  assert (N : zeros k ++ toString z <> "").
  { pose proof (toString_nonempty z). destruct k; [exact H | discriminate]. }
  assert (D : all_digits (zeros k ++ toString z) = true).
  { now rewrite all_digits_app, zeros_digits, toString_digits. }
  assert (A : all_decimal_digits (zeros k ++ toString z) = true)
    by now apply all_decimal_digits_spec.
  rewrite A. cbn [negb].
  destruct (String.length (zeros k ++ toString z) =? 0)%nat eqn:Len.
  { apply Nat.eqb_eq in Len. destruct (zeros k ++ toString z); [congruence | discriminate]. }
  rewrite (StringToBigInt_numeral _ N D). unfold parse_number.
  rewrite parse_digits_zeros, (parse_digits_toString _ L).
  destruct (zeros k ++ toString z); [congruence|]. cbn [option_map].
  rewrite Z2N.id by exact L. apply Z.ltb_ge in U. now rewrite U.
Qed.

Lemma parseAgentIdParam_toString (raw : string) (z : Z) :
  parseAgentIdParam raw = Return z -> parseAgentIdParam (toString z) = Return z.
Proof.
  intro H. apply parseAgentIdParam_range in H as (R & _).
  exact (parseAgentIdParam_numeral 0 z R).
Qed.

(** X16. [parseAgentIdParam] returns exactly on the decimal numerals of the
    numbers from 0 to [2^256 - 1], leading zeros allowed, and returns the
    number; every other text is rejected with one of its three messages:
    the empty text as missing, a numeral above the range as exceeding it,
    and any other text as not a base-10 unsigned integer. The conversion to
    [BigInt] itself never fails. *)
Theorem parseAgentIdParam_accepts_numerals (raw : string) :
  (forall z, parseAgentIdParam raw = Return z <->
     (0 <= z <= UINT256_MAX)%Z /\ exists k, raw = zeros k ++ toString z)
  /\ (forall e, parseAgentIdParam raw = Throw e ->
        (raw = "" /\ e = Error "agentId is required")
        \/ (raw <> ""
            /\ (exists z k, (UINT256_MAX < z)%Z /\ raw = zeros k ++ toString z)
            /\ e = Error "agentId exceeds uint256 range")
        \/ (raw <> ""
            /\ (forall z k, (0 <= z)%Z -> raw <> zeros k ++ toString z)
            /\ e = Error "agentId must be a base-10 unsigned integer")).
Proof.
  split.
  - intro z. split.
    + intro H. apply parseAgentIdParam_range in H as (R & N & n & P & ->).
      split; [exact R|]. exact (numeral_canonical _ _ N P).
    + intros (R & k & ->). exact (parseAgentIdParam_numeral k z R).
  - intro e. unfold parseAgentIdParam.
    destruct (String.length raw =? 0)%nat eqn:Len.
    { apply Nat.eqb_eq in Len. intro H. injection H as <-. left.
      split; [|reflexivity]. destruct raw; [reflexivity | discriminate]. }
    assert (N : raw <> "") by (intros ->; discriminate).
    destruct (all_decimal_digits raw) eqn:D; cbn [negb].
    + apply all_decimal_digits_spec in D as [_ D].
      rewrite (StringToBigInt_numeral _ N D). unfold parse_number.
      destruct (all_digits_parse _ D 0%N) as [n P].
      destruct raw as [|c r]; [congruence|]. rewrite P. cbn [option_map].
      destruct (UINT256_MAX <? Z.of_N n)%Z eqn:U; [|discriminate].
      intro H. injection H as <-. right. left. split; [exact N|]. split; [|reflexivity].
      apply Z.ltb_lt in U. destruct (numeral_canonical _ _ N P) as [k E].
      now exists (Z.of_N n), k.
    + intro H. injection H as <-. right. right. split; [exact N|]. split; [|reflexivity].
      intros z k L E.
      assert (A : all_decimal_digits raw = true).
      { apply all_decimal_digits_spec. split; [exact N|].
        now rewrite E, all_digits_app, zeros_digits, toString_digits. }
      congruence.
Qed.

(** X17. The canonical text of an agent identifier parses back to the
    identifier when it lies between 0 and [2^256 - 1]; the text of a
    negative number is rejected as not a base-10 unsigned integer and that
    of a larger number as exceeding the range. What [parseAgentIdParam]
    returns can therefore be printed and parsed again without change. *)
Theorem parseAgentIdParam_of_toString (z : Z) :
  parseAgentIdParam (toString z)
  = (if (z <? 0)%Z then Throw (Error "agentId must be a base-10 unsigned integer")
     else if (UINT256_MAX <? z)%Z then Throw (Error "agentId exceeds uint256 range")
     else Return z)
  /\ forall raw, parseAgentIdParam raw = Return z ->
       parseAgentIdParam (toString z) = Return z.
Proof.
  split; [|intro raw; apply parseAgentIdParam_toString].
  destruct (z <? 0)%Z eqn:Neg.
  - apply Z.ltb_lt in Neg. destruct z as [| |p]; try lia. reflexivity.
  - apply Z.ltb_ge in Neg. destruct (UINT256_MAX <? z)%Z eqn:U.
    + unfold parseAgentIdParam.
      pose proof (toString_nonempty z) as N.
      pose proof (toString_digits _ Neg) as D.
      assert (A : all_decimal_digits (toString z) = true)
        by now apply all_decimal_digits_spec.
      rewrite A, (StringToBigInt_toString Neg), U.
      destruct (String.length (toString z) =? 0)%nat eqn:Len; [|reflexivity].
      apply Nat.eqb_eq in Len. destruct (toString z); [congruence | discriminate].
    + apply Z.ltb_ge in U. exact (parseAgentIdParam_numeral 0 z (conj Neg U)).
Qed.

End ValidationProps.

(* ------------------------------------------------------------------ *)
(** * Envelopes of the client *)
(* ------------------------------------------------------------------ *)

Module EnvelopeProps.

Local Unset Implicit Arguments.

Import JS Types Fallbacks Client JSFacts ClientSpec EnvelopeSpec.
Local Open Scope Q_scope.

(** ** The source sequence *)

Lemma resolveSequence_nonempty (requestedMode : option string) (config : AgentKitConfig)
    (overrides : QueryOptions) :
  resolveSequence requestedMode config overrides <> [].
Proof.
  unfold resolveSequence.
  repeat match goal with |- context [if ?b then _ else _] => destruct b end;
    discriminate.
Qed.

Lemma querySequence_nonempty (config : AgentKitConfig) (options : QueryOptions) :
  querySequence config options <> [].
Proof. apply resolveSequence_nonempty. Qed.

(** X18. The sources of a query are tried in the order paid API, demo API,
    contract, none twice, starting with the source the mode names: the
    contract for [trustscore_contract], which then is the only source; the
    demo API for [api_demo]; the paid API for any other text. The demo API
    follows the paid API exactly when the demo fallback is allowed, and the
    contract follows an API exactly when the on-chain fallback is allowed;
    an option of the query, where given, decides over the configuration. *)
Theorem resolveSequence_shape (requestedMode : option string) (config : AgentKitConfig)
    (overrides : QueryOptions) :
  let sequence := resolveSequence requestedMode config overrides in
  let mode := modeOf requestedMode config in
  StronglySorted earlier sequence
  /\ hd_error sequence
     = Some (if String.eqb mode "trustscore_contract" then TRUSTSCORE_CONTRACT
             else if String.eqb mode "api_demo" then API_DEMO
             else API_PAID)
  /\ (In API_DEMO sequence <->
      mode = "api_demo"%string
      \/ (mode <> "trustscore_contract"%string /\ demoAllowed config overrides = true))
  /\ (In TRUSTSCORE_CONTRACT sequence <->
      mode = "trustscore_contract"%string \/ onchainAllowed config overrides = true).
Proof.
  cbv zeta. unfold resolveSequence. fold (modeOf requestedMode config).
  fold (demoAllowed config overrides). fold (onchainAllowed config overrides).
  cbn [SOURCE_text].
  set (mode := modeOf requestedMode config).
  destruct (String.eqb mode "trustscore_contract") eqn:C.
  { apply String.eqb_eq in C. split; [repeat constructor|].
    split; [reflexivity|]. split.
    - split; [intros [H|[]]; discriminate|].
      intros [H|[H _]]; [rewrite C in H; discriminate | contradiction].
    - split; [now left | intros _; now left]. }
  apply String.eqb_neq in C.
  destruct (String.eqb mode "api_demo") eqn:D.
  { apply String.eqb_eq in D.
    split; [destruct (onchainAllowed config overrides); repeat constructor|].
    split; [reflexivity|]. split.
    - split; [now left | intros _; now left].
    - destruct (onchainAllowed config overrides); cbn.
      + split; [now right | intros _; right; now left].
      + split; [intros [H|[]]; discriminate|].
        intros [H|H]; [contradiction | discriminate]. }
  apply String.eqb_neq in D.
  split.
  { destruct (demoAllowed config overrides), (onchainAllowed config overrides);
      cbn; repeat constructor. }
  split; [reflexivity|]. split.
  - destruct (demoAllowed config overrides), (onchainAllowed config overrides); cbn;
      (split; [intro H | intros [H|[_ H]]]); try contradiction; try discriminate;
      try (right; now split); try (right; now left);
      repeat (destruct H as [H|H]; try discriminate; try contradiction).
  - destruct (demoAllowed config overrides), (onchainAllowed config overrides); cbn;
      (split; [intro H | intros [H|H]]); try contradiction; try discriminate;
      try (now right); try (right; right; now left); try (right; now left);
      repeat (destruct H as [H|H]; try discriminate; try contradiction).
Qed.

(** ** Envelopes of a query *)

Lemma toFixed4_range (v : Q) : 0 <= v -> v <= 1 -> 0 <= toFixed4 v <= 1.
Proof.
  intros L U. unfold toFixed4.
  assert (F1 : (0 <= Qfloor (v * 10000 + (1 # 2)))%Z).
  { change 0%Z with (Qfloor 0). apply Qfloor_resp_le. lra. }
  assert (F2 : (Qfloor (v * 10000 + (1 # 2)) <= 10000)%Z).
  { apply Z.le_trans with (Qfloor (10000 + (1 # 2))); [|discriminate].
    apply Qfloor_resp_le. lra. }
  rewrite Zle_Qle in F1, F2.
  set (f := inject_Z (Qfloor (v * 10000 + (1 # 2)))) in *.
  change (inject_Z 0) with 0 in F1. change (inject_Z 10000) with 10000 in F2.
  split.
  - apply Qle_shift_div_l; [reflexivity | lra].
  - apply Qle_shift_div_r; [reflexivity | lra].
Qed.

Lemma clampConfidence_range (x : option Q) (c : Q) :
  clampConfidence x = Some c -> 0 <= c <= 1.
Proof.
  unfold clampConfidence. destruct x as [v|]; [|discriminate].
  destruct (Qltb v 0) eqn:L; [intro H; injection H as <-; lra|].
  destruct (Qltb 1 v) eqn:U; [intro H; injection H as <-; lra|].
  apply Qltb_false in L, U. intro H. injection H as <-. now apply toFixed4_range.
Qed.

Section Builtins.

Variable StringToNumber : string -> option Q.

Lemma toNonNegativeNumber_nonneg (v : value) (s : Q) :
  toNonNegativeNumber StringToNumber v = Some s -> 0 <= s.
Proof.
  unfold toNonNegativeNumber. destruct (toNumber StringToNumber v) as [parsed|];
    [|discriminate].
  destruct (Qltb parsed 0) eqn:L; [discriminate|].
  apply Qltb_false in L. intro H. now injection H as <-.
Qed.

Lemma resolveVerdict_proceed (s : option Q) :
  resolveRecommendation (resolveVerdict s) = PROCEED -> exists q, s = Some q /\ 700 < q.
Proof.
  destruct s as [q|]; cbn; [|discriminate].
  destruct (Qltb 700 q) eqn:T; [intros _; exists q; split; [reflexivity|];
                                now apply Qltb_true|].
  destruct (Qleb 400 q); discriminate.
Qed.

Lemma resolveVerdict_abort (s : option Q) :
  resolveRecommendation (resolveVerdict s) = ABORT -> exists q, s = Some q /\ q < 400.
Proof.
  destruct s as [q|]; cbn; [|discriminate].
  destruct (Qltb 700 q) eqn:T; [discriminate|].
  destruct (Qleb 400 q) eqn:C; [discriminate|].
  intros _. exists q. split; [reflexivity | now apply Qleb_false].
Qed.

Lemma buildSuccessResponse_coherent (agentId : string) (score confidence : value)
    (source : SOURCE) (correlationId : string) (data : Data) :
  coherent (buildSuccessResponse StringToNumber agentId score confidence source
              correlationId data).
Proof.
  unfold buildSuccessResponse.
  set (noHistory := (_ && _)%bool).
  split; cbn.
  - tauto.
  - reflexivity.
  - discriminate.
  - discriminate.
  - apply toNonNegativeNumber_nonneg.
  - apply clampConfidence_range.
  - reflexivity.
  - destruct noHistory; [discriminate | apply resolveVerdict_proceed].
  - destruct noHistory; [discriminate | apply resolveVerdict_abort].
Qed.

Lemma withDegradedContext_coherent (env : Envelope) (fallbackCode : FALLBACK_CODE)
    (fallbackMessage : string) :
  coherent env -> data env <> None ->
  coherent (withDegradedContext env fallbackCode fallbackMessage).
Proof.
  intros [] D. split; cbn; try assumption.
  - split; discriminate.
  - reflexivity.
  - discriminate.
  - intro C. contradiction.
Qed.

Lemma buildStructuredFailure_coherent (agentId : string) (source : SOURCE)
    (fallback : FALLBACK_CODE) (correlationId : string) (status : STATUS)
    (message : string) :
  status <> OK ->
  (status = ERROR -> fallback = INVALID_AGENT_ID \/ fallback = AGENT_NOT_FOUND) ->
  coherent (buildStructuredFailure agentId source fallback correlationId status message).
Proof.
  intros S E. split; cbn; try discriminate; try reflexivity.
  - split; [contradiction | discriminate].
  - intro H. split; [reflexivity|]. destruct (E H) as [->| ->]; auto.
  - intros _. repeat split. discriminate.
Qed.

Lemma walkSequence_coherent (world : World) (config : AgentKitConfig) (kind : Kind)
    (agentId correlationId : string) (sequence : list SOURCE) :
  forall prior env,
  walkSequence StringToNumber world config kind agentId correlationId prior sequence
    = inl env ->
  coherent env.
Proof.
  induction sequence as [|source rest IH]; intros prior env H; cbn [walkSequence] in H;
    [discriminate|].
  destruct (attempt StringToNumber world config kind agentId source) as [result|e].
  - destruct prior as [p|]; injection H as <-.
    + apply withDegradedContext_coherent; [apply buildSuccessResponse_coherent|].
      discriminate.
    + apply buildSuccessResponse_coherent.
  - exact (IH _ _ H).
Qed.

(** X19. Every envelope [queryTrust] returns hangs together: its status is
    [ok] exactly when it names no fallback, its error carries the code of
    its fallback, an [error] status comes without data and only for an
    invalid or unknown agent, an envelope without data has no score and no
    confidence, a score is never negative and a confidence lies within
    [[0, 1]]. The recommendation is that of the verdict: [proceed] is given
    only with a score above 700 and [abort] only with a score below 400. *)
Theorem every_envelope_is_coherent (world : World) (config : AgentKitConfig)
    (kind : Kind) (rawAgentId : string) (options : QueryOptions) :
  coherent (queryTrust StringToNumber world config kind rawAgentId options).
Proof.
  unfold queryTrust.
  destruct (Validation.parseAgentIdParam rawAgentId) as [parsed|e].
  - destruct (walkSequence _ _ _ _ _ _ _ _) as [env|prior] eqn:W.
    + exact (walkSequence_coherent _ _ _ _ _ _ _ _ W).
    + apply buildStructuredFailure_coherent.
      * destruct prior as [[[] m]|]; discriminate.
      * destruct prior as [[[] m]|]; try discriminate. intros _. now right.
  - apply buildStructuredFailure_coherent; [discriminate | intros _; now left].
Qed.

(** ** Queries that reach no source, or none that answers *)

(** X20. An agent identifier that is not a decimal [uint256] is answered
    without any source being asked: the envelope is the same in every world
    that draws the same random identifier, has the status [error] and the
    fallback [invalid_agent_id], gives the identifier back as it came, and
    names the first source of the sequence. *)
Theorem invalid_agent_id_asks_no_source (world : World) (config : AgentKitConfig)
    (kind : Kind) (rawAgentId : string) (options : QueryOptions) (e : exn) :
  Validation.parseAgentIdParam rawAgentId = Throw e ->
  let env := queryTrust StringToNumber world config kind rawAgentId options in
  status env = ERROR
  /\ fallback env = Some INVALID_AGENT_ID
  /\ agentId env = rawAgentId
  /\ hd_error (querySequence config options) = Some (source env)
  /\ score env = None /\ data env = None
  /\ verdict env = UNKNOWN /\ recommendation env = MANUAL_REVIEW
  /\ correlationId env = correlationOf world options
  /\ forall world',
       randomUUID world' = randomUUID world ->
       queryTrust StringToNumber world' config kind rawAgentId options = env.
Proof.
  intros P env. unfold env, queryTrust. rewrite P. cbn.
  repeat split.
  - pose proof (querySequence_nonempty config options) as N.
    destruct (querySequence config options); [congruence | reflexivity].
  - intros world' R. now rewrite R.
Qed.

Lemma nonempty_last (l : list SOURCE) (d : SOURCE) :
  l <> [] -> exists init, l = (init ++ [last l d])%list.
Proof.
  intro N. exists (removelast l). now apply app_removelast_last.
Qed.


(** X21. When every source of the sequence fails, the envelope names the
    last source and carries the classification of its failure as fallback
    and error code, without score, confidence or data; its status is
    [error] when that classification is [agent_not_found] and [degraded]
    otherwise. *)
Theorem exhausted_sources_are_reported (world : World) (config : AgentKitConfig)
    (kind : Kind) (rawAgentId : string) (options : QueryOptions) (parsed : Z) :
  Validation.parseAgentIdParam rawAgentId = Return parsed ->
  (forall source, In source (querySequence config options) ->
     exists e, attempt StringToNumber world config kind (BigIntText.toString parsed) source
               = Throw e) ->
  let env := queryTrust StringToNumber world config kind rawAgentId options in
  let lastSource := last (querySequence config options) API_PAID in
  exists failure,
    attempt StringToNumber world config kind (BigIntText.toString parsed) lastSource
      = Throw failure
    /\ source env = lastSource
    /\ fallback env = Some (classify lastSource failure)
    /\ option_map info_code (Fallbacks.error env) = Some (classify lastSource failure)
    /\ status env = match classify lastSource failure with
                    | AGENT_NOT_FOUND => ERROR
                    | _ => DEGRADED
                    end
    /\ agentId env = BigIntText.toString parsed
    /\ score env = None /\ confidence env = None /\ data env = None
    /\ verdict env = UNKNOWN /\ recommendation env = MANUAL_REVIEW.
Proof.
  intros P F env lastSource.
  destruct (nonempty_last _ API_PAID (querySequence_nonempty config options))
    as [init E]. fold lastSource in E.
  destruct (F lastSource) as [failure A].
  { rewrite E. apply in_or_app. right. now left. }
  exists failure. split; [exact A|].
  assert (W : forall correlationId,
             walkSequence StringToNumber world config kind (BigIntText.toString parsed)
               correlationId None (querySequence config options)
             = inr (Some {| prior_code := classify lastSource failure;
                            prior_message := toErrorMessage failure |})).
  { intro correlationId. rewrite E at 1.
    rewrite <- (app_nil_r (init ++ [lastSource])).
    rewrite ClientProps.walk_failed_prefix.
    2:{ intros s Hs. apply F. now rewrite E. }
    rewrite (ClientProps.priorAfter_last StringToNumber world config kind _ init
               lastSource None A).
    reflexivity. }
  unfold env, queryTrust. rewrite P, W. fold lastSource.
  destruct (classify lastSource failure); cbn; repeat split.
Qed.

Lemma walkSequence_degraded (world : World) (config : AgentKitConfig) (kind : Kind)
    (agentId correlationId : string) (sequence : list SOURCE) :
  forall prior env,
  walkSequence StringToNumber world config kind agentId correlationId (Some prior)
    sequence = inl env ->
  status env = DEGRADED.
Proof.
  induction sequence as [|source rest IH]; intros prior env H; cbn [walkSequence] in H;
    [discriminate|].
  destruct (attempt StringToNumber world config kind agentId source) as [result|e].
  - injection H as <-. reflexivity.
  - exact (IH _ _ H).
Qed.

Lemma ok_first_answer (world : World) (config : AgentKitConfig)
    (kind : Kind) (rawAgentId : string) (options : QueryOptions) :
  status (queryTrust StringToNumber world config kind rawAgentId options) = OK ->
  exists parsed first rest result,
    Validation.parseAgentIdParam rawAgentId = Return parsed
    /\ querySequence config options = first :: rest
    /\ attempt StringToNumber world config kind (BigIntText.toString parsed) first
       = Return result.
Proof.
  intro H. unfold queryTrust in H.
  destruct (Validation.parseAgentIdParam rawAgentId) as [parsed|e]; [|discriminate].
  destruct (querySequence config options) as [|first rest] eqn:S.
  { cbn in H. discriminate. }
  exists parsed, first, rest. cbn [walkSequence] in H.
  destruct (attempt StringToNumber world config kind (BigIntText.toString parsed) first)
    as [result|e]; [now exists result|].
  exfalso.
  destruct (walkSequence _ _ _ _ _ _ (Some _) rest) as [env'|prior] eqn:W.
  - apply walkSequence_degraded in W. congruence.
  - cbn in H. destruct prior as [[[] m]|]; discriminate.
Qed.

(** X22. A query is answered [ok] exactly when its agent identifier is
    valid and the first source of its sequence answers. The envelope then
    names that source, has no fallback and no error, carries the canonical
    text of the identifier, the score of the answer made non-negative
    ([null] otherwise) and its data. *)
Theorem ok_exactly_when_first_source_answers (world : World) (config : AgentKitConfig)
    (kind : Kind) (rawAgentId : string) (options : QueryOptions) :
  let env := queryTrust StringToNumber world config kind rawAgentId options in
  (status env = OK <->
   exists parsed first rest result,
     Validation.parseAgentIdParam rawAgentId = Return parsed
     /\ querySequence config options = first :: rest
     /\ attempt StringToNumber world config kind (BigIntText.toString parsed) first
        = Return result)
  /\ forall parsed first rest result,
       Validation.parseAgentIdParam rawAgentId = Return parsed ->
       querySequence config options = first :: rest ->
       attempt StringToNumber world config kind (BigIntText.toString parsed) first
         = Return result ->
       source env = first
       /\ fallback env = None /\ Fallbacks.error env = None
       /\ agentId env = BigIntText.toString parsed
       /\ Validation.parseAgentIdParam (agentId env) = Return parsed
       /\ score env = toNonNegativeNumber StringToNumber (nullable (res_score result))
       /\ data env = Some (res_data result)
       /\ correlationId env = correlationOf world options.
Proof.
  intro env.
  assert (Right : forall parsed first rest result,
             Validation.parseAgentIdParam rawAgentId = Return parsed ->
             querySequence config options = first :: rest ->
             attempt StringToNumber world config kind (BigIntText.toString parsed) first
               = Return result ->
             env = buildSuccessResponse StringToNumber (BigIntText.toString parsed)
                     (nullable (res_score result)) (nullable (res_confidence result))
                     first (correlationOf world options) (res_data result)).
  { intros parsed first rest result P S A. unfold env, queryTrust.
    rewrite P, S. cbn [walkSequence]. now rewrite A. }
  split.
  - split.
    + apply ok_first_answer.
    + intros (parsed & first & rest & result & P & S & A).
      now rewrite (Right _ _ _ _ P S A).
  - intros parsed first rest result P S A. rewrite (Right _ _ _ _ P S A). cbn.
    repeat split. exact (ValidationProps.parseAgentIdParam_toString _ _ P).
Qed.

(** ** Replies of the API *)

Lemma digit_lower (c : ascii) :
  BigIntTextSpec.is_digit c = true -> lower_ascii c <> "t"%char.
Proof.
  destruct c as [[] [] [] [] [] [] [] []]; vm_compute; intros H C; congruence.
Qed.

Lemma digits_no_timeout (s : string) :
  BigIntTextSpec.all_digits s = true -> includes (toLowerCase s) "timeout" = false.
Proof.
  induction s as [|c r IH]; [reflexivity|].
  cbn [BigIntTextSpec.all_digits]. rewrite andb_true_iff. intros [C R].
  cbn [toLowerCase includes String.prefix]. rewrite (IH R).
  destruct (ascii_dec "t" (lower_ascii c)) as [E|N]; [|reflexivity].
  symmetry in E. now apply digit_lower in E.
Qed.

Lemma status_text_no_timeout (httpStatus : Z) :
  includes (toLowerCase ("HTTP " ++ BigIntText.toString httpStatus)) "timeout" = false.
Proof.
  assert (T : includes (toLowerCase (BigIntText.toString httpStatus)) "timeout" = false).
  { destruct httpStatus as [|p|p]; try (apply digits_no_timeout;
      apply BigIntTextFacts.string_of_uint_digits).
    cbn [BigIntText.toString toLowerCase includes].
    rewrite (digits_no_timeout _ (BigIntTextFacts.string_of_uint_digits _)).
    reflexivity. }
  cbn [append toLowerCase includes]. rewrite T. reflexivity.
Qed.

Lemma mapApiFailure_status (e : JsError) (n : Z) :
  statusCode e = Some n ->
  mapApiFailure e
  = if (n =? 404)%Z then AGENT_NOT_FOUND
    else if (n =? 402)%Z then PAYMENT_UNAVAILABLE
    else if (500 <=? n)%Z then ORACLE_UNAVAILABLE
    else if isTimeoutError e then API_TIMEOUT
    else ORACLE_UNAVAILABLE.
Proof.
  intro H. unfold mapApiFailure. rewrite H.
  destruct n as [|p|p]; try reflexivity.
  repeat (destruct p as [p|p|]; try reflexivity).
Qed.

Lemma requestJson_reply (world : World) (source : SOURCE) (url : string)
    (caller : string -> HttpOutcome) (httpStatus : Z) (body : Body) :
  source <> TRUSTSCORE_CONTRACT ->
  fetcherOf world source = Return caller ->
  caller url = Responded httpStatus body ->
  requestJson world url (match source with API_PAID => true | _ => false end)
  = if (200 <=? httpStatus)%Z && (httpStatus <=? 299)%Z then Return body
    else Throw (buildHttpError httpStatus body).
Proof.
  intros N F C. unfold requestJson.
  destruct source; [| |congruence]; cbn in F |- *.
  - rewrite F. cbn [bind]. now rewrite C.
  - injection F as <-. now rewrite C.
Qed.

(** X23. What a reply of the API becomes. A reply with a status from 200
    to 299 is an answer, whose score is that of the body made non-negative.
    Any other reply is a failure carrying its status, classified by it:
    404 as [agent_not_found], 402 as [payment_unavailable], 500 and above as
    [oracle_unavailable]; below 500 it is [api_timeout] when the text of
    the body mentions a timeout and [oracle_unavailable] otherwise, also
    when the body has no text. *)
Theorem api_reply_is_classified_by_status (world : World) (config : AgentKitConfig)
    (kind : Kind) (agentId : string) (source : SOURCE)
    (caller : string -> HttpOutcome) (httpStatus : Z) (body : Body) :
  source <> TRUSTSCORE_CONTRACT ->
  fetcherOf world source = Return caller ->
  caller (urlOf config kind agentId source) = Responded httpStatus body ->
  if ((200 <=? httpStatus) && (httpStatus <=? 299))%Z
  then exists result,
         attempt StringToNumber world config kind agentId source = Return result
         /\ res_score result = toNonNegativeNumber StringToNumber (body_score body)
         /\ data_demo (res_data result) = body_demo body
  else exists e,
         attempt StringToNumber world config kind agentId source = Throw e
         /\ statusCode e = Some httpStatus
         /\ toErrorMessage e
            = toErrorMessage (buildHttpError httpStatus body)
         /\ classify source e
            = if (httpStatus =? 404)%Z then AGENT_NOT_FOUND
              else if (httpStatus =? 402)%Z then PAYMENT_UNAVAILABLE
              else if (500 <=? httpStatus)%Z then ORACLE_UNAVAILABLE
              else if includes (toLowerCase (replyText body)) "timeout" then API_TIMEOUT
              else ORACLE_UNAVAILABLE.
Proof.
  intros N F C.
  assert (A : attempt StringToNumber world config kind agentId source
              = queryApi StringToNumber world config kind agentId source)
    by (destruct source; [reflexivity | reflexivity | congruence]).
  rewrite A. unfold queryApi. fold (urlOf config kind agentId source).
  rewrite (requestJson_reply world source _ caller httpStatus body N F C).
  destruct ((200 <=? httpStatus) && (httpStatus <=? 299))%Z eqn:Ok.
  - cbn [bind]. destruct kind; eexists; repeat split; reflexivity.
  - cbn [bind]. exists (buildHttpError httpStatus body).
    split; [reflexivity|]. split; [reflexivity|]. split; [reflexivity|].
    assert (M : classify source (buildHttpError httpStatus body)
                = mapApiFailure (buildHttpError httpStatus body))
      by (destruct source; [reflexivity | reflexivity | congruence]).
    rewrite M, (mapApiFailure_status (buildHttpError httpStatus body) httpStatus eq_refl).
    destruct (httpStatus =? 404)%Z; [reflexivity|].
    destruct (httpStatus =? 402)%Z; [reflexivity|].
    destruct (500 <=? httpStatus)%Z; [reflexivity|].
    unfold isTimeoutError, code_is. cbn [name code message buildHttpError].
    cbn [String.eqb Ascii.eqb Bool.eqb orb].
    unfold replyText.
    destruct (negb (String.eqb (body_error body) "")); [reflexivity|].
    destruct (negb (String.eqb (body_details body) "")); [reflexivity|].
    destruct (String.eqb (body_message body) "") eqn:Em; cbn [negb].
    + apply String.eqb_eq in Em. rewrite Em, status_text_no_timeout. reflexivity.
    + reflexivity.
Qed.

(** X24. Without a private key the paying fetcher cannot be made, so a
    query never gets an [ok] answer from the paid API: the paid attempt
    fails as [payment_unavailable], whatever the fetchers would answer, and
    a query whose sequence starts with the paid API is answered [degraded]
    or [error]. When the paid API is its only source the answer is
    [degraded] with the fallback [payment_unavailable]. *)
Theorem no_private_key_no_paid_answer (world : World) (config : AgentKitConfig)
    (kind : Kind) (rawAgentId : string) (options : QueryOptions)
    (privateKey : option string) (wrapped : string -> HttpOutcome) :
  paidFetch world = ClientSetup.createPaidFetch privateKey wrapped ->
  (privateKey = None \/ privateKey = Some ""%string) ->
  let env := queryTrust StringToNumber world config kind rawAgentId options in
  (forall agentId, exists e,
     attempt StringToNumber world config kind agentId API_PAID = Throw e
     /\ classify API_PAID e = PAYMENT_UNAVAILABLE)
  /\ (hd_error (querySequence config options) = Some API_PAID -> status env <> OK)
  /\ (querySequence config options = [API_PAID] ->
      forall parsed, Validation.parseAgentIdParam rawAgentId = Return parsed ->
      status env = DEGRADED /\ fallback env = Some PAYMENT_UNAVAILABLE
      /\ source env = API_PAID /\ score env = None).
Proof.
  intros F K env.
  assert (A : forall agentId, exists e,
             attempt StringToNumber world config kind agentId API_PAID = Throw e
             /\ classify API_PAID e = PAYMENT_UNAVAILABLE).
  { intro agentId. cbn [attempt]. unfold queryApi, requestJson. rewrite F.
    destruct K as [-> | ->]; cbn; eexists; split; reflexivity. }
  split; [exact A|]. split.
  - intros H C.
    apply ok_first_answer in C.
    destruct C as (parsed & first & rest & result & P & S & R).
    rewrite S in H. injection H as ->.
    destruct (A (BigIntText.toString parsed)) as (e & E & _). congruence.
  - intros S parsed P. unfold env, queryTrust. rewrite P, S. cbn [walkSequence].
    destruct (A (BigIntText.toString parsed)) as (e & E & C). rewrite E.
    cbn [walkSequence]. rewrite C. cbn. repeat split.
Qed.

End Builtins.

(** ** The analytics of a contract record *)

Lemma negativeRate_facts (total positiveFeedback : Q) :
  let positive := Math_max 0 (Math_min positiveFeedback total) in
  let negative := Math_max 0 (total - positive) in
  let rate := Math_round ((negative / total) * 10000) in
  (0 <= rate <= 10000)%Z
  /\ (total < 0 -> rate = 0%Z)
  /\ (0 < total -> total <= positiveFeedback -> rate = 0%Z)
  /\ (0 < total -> positiveFeedback <= 0 -> rate = 10000%Z).
Proof.
  intros positive negative rate.
  assert (Zero : negative == 0 -> rate = 0%Z).
  { intro E. unfold rate. rewrite (NumberFacts.Math_round_of ((negative / total) * 10000) 0).
    - reflexivity.
    - rewrite E. unfold Qdiv. ring. }
  destruct (Qlt_le_dec total 0) as [Neg|Pos0].
  { assert (P : positive == 0).
    { unfold positive.
      destruct (min_cases positiveFeedback total) as [[M1 M2]|[M1 M2]];
        destruct (max_cases 0 (Math_min positiveFeedback total)) as [[X1 X2]|[X1 X2]]; lra. }
    assert (E : negative == 0).
    { unfold negative. destruct (max_cases 0 (total - positive)) as [[X1 X2]|[X1 X2]]; lra. }
    rewrite (Zero E). repeat split; try lia; intros; try reflexivity; lra. }
  destruct (Qeq_dec total 0) as [Z0|NZ].
  { assert (R : rate = 0%Z).
    { unfold rate. rewrite (NumberFacts.Math_round_of ((negative / total) * 10000) 0);
        [reflexivity|]. unfold Qdiv. rewrite Z0. unfold Qinv. cbn. ring. }
    rewrite R. repeat split; try lia; intros; lra. }
  assert (Pos : 0 < total) by (destruct (Qlt_le_dec 0 total); [assumption|]; exfalso; apply NZ; lra).
  assert (P : 0 <= positive /\ positive <= total
              /\ (total <= positiveFeedback -> positive == total)
              /\ (positiveFeedback <= 0 -> positive == 0)).
  { unfold positive.
    destruct (min_cases positiveFeedback total) as [[M1 M2]|[M1 M2]];
      destruct (max_cases 0 (Math_min positiveFeedback total)) as [[X1 X2]|[X1 X2]];
      repeat split; intros; lra. }
  destruct P as (P0 & P1 & P2 & P3).
  assert (E : negative == total - positive).
  { unfold negative. destruct (max_cases 0 (total - positive)) as [[X1 X2]|[X1 X2]]; lra. }
  assert (Frac : negative / total * 10000 == (total - positive) * 10000 / total).
  { rewrite E. field. lra. }
  split.
  - unfold rate. apply Math_round_between; rewrite Frac.
    + apply Qle_shift_div_l; [exact Pos|]. change (inject_Z 0) with 0. nra.
    + apply Qle_shift_div_r; [exact Pos|]. change (inject_Z 10000) with 10000. nra.
  - split; [intro; lra|]. split.
    + intros _ H. apply Zero. rewrite E, (P2 H). ring.
    + intros _ H. unfold rate.
      rewrite (NumberFacts.Math_round_of (negative / total * 10000) (inject_Z 10000)).
      * apply Math_round_Z.
      * rewrite Frac, (P3 H). change (inject_Z 10000) with 10000. field. lra.
Qed.

(** X25. The analytics of a record read from the contract. The negative
    rate is a whole number of basis points from 0 to 10000: 0 when there
    is no feedback, or a negative count of it, or at least as many positive
    entries as entries, and 10000 when no entry is positive. The record is
    flagged exactly when it has feedback and the rate is above the
    threshold of the configuration. The risk factors are among the three
    known ones, in their fixed order, each listed exactly under its
    condition. *)
Theorem report_analytics_bounds (record : DetailedRecord) (config : AgentKitConfig) :
  let '(rate, flagged, risk) := buildReportAnalytics record config in
  let total := rec_totalFeedback record in
  (exists bps, rate = inject_Z bps /\ (0 <= bps <= 10000)%Z)
  /\ (total <= 0 -> rate == 0 /\ flagged = false)
  /\ (0 < total -> total <= rec_positiveFeedback record -> rate == 0)
  /\ (0 < total -> rec_positiveFeedback record <= 0 -> rate == 10000)
  /\ (flagged = true <-> 0 < total /\ negativeFlagThresholdBps config < rate)
  /\ sublist risk riskOrder
  /\ (In "low_feedback_volume"%string risk <->
      total < confidenceThresholdFeedbackCount config)
  /\ (In "high_negative_feedback_ratio"%string risk <-> flagged = true)
  /\ (In "low_trust_score"%string risk <-> rec_score record < 500).
Proof.
  unfold buildReportAnalytics. cbv zeta.
  pose proof (negativeRate_facts (rec_totalFeedback record) (rec_positiveFeedback record))
    as F. cbv zeta in F.
  set (total := rec_totalFeedback record) in *.
  set (bps := Math_round _) in *.
  destruct F as (Range & Neg & Full & Empty).
  set (rate := if Qeq_bool total 0 then 0 else inject_Z bps).
  assert (R : exists z, rate = inject_Z z /\ (0 <= z <= 10000)%Z
                        /\ (Qeq_bool total 0 = false -> z = bps)).
  { unfold rate. destruct (Qeq_bool total 0).
    - exists 0%Z. split; [reflexivity|]. split; [lia | discriminate].
    - exists bps. split; [reflexivity|]. split; [exact Range | reflexivity]. }
  destruct R as (z & Rz & Zr & Zb).
  assert (T0 : total == 0 -> rate == 0).
  { intro E. unfold rate. apply Qeq_bool_iff in E. now rewrite E. }
  assert (Tn : ~ total == 0 -> rate = inject_Z bps).
  { intro N. unfold rate. destruct (Qeq_bool total 0) eqn:E; [|reflexivity].
    apply Qeq_bool_iff in E. contradiction. }
  split; [now exists z|].
  assert (Fl : Qltb 0 total && Qltb (negativeFlagThresholdBps config) rate = true
               <-> 0 < total /\ negativeFlagThresholdBps config < rate).
  { now rewrite andb_true_iff, !Qltb_true. }
  split.
  { intro L. split.
    - destruct (Qeq_dec total 0) as [E|N]; [exact (T0 E)|].
      rewrite (Tn N), Neg; [reflexivity | lra].
    - destruct (Qltb 0 total) eqn:P; [|reflexivity]. apply Qltb_true in P. lra. }
  split.
  { intros P H. rewrite Tn by lra. now rewrite (Full P H). }
  split.
  { intros P H. rewrite Tn by lra. now rewrite (Empty P H). }
  split; [exact Fl|].
  clearbody rate. clear Fl.
  destruct (Qltb total (confidenceThresholdFeedbackCount config)) eqn:V;
    destruct (Qltb 0 total && Qltb (negativeFlagThresholdBps config) rate) eqn:G;
    destruct (Qltb (rec_score record) 500) eqn:S;
    (split; [unfold riskOrder; cbn;
             repeat first [apply sublist_nil | apply sublist_keep | apply sublist_skip]|]);
    try apply Qltb_true in V; try apply Qltb_false in V;
    try apply Qltb_true in S; try apply Qltb_false in S;
    cbn; repeat split; intros; try assumption; try reflexivity; try discriminate;
    try (now left); try (right; now left); try (right; right; now left);
    try (repeat match goal with H : _ \/ _ |- _ => destruct H end;
         try discriminate; try contradiction; try lra).
Qed.

(** ** The properties at the worlds of the client tests *)

Import ClientFixtures ScoringFixtures EnvelopeFixtures.

Lemma invalid_agent_id_asks_no_source_witness :
  let env := queryTrust noText paidDown testConfig KindScore "seven" noOptions in
  status env = ERROR /\ fallback env = Some INVALID_AGENT_ID
  /\ agentId env = "seven"%string
  /\ hd_error (querySequence testConfig noOptions) = Some (source env).
Proof.
  intro env.
  destruct (invalid_agent_id_asks_no_source noText paidDown testConfig KindScore "seven"
              noOptions (Error "agentId must be a base-10 unsigned integer") eq_refl)
    as (S & F & A & H & _).
  split; [exact S|]. split; [exact F|]. split; [exact A | exact H].
Defined.

Lemma exhausted_sources_are_reported_witness :
  let env := queryTrust noText allDown testConfig KindScore "1" noOptions in
  exists failure,
    attempt noText allDown testConfig KindScore "1" TRUSTSCORE_CONTRACT = Throw failure
    /\ source env = TRUSTSCORE_CONTRACT
    /\ fallback env = Some (classify TRUSTSCORE_CONTRACT failure)
    /\ status env = ERROR.
Proof.
  intro env.
  assert (Fail : forall source, In source (querySequence testConfig noOptions) ->
                 exists e, attempt noText allDown testConfig KindScore
                             (BigIntText.toString 1) source = Throw e).
  { intros source [<-|[<-|[<-|[]]]]; eexists; vm_compute; reflexivity. }
  destruct (exhausted_sources_are_reported noText allDown testConfig KindScore "1"
              noOptions 1 eq_refl Fail) as (failure & A & S & F & _ & St & _).
  exists failure. split; [exact A|]. split; [exact S|]. split; [exact F|].
  unfold env. rewrite St. vm_compute in A. injection A as <-. reflexivity.
Defined.

Lemma api_reply_is_classified_by_status_witness :
  exists e,
    attempt noText paidDown testConfig KindScore "1" API_DEMO = Throw e
    /\ statusCode e = Some 500%Z
    /\ toErrorMessage e = "upstream exploded"%string
    /\ classify API_DEMO e = ORACLE_UNAVAILABLE.
Proof.
  assert (N : API_DEMO <> TRUSTSCORE_CONTRACT) by discriminate.
  exact (api_reply_is_classified_by_status noText paidDown testConfig KindScore "1"
           API_DEMO (fetchImpl paidDown) 500 explodedBody N eq_refl eq_refl).
Defined.

Lemma no_private_key_no_paid_answer_witness :
  let env := queryTrust noText keyless testConfig KindScore "1" noOptions in
  (forall agentId, exists e,
     attempt noText keyless testConfig KindScore agentId API_PAID = Throw e
     /\ classify API_PAID e = PAYMENT_UNAVAILABLE)
  /\ status env <> OK.
Proof.
  intro env.
  destruct (no_private_key_no_paid_answer noText keyless testConfig KindScore "1"
              noOptions None (fun _ => Responded 200 emptyBody) eq_refl
              (or_introl eq_refl)) as (A & S & _).
  split; [exact A | exact (S eq_refl)].
Defined.

End EnvelopeProps.

(* ------------------------------------------------------------------ *)
(** * Counters and unanimous feedback *)
(* ------------------------------------------------------------------ *)

Module TallyProps.

Local Unset Implicit Arguments.

Import JS Scoring JSFacts ScoringSpec TallySpec.
Local Open Scope Q_scope.




Section Builtins.

Variable StringToNumber : string -> option Q.
Variable Date_parse : string -> option Q.






(** X28. Normalising a configuration a second time changes nothing, so
    scoring with a configuration that was normalised beforehand, as the
    indexer does, gives the result of scoring with the configuration as it
    was given. *)
Theorem normalizeConfig_is_idempotent (input : ConfigInput) :
  normalizeConfig StringToNumber (asInput (normalizeConfig StringToNumber input))
  = normalizeConfig StringToNumber input
  /\ forall feedbacks nowMs,
       scoreFeedbackDetailed StringToNumber Date_parse feedbacks
         (asInput (normalizeConfig StringToNumber input)) nowMs
       = scoreFeedbackDetailed StringToNumber Date_parse feedbacks input nowMs.
Proof.
  assert (E : normalizeConfig StringToNumber
                (asInput (normalizeConfig StringToNumber input))
              = normalizeConfig StringToNumber input).
  { apply ScoringProps.normalizeConfig_asInput, ScoringProps.normalizeConfig_normalized. }
  split; [exact E|]. intros feedbacks nowMs. unfold scoreFeedbackDetailed.
  now rewrite E.
Qed.

End Builtins.

(** ** The properties at the flagging scenario *)

Import ScoringFixtures.




End TallyProps.

(* ------------------------------------------------------------------ *)
(** * Loading the client configuration *)
(* ------------------------------------------------------------------ *)

Module AgentKitConfigProps.

Local Unset Implicit Arguments.

Import JS Types Fallbacks Client JSFacts EnvelopeSpec AgentKitConfigFile AgentKitConfigSpec.
Local Open Scope string_scope.

Lemma stripTrailingSlashes_end (s pre : string) :
  stripTrailingSlashes s <> pre ++ "/".
Proof.
  revert pre. induction s as [|c r IH]; intro pre; cbn [stripTrailingSlashes].
  - destruct pre; discriminate.
  - destruct (stripTrailingSlashes r) as [|c' r'] eqn:E.
    + destruct (Ascii.eqb c "/") eqn:C.
      * destruct pre; discriminate.
      * destruct pre as [|p pre]; cbn.
        -- intro H. injection H as ->. discriminate.
        -- intro H. injection H as _ H. destruct pre; discriminate.
    + destruct pre as [|p pre]; cbn.
      * intro H. injection H as _ H. discriminate.
      * intro H. injection H as _ H. exact (IH pre H).
Qed.

Lemma stripTrailingSlashes_fixed (s : string) :
  (forall pre, s <> pre ++ "/") -> stripTrailingSlashes s = s.
Proof.
  induction s as [|c r IH]; intro N; [reflexivity|]. cbn [stripTrailingSlashes].
  assert (Nr : r <> "" -> forall pre, r <> pre ++ "/").
  { intros _ pre E. apply (N (String c pre)). cbn. now rewrite <- E. }
  destruct r as [|c' r'].
  - cbn. destruct (Ascii.eqb c "/") eqn:C; [|reflexivity].
    apply Ascii.eqb_eq in C. subst c. exfalso. now apply (N "").
  - rewrite IH by (apply Nr; discriminate). reflexivity.
Qed.

Section Builtins.

Variable StringToNumber : string -> option Q.

Lemma loadedPositiveInt_pos (value : option string) (fallback : Q) :
  (0 < fallback)%Q -> (0 < toPositiveInt StringToNumber value fallback)%Q.
Proof.
  intro F. unfold toPositiveInt.
  destruct (Number StringToNumber _) as [parsed|]; [|exact F].
  destruct (Number_isInteger parsed && Qltb 0 parsed) eqn:E; [|exact F].
  apply andb_true_iff in E as [_ E]. now apply Qltb_true.
Qed.


Lemma parseAtomicAmount_nonneg (value : option string) (fallback : Z) :
  (0 <= fallback)%Z -> (0 <= parseAtomicAmount value fallback)%Z.
Proof.
  intro F. unfold parseAtomicAmount.
  destruct (String.eqb (trim (textOr value "")) ""); [exact F|].
  destruct (BigIntText.all_decimal_digits (trim (textOr value ""))) eqn:D;
    cbn [negb]; [|exact F].
  apply ValidationProps.all_decimal_digits_spec in D as [N D].
  rewrite (ValidationProps.StringToBigInt_numeral _ N D).
  unfold BigIntText.parse_number. destruct (trim (textOr value "")); [exact F|].
  destruct (BigIntText.parse_digits 10 0 _); cbn [option_map]; [lia | exact F].
Qed.

(** X29. Whatever the environment holds, the loaded configuration can be
    used by the client: its default mode is one of the three sources and
    is the first source a query without a mode tries; both thresholds, the
    time-out and the demo delay are positive; the base URL does not end in
    a slash and is left alone by a second stripping; the private key is
    empty or starts with [0x]; the largest payment is not negative. *)
Theorem loaded_config_is_usable (env : ProcessEnv) :
  let loaded := loadAgentKitConfig StringToNumber env in
  let config := settings loaded in
  (exists mode, defaultMode config = SOURCE_text mode
     /\ forall overrides,
          hd_error (resolveSequence None config overrides) = Some mode)
  /\ (0 < confidenceThresholdFeedbackCount config)%Q
  /\ (0 < negativeFlagThresholdBps config)%Q
  /\ (0 < timeoutMs loaded)%Q /\ (0 < demoDelayMs loaded)%Q
  /\ (forall pre, baseUrl config <> pre ++ "/")
  /\ stripTrailingSlashes (baseUrl config) = baseUrl config
  /\ (x402_privateKey loaded = "" \/ String.prefix "0x" (x402_privateKey loaded) = true)
  /\ (0 <= x402_maxPaymentAtomic loaded)%Z.
Proof.
  cbv zeta. cbn [loadAgentKitConfig settings defaultMode confidenceThresholdFeedbackCount
                 negativeFlagThresholdBps timeoutMs demoDelayMs baseUrl x402_privateKey
                 x402_maxPaymentAtomic].
  split.
  { set (mode := normalizeMode _). exists mode. split; [reflexivity|].
    intro overrides. unfold resolveSequence. cbn [defaultMode].
    destruct mode; cbn;
      repeat match goal with |- context [if ?b then _ else _] => destruct b end;
      reflexivity. }
  split; [apply loadedPositiveInt_pos; reflexivity|].
  split; [apply loadedPositiveInt_pos; reflexivity|].
  split; [apply loadedPositiveInt_pos; reflexivity|].
  split; [apply loadedPositiveInt_pos; reflexivity|].
  split; [apply stripTrailingSlashes_end|].
  split; [apply stripTrailingSlashes_fixed, stripTrailingSlashes_end|].
  split.
  { unfold normalizePrivateKey.
    destruct (String.eqb (trim _) ""); [now left|].
    destruct (String.prefix "0x" (trim _)) eqn:P; [now right|]. right.
    apply ClassifierProps.prefix_spec. eexists. reflexivity. }
  apply parseAtomicAmount_nonneg. lia.
Qed.


End Builtins.

End AgentKitConfigProps.
